(** * GreenMiles trip planner: energy/community engine and stop selection

    A shallow embedding of [communityEnergyService.ts] and of the trip
    planner ([planEvTrip], [chooseBestStop], [pointAtDistanceAlongRoute],
    ...); the geocoder, the router and the station directory are oracles.

    Numbers.  A JavaScript [number] is modelled by an exact rational ([Q]):
    comparisons, [Math.min], [Math.max], [Math.ceil] and [toFixed] are the
    exact ones, and [+ - * /] do not round.  [NaN] and the infinities are
    modelled only where the source tests for them ([Number.isFinite] in
    [calculateSolarDiscountedCost]).  The transcendental functions of the
    runtime ([Math.sin], [Math.cos], [Math.atan2], [Math.sqrt], [Math.PI])
    are an interface, [JSMath], with the two sign laws that make a distance
    non-negative; every theorem holds for each implementation of it.

    Strings.  A string is a sequence of 8-bit code units read as Latin-1.

    Effects.  Network calls are oracles over an abstract world; the charger
    memo table and the set of already selected station ids are explicit
    state.  The three clients are embedded as well, over a network of
    requests with the memo tables of the routing client, and the planner
    over them is [planEvTripOnline]. *)

From Stdlib Require Import QArith Qround Qabs Lqa Lia ZArith Ascii String.
From Stdlib Require Import Sorting.Sorted Sorting.Permutation.
From stdpp Require Import gmap strings pretty list fin_maps.

Local Open Scope Q_scope.

(** ** Numbers *)

Definition Qleb (x y : Q) : bool := Qle_bool x y.
Definition Qltb (x y : Q) : bool := negb (Qle_bool y x).
Definition Qeqb (x y : Q) : bool := Qeq_bool x y.

Infix "<=?" := Qleb (at level 70, no associativity) : Q_scope.
Infix "<?" := Qltb (at level 70, no associativity) : Q_scope.
Infix "=?" := Qeqb (at level 70, no associativity) : Q_scope.

(** [Math.max(a, b)] and [Math.min(a, b)]. *)
Definition Math_max (a b : Q) : Q := if a <=? b then b else a.
Definition Math_min (a b : Q) : Q := if a <=? b then a else b.

(** [Math.ceil(x)]. *)
Definition Math_ceil (x : Q) : Z := Qceiling x.

(** [10^d] as a rational. *)
Definition pow10 (d : nat) : Q := inject_Z (10 ^ Z.of_nat d).

(** [Number(x.toFixed(d))]: [toFixed] negates a negative [x], takes the
    integer [n] with [n / 10^d] closest to [x] (the larger [n] on a tie) and
    prints it with [d] decimals; [Number] reads the decimal back.  (From
    10^21 on [toFixed] prints the number itself, which is an integer there,
    so the value is the same.) *)
Definition roundHalfUp (x : Q) : Z := Qfloor (x + (1 # 2)).

Definition toFixed (x : Q) (d : nat) : Q :=
  if x <? 0
  then - (inject_Z (roundHalfUp (- x * pow10 d)) / pow10 d)
  else inject_Z (roundHalfUp (x * pow10 d)) / pow10 d.

(** A [number] where the source distinguishes the non-finite values. *)
Inductive jsnumber : Type :=
  | Finite (q : Q)
  | PosInfinity
  | NegInfinity
  | NaN.

Definition Number_isFinite (x : jsnumber) : bool :=
  match x with Finite _ => true | _ => false end.

(** [x <= y] on [jsnumber]: false as soon as one side is [NaN]. *)
Definition js_le (x y : jsnumber) : Prop :=
  match x, y with
  | NaN, _ | _, NaN => False
  | NegInfinity, _ => True
  | _, PosInfinity => True
  | Finite a, Finite b => a <= b
  | _, _ => False
  end.

(** ** The runtime's transcendental functions *)

Class JSMath : Type := {
  Math_PI : Q;
  Math_sin : Q -> Q;
  Math_cos : Q -> Q;
  Math_sqrt : Q -> Q;
  Math_atan2 : Q -> Q -> Q;
  (** a square root is not negative, and neither is the angle of a point
      of the first quadrant *)
  Math_sqrt_nonneg : forall x, 0 <= Math_sqrt x;
  Math_atan2_nonneg : forall y x, 0 <= y -> 0 <= x -> 0 <= Math_atan2 y x
}.

(** ** [Array.prototype.sort]

    With a consistent comparator the result of [sort] is the stable sorted
    arrangement, which is what insertion from the right computes: [x] goes
    before the first element it does not compare greater than. *)

Section ArraySort.
Context {A : Type} (cmp : A -> A -> Q).

Fixpoint sort_insert (x : A) (l : list A) : list A :=
  match l with
  | [] => [x]
  | y :: l' => if cmp x y <=? 0 then x :: l else y :: sort_insert x l'
  end.

Definition Array_sort (l : list A) : list A := foldr sort_insert [] l.
End ArraySort.

(** ** Data model *)

Inductive EnergySource : Type := solar | grid | hybrid.

Global Instance EnergySource_eq_dec : EqDecision EnergySource.
Proof. solve_decision. Defined.

Record Coordinate : Type := mkCoordinate { lat : Q; lng : Q }.

Record OcmConnection : Type := mkConnection {
  conn_type : string;
  conn_powerKw : Q
}.

(** [OcmStation], with the optional fields of [SolarAwareStation]. *)
Record OcmStation : Type := mkStation {
  id : string;
  name : string;
  latitude : Q;
  longitude : Q;
  distanceKm : Q;
  address : string;
  connections : list OcmConnection;
  maxPowerKw : Q;
  isSolarPowered : bool;
  energySource : option EnergySource;
  operatorName : option string
}.

Abbreviation SolarAwareStation := OcmStation (only parsing).

Record CommunityRescueVehicle : Type := mkVehicle {
  vehicleId : string;
  currentLocation : Coordinate;
  routeDirection : string;
  availableBatteryPercent : Q;
  supportsReverseCharging : bool
}.

(** [transferKwhRange]: [{ min, max }]. *)
Record TransferRange : Type := mkRange { range_min : Q; range_max : Q }.

Record RescueSimulationInput : Type := mkSimInput {
  receiverCurrentBatteryPercent : Q;
  receiverBatteryCapacityKwh : Q;
  receiverLocation : Coordinate;
  rescueCandidates : list CommunityRescueVehicle;
  chargingStations : list OcmStation;
  donorBatteryCapacityKwh : option Q;
  transferKwhRange : option TransferRange;
  donorSafeBatteryFloorPercent : option Q;
  receiverKmPerKwh : option Q;
  oneRescuePerTrip : option bool;
  alreadyRescuedOnTrip : option bool
}.

Record RescueSimulationResult : Type := mkSimResult {
  rescueFound : bool;
  donorVehicleId : option string;
  transferredEnergyKwh : Q;
  emergencyRangeGainedKm : Q;
  receiverBatteryAfterPercent : option Q;
  donorBatteryAfterPercent : option Q;
  nearestChargerReachable : bool;
  nearestReachableChargerId : option string;
  nearestReachableChargerName : option string;
  reason : string
}.

(** [x ?? d]. *)
Definition nullish {A : Type} (x : option A) (d : A) : A :=
  match x with Some v => v | None => d end.
Infix "??" := nullish (at level 45, left associativity).

(** Truthiness of an optional boolean. *)
Definition truthy (b : option bool) : bool := b ?? false.

(** ** Geospatial utilities *)

Section Geo.
Context `{JSMath}.

Definition EARTH_RADIUS_KM : Q := 6371.

Definition toRad (deg : Q) : Q := (deg * Math_PI) / 180.

Definition sq (x : Q) : Q := x * x.

Definition haversineKm (a b : Coordinate) : Q :=
  let dLat := toRad (lat b - lat a) in
  let dLng := toRad (lng b - lng a) in
  let lat1 := toRad (lat a) in
  let lat2 := toRad (lat b) in
  let h := sq (Math_sin (dLat / 2))
           + Math_cos lat1 * Math_cos lat2 * sq (Math_sin (dLng / 2)) in
  2 * EARTH_RADIUS_KM * Math_atan2 (Math_sqrt h) (Math_sqrt (1 - h)).
End Geo.

(** ** Reverse-charging simulation *)

Section Rescue.
Context `{JSMath}.

Definition rescueRejected (why : string) : RescueSimulationResult :=
  {| rescueFound := false;
     donorVehicleId := None;
     transferredEnergyKwh := 0;
     emergencyRangeGainedKm := 0;
     receiverBatteryAfterPercent := None;
     donorBatteryAfterPercent := None;
     nearestChargerReachable := false;
     nearestReachableChargerId := None;
     nearestReachableChargerName := None;
     reason := why |}.

Definition defaultTransferRange : TransferRange :=
  {| range_min := 5; range_max := 10 |}.

(** The donor's energy now, at its safe floor, and what it can give. *)
Definition donorCurrentEnergyKwh (input : RescueSimulationInput)
    (donor : CommunityRescueVehicle) : Q :=
  (availableBatteryPercent donor / 100) * (donorBatteryCapacityKwh input ?? 70).

Definition donorMinimumEnergyKwh (input : RescueSimulationInput) : Q :=
  ((donorSafeBatteryFloorPercent input ?? 25) / 100)
  * (donorBatteryCapacityKwh input ?? 70).

Definition donorTransferableKwh (input : RescueSimulationInput)
    (donor : CommunityRescueVehicle) : Q :=
  Math_max 0 (donorCurrentEnergyKwh input donor - donorMinimumEnergyKwh input).

Definition transferCandidateKwh (input : RescueSimulationInput)
    (donor : CommunityRescueVehicle) : Q :=
  Math_min (range_max (transferKwhRange input ?? defaultTransferRange))
           (donorTransferableKwh input donor).

(** The transfer before the report rounds it to two decimals. *)
Definition transferKwh (input : RescueSimulationInput)
    (donor : CommunityRescueVehicle) : Q :=
  if range_min (transferKwhRange input ?? defaultTransferRange)
     <=? transferCandidateKwh input donor
  then transferCandidateKwh input donor else 0.

(** The charging station nearest to the receiver, with its distance. *)
Definition nearestStation (input : RescueSimulationInput)
    : option (OcmStation * Q) :=
  head (Array_sort (fun a b => snd a - snd b)
          (map (fun station =>
                  (station,
                   haversineKm (receiverLocation input)
                     {| lat := latitude station; lng := longitude station |}))
               (chargingStations input))).

Definition simulateReverseCharging (input : RescueSimulationInput)
    : RescueSimulationResult :=
  if truthy (oneRescuePerTrip input) && truthy (alreadyRescuedOnTrip input)
  then rescueRejected "One rescue per trip limit reached"
  else
    match rescueCandidates input with
    | [] => rescueRejected "No rescue vehicle available"
    | donor :: _ =>
      let receiverKmPerKwh := receiverKmPerKwh input ?? (45 # 10) in
      let transferred := transferKwh input donor in
      if transferred <=? 0
      then rescueRejected "Donor battery is below safe transfer reserve"
      else
        let emergencyRange := toFixed (transferred * receiverKmPerKwh) 1 in
        let receiverAddedPercent :=
          (transferred / Math_max 1 (receiverBatteryCapacityKwh input)) * 100 in
        let receiverAfter :=
          toFixed (Math_min 100 (receiverCurrentBatteryPercent input
                                 + receiverAddedPercent)) 1 in
        let donorAfter :=
          toFixed (((donorCurrentEnergyKwh input donor - transferred)
                    / (donorBatteryCapacityKwh input ?? 70)) * 100) 1 in
        let nearest := nearestStation input in
        let reachable :=
          match nearest with
          | Some (_, d) => d <=? emergencyRange
          | None => false
          end in
        {| rescueFound := true;
           donorVehicleId := Some (vehicleId donor);
           transferredEnergyKwh := toFixed transferred 2;
           emergencyRangeGainedKm := emergencyRange;
           receiverBatteryAfterPercent := Some receiverAfter;
           donorBatteryAfterPercent := Some donorAfter;
           nearestChargerReachable := reachable;
           nearestReachableChargerId :=
             if reachable then option_map (fun n => id (fst n)) nearest else None;
           nearestReachableChargerName :=
             if reachable then option_map (fun n => name (fst n)) nearest else None;
           reason :=
             if reachable
             then "Rescue successful and a charger is reachable"
             else "Rescue provided emergency range, but nearest charger is still out of range" |}
    end.
End Rescue.

(** ** Strings *)

Definition charCode (c : ascii) : N := N_of_ascii c.

Definition inRange (lo hi : N) (n : N) : bool := (lo <=? n)%N && (n <=? hi)%N.

(** White space and line terminators that [trim] strips (Latin-1 part). *)
Definition isWhiteSpace (c : ascii) : bool :=
  let n := charCode c in inRange 9 13 n || (n =? 32)%N || (n =? 160)%N.

(** [toLowerCase] on one code unit: A-Z, and the Latin-1 capitals. *)
Definition lowerChar (c : ascii) : ascii :=
  let n := charCode c in
  if inRange 65 90 n || (inRange 192 222 n && negb (n =? 215)%N)
  then ascii_of_N (n + 32) else c.

(** The class [a-z0-9] of the token expression. *)
Definition isTokenChar (c : ascii) : bool :=
  let n := charCode c in inRange 97 122 n || inRange 48 57 n.

Fixpoint toLowerCase (s : string) : string :=
  match s with
  | EmptyString => EmptyString
  | String c s' => String (lowerChar c) (toLowerCase s')
  end.

Fixpoint trimStart (s : string) : string :=
  match s with
  | EmptyString => EmptyString
  | String c s' => if isWhiteSpace c then trimStart s' else s
  end.

Fixpoint trimEnd (s : string) : string :=
  match s with
  | EmptyString => EmptyString
  | String c s' =>
    match trimEnd s' with
    | EmptyString => if isWhiteSpace c then EmptyString else String c EmptyString
    | t => String c t
    end
  end.

Definition trim (s : string) : string := trimEnd (trimStart s).

Definition isEmpty (s : string) : bool :=
  match s with EmptyString => true | _ => false end.

(** [s.startsWith(p)]. *)
Fixpoint startsWith (s p : string) {struct p} : bool :=
  match p with
  | EmptyString => true
  | String c p' =>
    match s with
    | EmptyString => false
    | String c' s' => if ascii_dec c c' then startsWith s' p' else false
    end
  end.

(** [s.includes(p)]: [p] starts at some position of [s]. *)
Fixpoint includes (s p : string) : bool :=
  startsWith s p
  || match s with
     | EmptyString => false
     | String _ s' => includes s' p
     end.

Definition flushToken (cur : string) : list string :=
  if isEmpty cur then [] else [cur].

(** [s.split(/[^a-z0-9]+/g).filter(Boolean)]: the maximal runs of token
    characters, in order; [cur] is the run being read. *)
Fixpoint splitTokens (s : string) (cur : string) : list string :=
  match s with
  | EmptyString => flushToken cur
  | String c s' =>
    if isTokenChar c
    then splitTokens s' (cur +:+ String c EmptyString)
    else flushToken cur ++ splitTokens s' EmptyString
  end.

Definition tokens (s : string) : list string := splitTokens s EmptyString.

(** [new Set(l)]: the distinct elements in order of first occurrence. *)
Definition Set_add (acc : list string) (x : string) : list string :=
  if bool_decide (x ∈ acc) then acc else acc ++ [x].

Definition Set_of (l : list string) : list string := foldl Set_add [] l.

Definition Set_has (s : list string) (x : string) : bool := bool_decide (x ∈ s).

(** ** Route similarity *)

Definition routeSimilarityScore (routeA routeB : string) : Q :=
  let a := toLowerCase (trim routeA) in
  let b := toLowerCase (trim routeB) in
  if isEmpty a || isEmpty b then 0
  else if bool_decide (a = b) then 1
  else if includes a b || includes b a then 3 # 4
  else
    let aTokens := Set_of (tokens a) in
    let bTokens := Set_of (tokens b) in
    if (length aTokens =? 0)%nat || (length bTokens =? 0)%nat then 0
    else
      let overlap := length (List.filter (Set_has bTokens) aTokens) in
      inject_Z (Z.of_nat overlap)
      / inject_Z (Z.of_nat (Nat.max (length aTokens) (length bTokens))).

(** ** Energy source of a station *)

Definition SOLAR_KEYWORDS : list string :=
  ["solar"; "renewable"; "green energy"; "clean energy"; "sun powered"].

Definition HYBRID_KEYWORDS : list string :=
  ["hybrid"; "mixed energy"; "solar+grid"].

Definition inferEnergySourceFromText (text : string) : EnergySource :=
  let haystack := toLowerCase text in
  if existsb (fun k => includes haystack k) HYBRID_KEYWORDS then hybrid
  else if existsb (fun k => includes haystack k) SOLAR_KEYWORDS then solar
  else grid.

Definition isSolarSource (e : EnergySource) : bool :=
  match e with solar | hybrid => true | grid => false end.

Definition detectSolarStation (manualTags : gmap string EnergySource)
    (station : OcmStation) : OcmStation :=
  let manualEnergySource := manualTags !! id station in
  let inferred :=
    inferEnergySourceFromText
      (name station +:+ " " +:+ address station +:+ " "
       +:+ (operatorName station ?? "")) in
  let source :=
    match manualEnergySource with
    | Some e => e
    | None => energySource station ?? inferred
    end in
  {| id := id station;
     name := name station;
     latitude := latitude station;
     longitude := longitude station;
     distanceKm := distanceKm station;
     address := address station;
     connections := connections station;
     maxPowerKw := maxPowerKw station;
     isSolarPowered := isSolarSource source;
     energySource := Some source;
     operatorName := operatorName station |}.

Definition detectSolarStations (stations : list OcmStation)
    (manualTags : gmap string EnergySource) : list OcmStation :=
  map (detectSolarStation manualTags) stations.

(** ** Charging cost *)

Record CostOptions : Type := mkCostOptions {
  basePricePerKwh : option Q;
  solarDiscountPercent : option Q;
  hybridDiscountPercent : option Q
}.

Record ChargingCostBreakdown : Type := mkCost {
  cost_basePricePerKwh : Q;
  effectivePricePerKwh : Q;
  discountAppliedPercent : Q;
  totalCost : Q;
  note : string
}.

(** [options?.f ?? d]. *)
Definition optionField {A B : Type} (o : option A) (f : A -> option B) (d : B) : B :=
  match o with Some r => f r ?? d | None => d end.

Definition sourceName (e : EnergySource) : string :=
  match e with solar => "solar" | grid => "grid" | hybrid => "hybrid" end.

(** [Math.max(0, Number.isFinite(e) ? e : 0)]. *)
Definition chargedUnits (energyRequiredKwh : jsnumber) : Q :=
  Math_max 0 (match energyRequiredKwh with Finite e => e | _ => 0 end).

Definition calculateSolarDiscountedCost (energyRequiredKwh : jsnumber)
    (station : OcmStation) (options : option CostOptions) : ChargingCostBreakdown :=
  let units := chargedUnits energyRequiredKwh in
  let base := optionField options basePricePerKwh 12 in
  let solarDiscount := optionField options solarDiscountPercent 35 in
  let hybridDiscount := optionField options hybridDiscountPercent 20 in
  let source := energySource station ?? grid in
  let discount :=
    match source with
    | solar => solarDiscount
    | hybrid => hybridDiscount
    | grid => 0
    end in
  let effective := toFixed (base * (1 - discount / 100)) 2 in
  let total := toFixed (units * effective) 2 in
  {| cost_basePricePerKwh := base;
     effectivePricePerKwh := effective;
     discountAppliedPercent := discount;
     totalCost := total;
     note := if 0 <? discount
             then sourceName source +:+ " station discount applied"
             else "Standard grid tariff" |}.

Definition calculateChargingCost (energyRequiredKwh : jsnumber)
    (station : OcmStation) : ChargingCostBreakdown :=
  calculateSolarDiscountedCost energyRequiredKwh station None.

(** ** Out-of-charge detection *)

Record OutOfChargeDetectionInput : Type := mkOocInput {
  batteryPercent : Q;
  criticalThresholdPercent : option Q;
  nearbyStationsCount : Q;
  stationRadiusKm : Q
}.

(** The three reason templates; the numbers are the ones interpolated. *)
Inductive OutOfChargeReason : Type :=
  | CriticalAndNoStations (thresholdPercent radiusKm : Q)
  | AboveCriticalThreshold (thresholdPercent : Q)
  | StationsAvailableNearby.

Record OutOfChargeDetectionResult : Type := mkOocResult {
  isCriticalBattery : bool;
  hasNoNearbyStations : bool;
  shouldTriggerRescue : bool;
  ooc_reason : OutOfChargeReason
}.

Definition detectOutOfChargeScenario (input : OutOfChargeDetectionInput)
    : OutOfChargeDetectionResult :=
  let threshold := criticalThresholdPercent input ?? 5 in
  let critical := batteryPercent input <=? threshold in
  let noStations := nearbyStationsCount input <=? 0 in
  let rescue := critical && noStations in
  {| isCriticalBattery := critical;
     hasNoNearbyStations := noStations;
     shouldTriggerRescue := rescue;
     ooc_reason :=
       if rescue then CriticalAndNoStations threshold (stationRadiusKm input)
       else if negb critical then AboveCriticalThreshold threshold
       else StationsAvailableNearby |}.

(** ** Matching rescue vehicles *)

(** [match_receiverLocation] is the field [receiverLocation]. *)
Record RescueMatchInput : Type := mkMatchInput {
  match_receiverLocation : Coordinate;
  receiverRouteDirection : string;
  vehicles : list CommunityRescueVehicle;
  maxDistanceKm : option Q;
  minimumDonorBatteryPercent : option Q
}.

(** [{ vehicle, distanceKm, similarity }]. *)
Record RescueCandidate : Type := mkCandidate {
  cand_vehicle : CommunityRescueVehicle;
  cand_distanceKm : Q;
  cand_similarity : Q
}.

(** The comparator of the ranking: nearer first, then the fuller battery. *)
Definition compareCandidates (a b : RescueCandidate) : Q :=
  if negb (cand_distanceKm a =? cand_distanceKm b)
  then cand_distanceKm a - cand_distanceKm b
  else availableBatteryPercent (cand_vehicle b)
       - availableBatteryPercent (cand_vehicle a).

Section Matching.
Context `{JSMath}.

Definition toCandidate (input : RescueMatchInput)
    (vehicle : CommunityRescueVehicle) : RescueCandidate :=
  {| cand_vehicle := vehicle;
     cand_distanceKm :=
       haversineKm (match_receiverLocation input) (currentLocation vehicle);
     cand_similarity :=
       routeSimilarityScore (receiverRouteDirection input) (routeDirection vehicle) |}.

Definition findNearbyRescueVehicles (input : RescueMatchInput)
    : list CommunityRescueVehicle :=
  let maxDistance := maxDistanceKm input ?? 8 in
  let minimumBattery := minimumDonorBatteryPercent input ?? 40 in
  let supporting := List.filter supportsReverseCharging (vehicles input) in
  let charged :=
    List.filter (fun v => minimumBattery <=? availableBatteryPercent v) supporting in
  let candidates := map (toCandidate input) charged in
  let near := List.filter (fun c => cand_distanceKm c <=? maxDistance) candidates in
  let aligned := List.filter (fun c => (35 # 100) <=? cand_similarity c) near in
  map cand_vehicle (Array_sort compareCandidates aligned).
End Matching.

(** ** Trip planner: constants and records *)

Definition MIN_FAST_CHARGER_KW : Q := 50.
Definition CHARGER_SEARCH_RADIUS_KM : Q := 20.
Definition CHARGER_SEARCH_LIMIT : Q := 40.
Definition RANGE_BUFFER_FACTOR : Q := 9 # 10.
Definition MIN_SOLAR_DETOUR_WINDOW_KM : Q := 2.
Definition DEFAULT_RECEIVER_BATTERY_KWH : Q := 60.
Definition DEFAULT_EFFICIENCY_KM_PER_KWH : Q := 45 # 10.

(** Field names that another record already has carry a prefix: [stop_]
    here, [cr_] in [communityRescue], [cand_] in the candidates that the
    source builds as object literals. *)
Record PlannedChargingStop : Type := mkStop {
  stop_id : string;
  stop_name : string;
  stop_address : string;
  stop_latitude : Q;
  stop_longitude : Q;
  powerKw : Q;
  distanceFromRouteKm : Q;
  distanceFromStartKm : Q;
  isFastCharger : bool;
  isSolarPreferred : bool;
  stop_energySource : option EnergySource;
  estimatedChargingCostInr : Q;
  estimatedUnitPriceInr : Q;
  discountPercent : Q
}.

(** [RoutePlanResult.communityRescue]. *)
Record CommunityRescueDetails : Type := mkRescueDetails {
  enabled : bool;
  triggered : bool;
  cr_rescueFound : bool;
  cr_donorVehicleId : option string;
  cr_transferredEnergyKwh : Q;
  cr_emergencyRangeGainedKm : Q;
  cr_nearestChargerReachable : bool;
  cr_nearestReachableChargerName : option string;
  cr_reason : string
}.

Record EstimatedCost : Type := mkEstimatedCost {
  estimatedTotal : Q;
  cost_note : string
}.

Record BatteryModel : Type := mkBatteryModel {
  consumptionPerKm : Q;
  battery_note : string
}.

Record MapData : Type := mkMapData {
  map_route : list Coordinate;
  map_stops : list Coordinate
}.

Record Sustainability : Type := mkSustainability {
  score : Q;
  co2SavingsKg : Q;
  sustainability_note : string
}.

Record RoutePlanResult : Type := mkPlan {
  start : string;
  destination : string;
  startCoordinate : Coordinate;
  destinationCoordinate : Coordinate;
  totalDistanceKm : Q;
  usableRangeKm : Q;
  planningLegRangeKm : Q;
  requiresCharging : bool;
  chargingStopsRequired : nat;
  chargingStops : list PlannedChargingStop;
  message : string;
  routeGeometry : list Coordinate;
  communityRescue : option CommunityRescueDetails;
  estimatedCost : EstimatedCost;
  batteryModel : BatteryModel;
  mapData : MapData;
  sustainability : Sustainability
}.

Record TripParams : Type := mkParams {
  startLocation : string;
  params_destination : string;
  evMaxRangeKm : Q;
  currentBatteryPercent : Q;
  enableCommunityRescue : option bool;
  communityVehicles : option (list CommunityRescueVehicle)
}.

(** What [fetchRoute] resolves to. *)
Record RouteInfo : Type := mkRoute {
  route_distanceKm : Q;
  geometry : list Coordinate
}.

Record NearbyStationsParams : Type := mkNearby {
  nearby_latitude : Q;
  nearby_longitude : Q;
  nearby_distanceKm : option Q;
  maxResults : option Q
}.

(** ** Errors *)

Inductive TripPlannerErrorCode : Type :=
  | MISSING_ORS_KEY
  | INVALID_LOCATION
  | ROUTE_NOT_FOUND
  | NO_CHARGERS_FOUND
  | NETWORK_ERROR
  | UNKNOWN.

(** What a call can throw: a [TripPlannerError], another [Error] (such as
    [OpenChargeMapError]) with its message, or a value that is no [Error]. *)
Inductive thrown : Type :=
  | TripPlannerError (code : TripPlannerErrorCode) (msg : string)
  | OtherError (msg : string)
  | NotAnError.

Inductive outcome (A : Type) : Type :=
  | Returned (a : A)
  | Thrown (e : thrown).
Arguments Returned {A} a.
Arguments Thrown {A} e.

(** ** Route geometry *)

Section Route.
Context `{JSMath}.

(** The point at [ratio] of the way from [segStart] to [segEnd]. *)
Definition interpolate (segStart segEnd : Coordinate) (ratio : Q) : Coordinate :=
  {| lat := lat segStart + (lat segEnd - lat segStart) * ratio;
     lng := lng segStart + (lng segEnd - lng segStart) * ratio |}.

(** The loop of [pointAtDistanceAlongRoute] from segment [segStart -> ...]
    on, [covered] kilometres in; past the last segment the answer is the
    last point. *)
Fixpoint walkRoute (targetDistanceKm covered : Q) (segStart : Coordinate)
    (rest : list Coordinate) : Coordinate :=
  match rest with
  | [] => segStart
  | segEnd :: rest' =>
    let segDistance := haversineKm segStart segEnd in
    if targetDistanceKm <=? covered + segDistance
    then
      let ratio :=
        if segDistance =? 0 then 0
        else (targetDistanceKm - covered) / segDistance in
      interpolate segStart segEnd ratio
    else walkRoute targetDistanceKm (covered + segDistance) segEnd rest'
  end.

Definition pointAtDistanceAlongRoute (route : list Coordinate)
    (targetDistanceKm : Q) : Coordinate :=
  match route with
  | [] => {| lat := 0; lng := 0 |}
  | first :: rest =>
    if targetDistanceKm <=? 0 then first
    else walkRoute targetDistanceKm 0 first rest
  end.

(** [route[0], route[step], route[2*step], ...]; [skip] elements are
    passed over before the next sample. *)
Fixpoint sampleEvery {A : Type} (step skip : nat) (l : list A) : list A :=
  match l with
  | [] => []
  | x :: l' =>
    match skip with
    | O => x :: sampleEvery step (step - 1) l'
    | S k => sampleEvery step k l'
    end
  end.

(** The running minimum starts at [Infinity], so after the sample at index
    0 it is that sample's distance. *)
Definition minDistanceToRouteKm (point : Coordinate) (route : list Coordinate) : Q :=
  match sampleEvery (Nat.max 1 (length route / 120)) 0 route with
  | [] => 0
  | p0 :: samples =>
    toFixed (foldl (fun m p => Math_min m (haversineKm point p))
                   (haversineKm point p0) samples) 2
  end.
End Route.

(** ** Stop selection *)

(** [{ station, power, solar, distanceFromRouteKm }], and the same with
    [solarWithMinimalDetour]. *)
Record StopCandidate : Type := mkStopCandidate {
  station : OcmStation;
  power : Q;
  cand_solar : bool;
  cand_distanceFromRouteKm : Q
}.

Record RankedCandidate : Type := mkRanked {
  candidate : StopCandidate;
  solarWithMinimalDetour : bool
}.

(** [station.maxPowerKw || 0]. *)
Definition maxPowerKwOf (s : OcmStation) : Q :=
  if maxPowerKw s =? 0 then 0 else maxPowerKw s.

(** [Math.min(...l)]; [None] stands for the [Infinity] of an empty list. *)
Definition Math_min_list (l : list Q) : option Q :=
  match l with
  | [] => None
  | x :: l' => Some (foldl Math_min x l')
  end.

Definition fastCandidates (available : list StopCandidate) : list StopCandidate :=
  List.filter (fun c => MIN_FAST_CHARGER_KW <=? power c) available.

Definition choosePool (available : list StopCandidate) : list StopCandidate :=
  match fastCandidates available with
  | [] => available
  | fast => fast
  end.

Definition minDistanceInPool (pool : list StopCandidate) : option Q :=
  Math_min_list (map cand_distanceFromRouteKm pool).

Definition withinDetourWindow (minInPool : option Q) (d : Q) : bool :=
  match minInPool with
  | Some m => d <=? m + MIN_SOLAR_DETOUR_WINDOW_KM
  | None => true
  end.

Definition flagCandidate (minInPool : option Q) (c : StopCandidate) : RankedCandidate :=
  {| candidate := c;
     solarWithMinimalDetour :=
       cand_solar c && withinDetourWindow minInPool (cand_distanceFromRouteKm c) |}.

Definition compareRanked (a b : RankedCandidate) : Q :=
  if negb (eqb (solarWithMinimalDetour a) (solarWithMinimalDetour b))
  then (if solarWithMinimalDetour a then -1 else 1)
  else if negb (cand_distanceFromRouteKm (candidate a)
                =? cand_distanceFromRouteKm (candidate b))
  then cand_distanceFromRouteKm (candidate a) - cand_distanceFromRouteKm (candidate b)
  else power (candidate b) - power (candidate a).

Definition rankPool (pool : list StopCandidate) : list RankedCandidate :=
  Array_sort compareRanked (map (flagCandidate (minDistanceInPool pool)) pool).

Definition toPlannedStop (picked : RankedCandidate) (distanceFromStart : Q)
    (energyRequiredKwh : Q) : PlannedChargingStop :=
  let st := station (candidate picked) in
  let chargingCost := calculateChargingCost (Finite energyRequiredKwh) st in
  {| stop_id := id st;
     stop_name := name st;
     stop_address := address st;
     stop_latitude := latitude st;
     stop_longitude := longitude st;
     powerKw := power (candidate picked);
     distanceFromRouteKm := cand_distanceFromRouteKm (candidate picked);
     distanceFromStartKm := toFixed distanceFromStart 1;
     isFastCharger := MIN_FAST_CHARGER_KW <=? power (candidate picked);
     isSolarPreferred := solarWithMinimalDetour picked;
     stop_energySource := energySource st;
     estimatedChargingCostInr := totalCost chargingCost;
     estimatedUnitPriceInr := effectivePricePerKwh chargingCost;
     discountPercent := discountAppliedPercent chargingCost |}.

Section Selection.
Context `{JSMath}.

Definition availableCandidates (nearby : list OcmStation) (route : list Coordinate)
    (selectedIds : gset string) : list StopCandidate :=
  map (fun s =>
         {| station := s;
            power := maxPowerKwOf s;
            cand_solar := isSolarPowered s;
            cand_distanceFromRouteKm :=
              minDistanceToRouteKm {| lat := latitude s; lng := longitude s |} route |})
      (List.filter (fun s => negb (bool_decide (id s ∈ selectedIds))) nearby).

(** [chooseBestStop] once the nearby stations are fetched: the stop, if
    any, and the set of selected ids afterwards. *)
Definition selectStop (nearby : list OcmStation) (route : list Coordinate)
    (distanceFromStart energyRequiredKwh : Q) (selectedIds : gset string)
    : option PlannedChargingStop * gset string :=
  match nearby with
  | [] => (None, selectedIds)
  | _ =>
    match availableCandidates nearby route selectedIds with
    | [] => (None, selectedIds)
    | available =>
      match head (rankPool (choosePool available)) with
      | None => (None, selectedIds)
      | Some picked =>
        (Some (toPlannedStop picked distanceFromStart energyRequiredKwh),
         {[ id (station (candidate picked)) ]} ∪ selectedIds)
      end
    end
  end.
End Selection.

(** ** The planner's state and effects *)

(** [x.toFixed(d)] as text, for memo keys. *)
Fixpoint fractionDigits (d : nat) (m : Z) : string :=
  match d with
  | O => ""
  | S d' => fractionDigits d' (m / 10)%Z +:+ pretty (m mod 10)%Z
  end.

Definition toFixedString (x : Q) (d : nat) : string :=
  let n := roundHalfUp (Qabs x * pow10 d) in
  (if x <? 0 then "-" else "")
  +:+ pretty (n / 10 ^ Z.of_nat d)%Z
  +:+ match d with
      | O => ""
      | _ => "." +:+ fractionDigits d (n mod 10 ^ Z.of_nat d)%Z
      end.

Definition chargerCacheKey (point : Coordinate) : string :=
  toFixedString (lat point) 3 +:+ ":" +:+ toFixedString (lng point) 3 +:+ ":20:40".

Section Planner.
Context `{JSMath}.

(** The world outside the planner and its three network clients.  The
    geocoder and the router are taken whole, with their memo tables. *)
Context {W : Type}.
Context (geocodeCity : string -> W -> W * outcome Coordinate).
Context (fetchRoute : Coordinate -> Coordinate -> W -> W * outcome RouteInfo).
Context (fetchNearbyChargingStations :
           NearbyStationsParams -> W -> W * outcome (list OcmStation)).

Record PlannerState : Type := mkState {
  world : W;
  chargerCache : gmap string (list OcmStation)
}.

Definition M (A : Type) : Type := PlannerState -> PlannerState * outcome A.

Definition ret {A : Type} (a : A) : M A := fun s => (s, Returned a).

Definition throw {A : Type} (e : thrown) : M A := fun s => (s, Thrown e).

Definition bind {A B : Type} (m : M A) (k : A -> M B) : M B :=
  fun s =>
    match m s with
    | (s', Returned a) => k a s'
    | (s', Thrown e) => (s', Thrown e)
    end.

Notation "x <- m ;; k" := (bind m (fun x => k))
  (at level 100, m at next level, right associativity).

Definition callWorld {A : Type} (f : W -> W * outcome A) : M A :=
  fun s =>
    let (w', r) := f (world s) in
    ({| world := w'; chargerCache := chargerCache s |}, r).

Definition cacheGet (key : string) : M (option (list OcmStation)) :=
  fun s => (s, Returned (chargerCache s !! key)).

Definition cacheSet (key : string) (v : list OcmStation) : M unit :=
  fun s =>
    ({| world := world s; chargerCache := <[key := v]> (chargerCache s) |},
     Returned tt).

Definition fetchChargersNearPoint (point : Coordinate) : M (list OcmStation) :=
  let cacheKey := chargerCacheKey point in
  cached <- cacheGet cacheKey ;;
  match cached with
  | Some stations => ret stations
  | None =>
    stations <- callWorld (fetchNearbyChargingStations
                  {| nearby_latitude := lat point;
                     nearby_longitude := lng point;
                     nearby_distanceKm := Some CHARGER_SEARCH_RADIUS_KM;
                     maxResults := Some CHARGER_SEARCH_LIMIT |}) ;;
    let solarAwareStations := detectSolarStations stations ∅ in
    stored <- cacheSet cacheKey solarAwareStations ;;
    ret solarAwareStations
  end.

(** The chosen stop, and the caller's set of selected ids after the call. *)
Definition chooseBestStop (point : Coordinate) (route : list Coordinate)
    (distanceFromStartKm energyRequiredKwh : Q) (selectedIds : gset string)
    : M (option PlannedChargingStop * gset string) :=
  nearby <- fetchChargersNearPoint point ;;
  ret (selectStop nearby route distanceFromStartKm energyRequiredKwh selectedIds).

Definition createSimulatedCommunityVehicles (routePoint : Coordinate)
    : list CommunityRescueVehicle :=
  [ {| vehicleId := "EV-COMM-101";
       currentLocation := {| lat := lat routePoint + (18 # 1000);
                             lng := lng routePoint - (12 # 1000) |};
       routeDirection := "same corridor outbound";
       availableBatteryPercent := 62;
       supportsReverseCharging := true |};
    {| vehicleId := "EV-COMM-202";
       currentLocation := {| lat := lat routePoint - (26 # 1000);
                             lng := lng routePoint + (1 # 100) |};
       routeDirection := "nearby local route";
       availableBatteryPercent := 48;
       supportsReverseCharging := true |};
    {| vehicleId := "EV-COMM-303";
       currentLocation := {| lat := lat routePoint + (8 # 100);
                             lng := lng routePoint + (5 # 100) |};
       routeDirection := "different route";
       availableBatteryPercent := 72;
       supportsReverseCharging := false |} ].

Definition calculateUsableRangeKm (evMaxRange currentBattery : Q) : Q :=
  let safeBattery := Math_min (Math_max currentBattery 0) 100 in
  let safeRange := Math_max evMaxRange 0 in
  toFixed ((safeBattery / 100) * safeRange) 2.

(** [params.enableCommunityRescue !== false]. *)
Definition rescueEnabled (params : TripParams) : bool :=
  match enableCommunityRescue params with
  | Some false => false
  | _ => true
  end.

Definition initialRescueDetails (params : TripParams) (why : string)
    : CommunityRescueDetails :=
  {| enabled := rescueEnabled params;
     triggered := false;
     cr_rescueFound := false;
     cr_donorVehicleId := None;
     cr_transferredEnergyKwh := 0;
     cr_emergencyRangeGainedKm := 0;
     cr_nearestChargerReachable := false;
     cr_nearestReachableChargerName := None;
     cr_reason := why |}.

Definition rescueDetailsOf (sim : RescueSimulationResult) : CommunityRescueDetails :=
  {| enabled := true;
     triggered := true;
     cr_rescueFound := rescueFound sim;
     cr_donorVehicleId := donorVehicleId sim;
     cr_transferredEnergyKwh := transferredEnergyKwh sim;
     cr_emergencyRangeGainedKm := emergencyRangeGainedKm sim;
     cr_nearestChargerReachable := nearestChargerReachable sim;
     cr_nearestReachableChargerName := nearestReachableChargerName sim;
     cr_reason := reason sim |}.

Definition noChargersFound (i : Z) (details : CommunityRescueDetails) : thrown :=
  TripPlannerError NO_CHARGERS_FOUND
    ("No charging station found near segment " +:+ pretty i +:+ ". "
     +:+ (if triggered details
          then "Community rescue status: " +:+ cr_reason details
          else "Try a different start/destination or higher battery level.")).

Definition batteryModelOf (params : TripParams) : BatteryModel :=
  {| consumptionPerKm := toFixed (1 / Math_max (evMaxRangeKm params) 1) 4;
     battery_note := "Default normalized consumption model (battery fraction per km)." |}.

(** The rescue attempt of one leg without a charger. *)
Definition simulateRescueAt (params : TripParams) (routePoint : Coordinate)
    : M RescueSimulationResult :=
  let fallbackVehicles :=
    communityVehicles params ?? createSimulatedCommunityVehicles routePoint in
  let matchedRescueVehicles :=
    findNearbyRescueVehicles
      {| match_receiverLocation := routePoint;
         receiverRouteDirection :=
           startLocation params +:+ "-" +:+ params_destination params;
         vehicles := fallbackVehicles;
         maxDistanceKm := Some 10;
         minimumDonorBatteryPercent := Some 40 |} in
  localStations <- fetchChargersNearPoint routePoint ;;
  ret (simulateReverseCharging
         {| receiverCurrentBatteryPercent := currentBatteryPercent params;
            receiverBatteryCapacityKwh := DEFAULT_RECEIVER_BATTERY_KWH;
            receiverLocation := routePoint;
            rescueCandidates := matchedRescueVehicles;
            chargingStations := localStations;
            donorBatteryCapacityKwh := Some 70;
            transferKwhRange := Some {| range_min := 5; range_max := 10 |};
            donorSafeBatteryFloorPercent := Some 25;
            receiverKmPerKwh := Some DEFAULT_EFFICIENCY_KM_PER_KWH;
            oneRescuePerTrip := Some true;
            alreadyRescuedOnTrip := Some false |}).

(** The segmentation loop from leg boundary [i] on, with [remaining]
    boundaries to go; [rescueDetails] is the value set before the loop. *)
Fixpoint planLegs (params : TripParams) (route : RouteInfo)
    (legRangeKm consumptionKwhPerKm : Q) (rescueDetails : CommunityRescueDetails)
    (remaining : nat) (i : Z)
    (stops : list PlannedChargingStop) (selectedIds : gset string)
    : M (list PlannedChargingStop * CommunityRescueDetails) :=
  match remaining with
  | O => ret (stops, rescueDetails)
  | S remaining' =>
    let distanceFromStartKm := legRangeKm * inject_Z i in
    let routePoint := pointAtDistanceAlongRoute (geometry route) distanceFromStartKm in
    let energyRequiredForLegKwh := toFixed (legRangeKm * consumptionKwhPerKm) 2 in
    chosen <- chooseBestStop routePoint (geometry route) distanceFromStartKm
                energyRequiredForLegKwh selectedIds ;;
    match chosen with
    | (Some stop, selectedIds') =>
      planLegs params route legRangeKm consumptionKwhPerKm rescueDetails
        remaining' (i + 1)%Z (stops ++ [stop]) selectedIds'
    | (None, _) =>
      let scenario :=
        detectOutOfChargeScenario
          {| batteryPercent := currentBatteryPercent params;
             criticalThresholdPercent := Some 5;
             nearbyStationsCount := 0;
             stationRadiusKm := CHARGER_SEARCH_RADIUS_KM |} in
      if shouldTriggerRescue scenario && rescueEnabled params
      then
        rescueSimulation <- simulateRescueAt params routePoint ;;
        if rescueFound rescueSimulation
        then ret (stops, rescueDetailsOf rescueSimulation)
        else throw (noChargersFound i (rescueDetailsOf rescueSimulation))
      else throw (noChargersFound i rescueDetails)
    end
  end.

Definition sumCosts (stops : list PlannedChargingStop) : Q :=
  foldl (fun sum stop => sum + estimatedChargingCostInr stop) 0 stops.

Definition isNonGridStop (stop : PlannedChargingStop) : bool :=
  negb (bool_decide (stop_energySource stop = Some grid)).

Definition planEvTripBody (params : TripParams) : M RoutePlanResult :=
  startPoint <- callWorld (geocodeCity (startLocation params)) ;;
  destinationPoint <- callWorld (geocodeCity (params_destination params)) ;;
  route <- callWorld (fetchRoute startPoint destinationPoint) ;;
  let usable :=
    calculateUsableRangeKm (evMaxRangeKm params) (currentBatteryPercent params) in
  let legRange := toFixed (usable * RANGE_BUFFER_FACTOR) 2 in
  let consumption := toFixed (1 / DEFAULT_EFFICIENCY_KM_PER_KWH) 3 in
  if route_distanceKm route <=? usable
  then
    ret {| start := startLocation params;
           destination := params_destination params;
           startCoordinate := startPoint;
           destinationCoordinate := destinationPoint;
           totalDistanceKm := route_distanceKm route;
           usableRangeKm := usable;
           planningLegRangeKm := legRange;
           requiresCharging := false;
           chargingStopsRequired := 0;
           chargingStops := [];
           message := "You can reach your destination without charging.";
           routeGeometry := geometry route;
           communityRescue :=
             Some (initialRescueDetails params
                     "Trip can be completed without rescue support.");
           estimatedCost :=
             {| estimatedTotal := 0;
                cost_note := "No charging stop required for this trip." |};
           batteryModel := batteryModelOf params;
           mapData := {| map_route := geometry route; map_stops := [] |};
           sustainability :=
             {| score := 100;
                co2SavingsKg := 0;
                sustainability_note := "No charging stop required for this route." |} |}
  else if legRange <=? 0
  then throw (TripPlannerError ROUTE_NOT_FOUND
                "Battery percentage is too low to generate a safe charging plan.")
  else
    let stopsNeeded := (Math_ceil (route_distanceKm route / legRange) - 1)%Z in
    planned <- planLegs params route legRange consumption
                 (initialRescueDetails params "Rescue mode not required.")
                 (Z.to_nat stopsNeeded) 1%Z [] ∅ ;;
    let (stops, rescueDetails) := planned in
    let solarStopCount := length (List.filter isNonGridStop stops) in
    let solarRatio :=
      if (0 <? length stops)%nat
      then inject_Z (Z.of_nat solarStopCount) / inject_Z (Z.of_nat (length stops))
      else 0 in
    ret {| start := startLocation params;
           destination := params_destination params;
           startCoordinate := startPoint;
           destinationCoordinate := destinationPoint;
           totalDistanceKm := route_distanceKm route;
           usableRangeKm := usable;
           planningLegRangeKm := legRange;
           requiresCharging := true;
           chargingStopsRequired := length stops;
           chargingStops := stops;
           message := "Charging stops planned successfully.";
           routeGeometry := geometry route;
           communityRescue := Some rescueDetails;
           estimatedCost :=
             {| estimatedTotal := toFixed (sumCosts stops) 2;
                cost_note := "Estimated using base tariff Rs.12/kWh with solar/hybrid discounts when available." |};
           batteryModel := batteryModelOf params;
           mapData :=
             {| map_route := geometry route;
                map_stops := map (fun stop => {| lat := stop_latitude stop;
                                                  lng := stop_longitude stop |}) stops |};
           sustainability :=
             {| score := toFixed (Math_min 100 (50 + solarRatio * 50)) 1;
                co2SavingsKg := toFixed (inject_Z (Z.of_nat solarStopCount) * (14 # 10)) 2;
                sustainability_note := "Estimated from number of solar/hybrid charging stops (illustrative metric)." |} |}.

(** The [catch] of [planEvTrip]: a [TripPlannerError] passes, another
    [Error] becomes a network error, anything else is unknown. *)
Definition wrapThrown (e : thrown) : thrown :=
  match e with
  | TripPlannerError code msg => TripPlannerError code msg
  | OtherError msg => TripPlannerError NETWORK_ERROR msg
  | NotAnError =>
    TripPlannerError UNKNOWN "Trip planning failed due to an unknown error."
  end.

Definition planEvTrip (params : TripParams) : M RoutePlanResult :=
  fun s =>
    match planEvTripBody params s with
    | (s', Returned r) => (s', Returned r)
    | (s', Thrown e) => (s', Thrown (wrapThrown e))
    end.
End Planner.

(** ** Station directory client *)

Definition DEFAULT_DISTANCE_KM : Q := 8.
Definition MAX_DISTANCE_KM : Q := 500.
Definition DEFAULT_MAX_RESULTS : Q := 40.

(** The records of the directory's answer.  The four [Title] fields carry
    the name of their record. *)
Record OcmApiCountry : Type := mkApiCountry { country_Title : option string }.

Record OcmApiAddressInfo : Type := mkApiAddressInfo {
  address_Title : option string;
  Latitude : option Q;
  Longitude : option Q;
  Distance : option Q;
  AddressLine1 : option string;
  Town : option string;
  StateOrProvince : option string;
  Postcode : option string;
  Country : option OcmApiCountry
}.

Record OcmApiConnectionType : Type := mkApiConnectionType {
  connectionType_Title : option string
}.

Record OcmApiConnection : Type := mkApiConnection {
  PowerKW : option Q;
  ConnectionType : option OcmApiConnectionType
}.

Record OcmApiOperatorInfo : Type := mkApiOperatorInfo {
  operator_Title : option string
}.

(** [ID] is a number; the directory numbers its records with integers. *)
Record OcmApiPoi : Type := mkApiPoi {
  ID : option Z;
  AddressInfo : option OcmApiAddressInfo;
  Connections : option (list OcmApiConnection);
  OperatorInfo : option OcmApiOperatorInfo;
  GeneralComments : option string
}.

Definition OCM_SOLAR_KEYWORDS : list string :=
  ["solar"; "renewable"; "green"; "clean energy"; "sun"].

Definition OCM_HYBRID_KEYWORDS : list string :=
  ["hybrid"; "mixed energy"; "solar+grid"; "solar + grid"].

Definition MANUAL_ENERGY_TAGS : gmap string EnergySource := ∅.

(** [o?.f]. *)
Definition optChain {A B : Type} (o : option A) (f : A -> option B) : option B :=
  match o with Some a => f a | None => None end.

Definition inferEnergySource (poi : OcmApiPoi) : EnergySource :=
  match optChain (ID poi) (fun i => MANUAL_ENERGY_TAGS !! pretty i) with
  | Some tag => tag
  | None =>
    let metadataText :=
      toLowerCase
        ((optChain (AddressInfo poi) address_Title ?? "") +:+ " "
         +:+ (optChain (OperatorInfo poi) operator_Title ?? "") +:+ " "
         +:+ (GeneralComments poi ?? "")) in
    if existsb (fun keyword => includes metadataText keyword) OCM_HYBRID_KEYWORDS
    then hybrid
    else if existsb (fun keyword => includes metadataText keyword) OCM_SOLAR_KEYWORDS
    then solar
    else grid
  end.

(** [Math.floor(x)]. *)
Definition Math_floor (x : Q) : Q := inject_Z (Qfloor x).

Definition clampDistanceKm (distance : option jsnumber) : Q :=
  match distance with
  | Some (Finite d) => Math_min (Math_max 1 (Math_floor d)) MAX_DISTANCE_KM
  | _ => DEFAULT_DISTANCE_KM
  end.

Definition clampMaxResults (maxResults : option jsnumber) : Q :=
  match maxResults with
  | Some (Finite m) => Math_min (Math_max 1 (Math_floor m)) 100
  | _ => DEFAULT_MAX_RESULTS
  end.

(** [l.join(sep)]. *)
Fixpoint joinWith (sep : string) (l : list string) : string :=
  match l with
  | [] => ""
  | [s] => s
  | s :: l' => s +:+ sep +:+ joinWith sep l'
  end.

(** [l.filter(Boolean)] on optional strings: the ones present and not
    empty. *)
Definition presentStrings (l : list (option string)) : list string :=
  omap (fun o => match o with
                 | Some s => if isEmpty s then None else Some s
                 | None => None
                 end) l.

Definition buildAddress (info : OcmApiAddressInfo) : string :=
  let fields :=
    presentStrings
      [ AddressLine1 info; Town info; StateOrProvince info; Postcode info;
        optChain (Country info) country_Title ] in
  match fields with
  | [] => "Address unavailable"
  | _ => joinWith ", " fields
  end.

(** [s?.trim() || d]. *)
Definition trimmedOr (s : option string) (d : string) : string :=
  match s with
  | Some t => if isEmpty (trim t) then d else trim t
  | None => d
  end.

Definition toConnection (connection : OcmApiConnection) : OcmConnection :=
  {| conn_type :=
       optChain (ConnectionType connection) connectionType_Title
       ?? "Unknown connector";
     conn_powerKw := PowerKW connection ?? 0 |}.

Definition maxPowerOf (connections : list OcmConnection) : Q :=
  foldl (fun max c => Math_max max (conn_powerKw c)) 0 connections.

Definition normalizeStation (poi : OcmApiPoi) : option OcmStation :=
  match AddressInfo poi with
  | None => None
  | Some info =>
    match Latitude info, Longitude info, ID poi with
    | Some latitude', Some longitude', Some id' =>
      let connections' := map toConnection (Connections poi ?? []) in
      let source := inferEnergySource poi in
      Some {| id := pretty id';
              name := trimmedOr (address_Title info) "Unnamed Charging Station";
              latitude := latitude';
              longitude := longitude';
              distanceKm := toFixed (Distance info ?? 0) 2;
              address := buildAddress info;
              connections := connections';
              maxPowerKw := maxPowerOf connections';
              isSolarPowered := negb (bool_decide (source = grid));
              energySource := Some source;
              operatorName :=
                match optChain (OperatorInfo poi) operator_Title with
                | Some t => if isEmpty (trim t) then None else Some (trim t)
                | None => None
                end |}
    | _, _, _ => None
    end
  end.

(** The end of [fetchNearbyChargingStations]: normalize, drop what could
    not be normalized, sort by distance. *)
Definition normalizeStations (data : list OcmApiPoi) : list OcmStation :=
  Array_sort (fun a b => distanceKm a - distanceKm b) (omap normalizeStation data).

(** ** The network *)

(** What [fetch] resolves to: the status line, and what [response.json()]
    gives (it throws on a body that is not JSON). *)
Record HttpResponse (Body : Type) : Type := mkResponse {
  resp_ok : bool;
  resp_status : Z;
  resp_statusText : string;
  resp_json : outcome Body
}.
Arguments mkResponse {Body} _ _ _ _.
Arguments resp_ok {Body} _.
Arguments resp_status {Body} _.
Arguments resp_statusText {Body} _.
Arguments resp_json {Body} _.

(** [fetch] rejects with what was thrown, or resolves to a response. *)
Inductive fetched (Body : Type) : Type :=
  | FetchRejected (e : thrown)
  | FetchResolved (r : HttpResponse Body).
Arguments FetchRejected {Body} e.
Arguments FetchResolved {Body} r.

(** [e instanceof Error ? e.message : d]. *)
Definition messageOr (e : thrown) (d : string) : string :=
  match e with
  | TripPlannerError _ msg => msg
  | OtherError msg => msg
  | NotAnError => d
  end.

(** The body of a directory answer: an array, whose items are read as
    records the way the source's cast reads them, or other JSON. *)
Inductive OcmBody : Type :=
  | PoiArray (data : list OcmApiPoi)
  | NotAnArray.

(** The body of a geocoding answer. *)
Record OrsGeometry (C : Type) : Type := mkGeometry { coordinates : option C }.
Arguments mkGeometry {C} _.
Arguments coordinates {C} _.

Record OrsGeocodeFeature : Type := mkGeocodeFeature {
  geocode_geometry : option (OrsGeometry (list Q))
}.

Record OrsGeocodeResponse : Type := mkGeocodeResponse {
  geocode_features : option (list OrsGeocodeFeature)
}.

(** The body of a directions answer. *)
Record OrsSegment : Type := mkSegment { segment_distance : option Q }.

Record OrsSummary : Type := mkSummary { summary_distance : option Q }.

Record OrsProperties : Type := mkProperties {
  summary : option OrsSummary;
  segments : option (list OrsSegment)
}.

Record OrsDirectionsFeature : Type := mkDirectionsFeature {
  directions_geometry : option (OrsGeometry (list (Q * Q)));
  properties : option OrsProperties
}.

Record OrsDirectionsResponse : Type := mkDirectionsResponse {
  directions_features : option (list OrsDirectionsFeature)
}.

(** [toCoordinate]: the router's pairs are [longitude, latitude]. *)
Definition toCoordinate (value : Q * Q) : Coordinate :=
  {| lat := snd value; lng := fst value |}.

(** The double quote. *)
Definition quoteMark : string := String "034"%char EmptyString.

Section Clients.
(** The clients proper carry the suffix [Impl] (the directory request on
    the bare network, [On]): the planner takes its three clients as
    parameters under the plain names.

    The network below the three clients, the key of the routing provider,
    and the three requests: the directory (with or without the
    [User-Agent] header), the geocoder, and the router (with the key and
    the two [longitude, latitude] pairs of the request body). *)
Context {Net : Type}.
Context (ORS_API_KEY : option string).
Context (getStations :
           Q -> Q -> Q -> Q -> bool -> Net -> Net * fetched OcmBody).
Context (getGeocode :
           string -> string -> Net -> Net * fetched OrsGeocodeResponse).
Context (postDirections :
           string -> Q * Q -> Q * Q -> Net -> Net * fetched OrsDirectionsResponse).

(** The state of the clients: the network and the two memo tables of the
    routing client. *)
Record ClientState : Type := mkClientState {
  net : Net;
  geocodeCache : gmap string Coordinate;
  routeCache : gmap string RouteInfo
}.

Definition withNet (s : ClientState) (n : Net) : ClientState :=
  {| net := n; geocodeCache := geocodeCache s; routeCache := routeCache s |}.

(** [new OpenChargeMapError(message)]: an [Error] of another class. *)
Definition OpenChargeMapError (message : string) : thrown := OtherError message.

(** From the response on. *)
Definition readStations (response : HttpResponse OcmBody) : outcome (list OcmStation) :=
  if negb (resp_ok response)
  then Thrown (OpenChargeMapError
                 ("Open Charge Map request failed: "
                  +:+ pretty (resp_status response) +:+ " "
                  +:+ resp_statusText response))
  else
    match resp_json response with
    | Thrown _ => Thrown (OpenChargeMapError "Open Charge Map returned invalid JSON")
    | Returned NotAnArray =>
      Thrown (OpenChargeMapError "Open Charge Map returned unexpected response format")
    | Returned (PoiArray data) => Returned (normalizeStations data)
    end.

Definition fetchNearbyChargingStationsOn (params : NearbyStationsParams) (n : Net)
    : Net * outcome (list OcmStation) :=
  let request :=
    getStations (nearby_latitude params) (nearby_longitude params)
      (clampDistanceKm (option_map Finite (nearby_distanceKm params)))
      (clampMaxResults (option_map Finite (maxResults params))) in
  match request true n with
  | (n1, FetchResolved response) => (n1, readStations response)
  | (n1, FetchRejected _) =>
    match request false n1 with
    | (n2, FetchResolved response) => (n2, readStations response)
    | (n2, FetchRejected fallbackError) =>
      (n2, Thrown (OpenChargeMapError
                     ("Open Charge Map request failed: "
                      +:+ messageOr fallbackError "Network error")))
    end
  end.

Definition fetchNearbyChargingStationsImpl (params : NearbyStationsParams)
    (s : ClientState) : ClientState * outcome (list OcmStation) :=
  let (n', r) := fetchNearbyChargingStationsOn params (net s) in (withNet s n', r).

Definition missingKey : thrown :=
  TripPlannerError MISSING_ORS_KEY
    "OpenRouteService API key is missing. Add VITE_ORS_KEY to your environment.".

(** [!ORS_API_KEY]: the key that is there and not empty. *)
Definition usableKey : option string :=
  match ORS_API_KEY with
  | Some key => if isEmpty key then None else Some key
  | None => None
  end.

(** [payload.features?.[0]?.geometry?.coordinates]. *)
Definition firstCoordinates (payload : OrsGeocodeResponse) : option (list Q) :=
  optChain (optChain (optChain (geocode_features payload) head) geocode_geometry)
           coordinates.

Definition geocodeCityImpl (cityName : string) (s : ClientState)
    : ClientState * outcome Coordinate :=
  let normalized := toLowerCase (trim cityName) in
  if isEmpty normalized
  then (s, Thrown (TripPlannerError INVALID_LOCATION
                     "Please enter both start and destination locations."))
  else
    match geocodeCache s !! normalized with
    | Some cached => (s, Returned cached)
    | None =>
      match usableKey with
      | None => (s, Thrown missingKey)
      | Some key =>
        match getGeocode key (trim cityName) (net s) with
        | (n', FetchRejected e) => (withNet s n', Thrown e)
        | (n', FetchResolved response) =>
          if negb (resp_ok response)
          then (withNet s n',
                Thrown (TripPlannerError NETWORK_ERROR
                          ("Routing provider request failed ("
                           +:+ pretty (resp_status response) +:+ " "
                           +:+ resp_statusText response +:+ ").")))
          else
            match resp_json response with
            | Thrown e => (withNet s n', Thrown e)
            | Returned payload =>
              match firstCoordinates payload with
              | Some (longitude' :: latitude' :: _) =>
                let result := toCoordinate (longitude', latitude') in
                ({| net := n';
                    geocodeCache := <[normalized := result]> (geocodeCache s);
                    routeCache := routeCache s |},
                 Returned result)
              | _ =>
                (withNet s n',
                 Thrown (TripPlannerError INVALID_LOCATION
                           ("Could not find coordinates for " +:+ quoteMark
                            +:+ cityName +:+ quoteMark
                            +:+ ". Try a more specific city name.")))
              end
            end
        end
      end
    end.

Definition invalidRoute : thrown :=
  TripPlannerError ROUTE_NOT_FOUND
    "OpenRouteService returned an invalid route payload.".

(** [getRouteDistance] from the JSON on. *)
Definition readRoute (data : OrsDirectionsResponse) : outcome RouteInfo :=
  let feature := optChain (directions_features data) head in
  let rawGeometry := optChain (optChain feature directions_geometry) coordinates in
  let distanceMeters :=
    optChain (optChain (optChain (optChain feature properties) segments) head)
             segment_distance in
  match rawGeometry, distanceMeters with
  | Some raw, Some meters =>
    if (length raw <? 2)%nat || (meters =? 0)
    then Thrown invalidRoute
    else Returned {| route_distanceKm := toFixed (meters / 1000) 2;
                     geometry := map toCoordinate raw |}
  | _, _ => Thrown invalidRoute
  end.

(** [start] and [end] are [latitude, longitude] pairs.  Reading the text
    of an answer that is not ok, for the console, is taken to succeed. *)
Definition getRouteDistance (startPair endPair : Q * Q) (n : Net)
    : Net * outcome RouteInfo :=
  match usableKey with
  | None => (n, Thrown missingKey)
  | Some key =>
    match postDirections key (snd startPair, fst startPair)
            (snd endPair, fst endPair) n with
    | (n', FetchRejected e) => (n', Thrown e)
    | (n', FetchResolved response) =>
      if negb (resp_ok response)
      then (n', Thrown (TripPlannerError NETWORK_ERROR
                          ("OpenRouteService directions failed ("
                           +:+ pretty (resp_status response) +:+ " "
                           +:+ resp_statusText response +:+ ").")))
      else
        match resp_json response with
        | Thrown e => (n', Thrown e)
        | Returned data => (n', readRoute data)
        end
    end
  end.

Definition routeCacheKey (startPoint destinationPoint : Coordinate) : string :=
  toFixedString (lat startPoint) 5 +:+ "," +:+ toFixedString (lng startPoint) 5
  +:+ "->" +:+ toFixedString (lat destinationPoint) 5 +:+ ","
  +:+ toFixedString (lng destinationPoint) 5.

Definition fetchRouteImpl (startPoint destinationPoint : Coordinate)
    (s : ClientState) : ClientState * outcome RouteInfo :=
  let cacheKey := routeCacheKey startPoint destinationPoint in
  match routeCache s !! cacheKey with
  | Some cached => (s, Returned cached)
  | None =>
    match usableKey with
    | None => (s, Thrown missingKey)
    | Some _ =>
      match getRouteDistance (lat startPoint, lng startPoint)
              (lat destinationPoint, lng destinationPoint) (net s) with
      | (n', Returned result) =>
        ({| net := n';
            geocodeCache := geocodeCache s;
            routeCache := <[cacheKey := result]> (routeCache s) |},
         Returned result)
      | (n', Thrown e) => (withNet s n', Thrown e)
      end
    end
  end.

(** [planEvTrip] over the three clients. *)
Definition planEvTripOnline `{JSMath} (params : TripParams)
    : @M ClientState RoutePlanResult :=
  planEvTrip geocodeCityImpl fetchRouteImpl fetchNearbyChargingStationsImpl params.
End Clients.

(** ** Vocabulary of the statements *)

(** [q] has at most [d] decimals. *)
Definition isDecimal (d : nat) (q : Q) : Prop :=
  exists n : Z, q == inject_Z n / pow10 d.

(** The station [s] with another energy source, all else the same. *)
Definition withEnergySource (e : option EnergySource) (s : OcmStation) : OcmStation :=
  {| id := id s;
     name := name s;
     latitude := latitude s;
     longitude := longitude s;
     distanceKm := distanceKm s;
     address := address s;
     connections := connections s;
     maxPowerKw := maxPowerKw s;
     isSolarPowered := isSolarPowered s;
     energySource := e;
     operatorName := operatorName s |}.

(** Cost options that set the base tariff and leave the discounts at their
    defaults. *)
Definition baseTariff (base : Q) : option CostOptions :=
  Some {| basePricePerKwh := Some base;
          solarDiscountPercent := None;
          hybridDiscountPercent := None |}.

(** The tokens of a direction as a finite set. *)
Definition tokenSet (s : string) : gset string := list_to_set (tokens s).

(** A direction as the score reads it: trimmed, in lower case. *)
Definition normalizedRoute (s : string) : string := toLowerCase (trim s).

(** The order of the rescue ranking seen from [receiver]: [v] is nearer
    than [w], or as near and at least as charged. *)
Definition rankedBefore `{JSMath} (receiver : Coordinate)
    (v w : CommunityRescueVehicle) : Prop :=
  haversineKm receiver (currentLocation v) < haversineKm receiver (currentLocation w)
  \/ (haversineKm receiver (currentLocation v)
      == haversineKm receiver (currentLocation w)
      /\ availableBatteryPercent w <= availableBatteryPercent v).

(** The four conditions a donor has to meet. *)
Definition qualifies `{JSMath} (input : RescueMatchInput)
    (v : CommunityRescueVehicle) : bool :=
  supportsReverseCharging v
  && (minimumDonorBatteryPercent input ?? 40 <=? availableBatteryPercent v)
  && (haversineKm (match_receiverLocation input) (currentLocation v)
      <=? maxDistanceKm input ?? 8)
  && ((35 # 100)
      <=? routeSimilarityScore (receiverRouteDirection input) (routeDirection v)).

(** Two coordinates denote the same pair of numbers. *)
Definition sameCoordinate (a b : Coordinate) : Prop :=
  lat a == lat b /\ lng a == lng b.







(** A station as [detectSolarStations] leaves it: the energy source is
    set and [isSolarPowered] tells whether it is solar or hybrid. *)
Definition stationDetected (s : OcmStation) : Prop :=
  exists source, energySource s = Some source
                 /\ isSolarPowered s = isSolarSource source.

(** Every memoised list of chargers went through [detectSolarStations]. *)
Definition cacheDetected {W : Type} (s : @PlannerState W) : Prop :=
  forall key stations,
    chargerCache s !! key = Some stations -> Forall stationDetected stations.

(** A step of the planner keeps the memo table as [cacheDetected] wants
    it. *)
Definition preservesCache {W A : Type} (m : @M W A) : Prop :=
  forall s, cacheDetected s -> cacheDetected (fst (m s)).

(** The string is made of token characters only. *)
Fixpoint allTokenChars (s : string) : bool :=
  match s with
  | EmptyString => true
  | String c s' => isTokenChar c && allTokenChars s'
  end.

(** ** Sample data

    Concrete inputs on which the definitions are run.  [flatMath] is a
    rational stand-in for the runtime's functions: with it [haversineKm] is
    12742 times the squared half difference of the coordinates. *)

Module Sample.

Definition flatMath : JSMath :=
  {| Math_PI := 180;
     Math_sin := fun x => x;
     Math_cos := fun _ => 1;
     Math_sqrt := Qabs;
     Math_atan2 := fun y _ => y;
     Math_sqrt_nonneg := Qabs_nonneg;
     Math_atan2_nonneg := fun y _ Hy _ => Hy |}.

Definition here : Coordinate := {| lat := 13; lng := 80 |}.

Definition donorAt (percent : Q) : CommunityRescueVehicle :=
  {| vehicleId := "EV-1";
     currentLocation := here;
     routeDirection := "chennai-bangalore";
     availableBatteryPercent := percent;
     supportsReverseCharging := true |}.

(** A rescue request with one donor and no charging station in reach. *)
Definition rescueInput (donorPercent : Q) (capacity : option Q)
    (window : option TransferRange) (floorPercent : option Q)
    (receiverPercent receiverCapacity : Q) : RescueSimulationInput :=
  {| receiverCurrentBatteryPercent := receiverPercent;
     receiverBatteryCapacityKwh := receiverCapacity;
     receiverLocation := here;
     rescueCandidates := [donorAt donorPercent];
     chargingStations := [];
     donorBatteryCapacityKwh := capacity;
     transferKwhRange := window;
     donorSafeBatteryFloorPercent := floorPercent;
     receiverKmPerKwh := None;
     oneRescuePerTrip := None;
     alreadyRescuedOnTrip := None |}.

Definition stationOf (sid : string) (latitude' longitude' maxPower : Q)
    (source : EnergySource) : OcmStation :=
  {| id := sid;
     name := "Station " +:+ sid;
     latitude := latitude';
     longitude := longitude';
     distanceKm := 1;
     address := "Address unavailable";
     connections := [{| conn_type := "CCS"; conn_powerKw := maxPower |}];
     maxPowerKw := maxPower;
     isSolarPowered := isSolarSource source;
     energySource := Some source;
     operatorName := None |}.

(** A route of two points, 5 degrees of longitude apart, which the router
    reports to be [distance] kilometres long. *)
Definition sampleRoute (distance : Q) : RouteInfo :=
  {| route_distanceKm := distance;
     geometry := [ {| lat := 13; lng := 75 |}; {| lat := 13; lng := 80 |} ] |}.

Definition sampleStations : list OcmStation :=
  [ stationOf "101" 13 76 60 grid;
    stationOf "102" 13 77 120 solar;
    stationOf "103" 13 78 22 hybrid ].

(** A world without state: every place resolves, the router answers with a
    route of the given length, and the directory always lists
    [sampleStations]. *)
Definition geocodeCity (place : string) (w : unit) : unit * outcome Coordinate :=
  (w, Returned here).

Definition fetchRoute (distance : Q) (a b : Coordinate) (w : unit)
    : unit * outcome RouteInfo :=
  (w, Returned (sampleRoute distance)).

Definition fetchNearbyChargingStations (p : NearbyStationsParams) (w : unit)
    : unit * outcome (list OcmStation) :=
  (w, Returned sampleStations).

Definition initialState : @PlannerState unit :=
  {| world := tt; chargerCache := ∅ |}.

Definition trip (maxRange battery : Q) : TripParams :=
  {| startLocation := "Chennai";
     params_destination := "Bangalore";
     evMaxRangeKm := maxRange;
     currentBatteryPercent := battery;
     enableCommunityRescue := None;
     communityVehicles := None |}.

Definition plan (distance maxRange battery : Q) :=
  @planEvTrip flatMath unit geocodeCity (fetchRoute distance)
    fetchNearbyChargingStations (trip maxRange battery) initialState.

End Sample.

(** ** Vocabulary of the further properties *)

(** A string that does not begin with white space. *)
Definition startsClean (s : string) : Prop :=
  match s with
  | EmptyString => True
  | String c _ => isWhiteSpace c = false
  end.

(** The distance from the receiver of a rescue to a charging station. *)
Definition stationDistanceKm `{JSMath} (input : RescueSimulationInput)
    (station : OcmStation) : Q :=
  haversineKm (receiverLocation input)
    {| lat := latitude station; lng := longitude station |}.


(** The vehicles that [planEvTrip] matches for a rescue at [routePoint],
    and the rescue it then simulates with the chargers found there. *)
Definition matchedRescueVehicles `{JSMath} (params : TripParams)
    (routePoint : Coordinate) : list CommunityRescueVehicle :=
  findNearbyRescueVehicles
    {| match_receiverLocation := routePoint;
       receiverRouteDirection :=
         startLocation params +:+ "-" +:+ params_destination params;
       vehicles := communityVehicles params ?? createSimulatedCommunityVehicles routePoint;
       maxDistanceKm := Some 10;
       minimumDonorBatteryPercent := Some 40 |}.

Definition plannerRescueInput `{JSMath} (params : TripParams)
    (routePoint : Coordinate) (localStations : list OcmStation)
    : RescueSimulationInput :=
  {| receiverCurrentBatteryPercent := currentBatteryPercent params;
     receiverBatteryCapacityKwh := DEFAULT_RECEIVER_BATTERY_KWH;
     receiverLocation := routePoint;
     rescueCandidates := matchedRescueVehicles params routePoint;
     chargingStations := localStations;
     donorBatteryCapacityKwh := Some 70;
     transferKwhRange := Some {| range_min := 5; range_max := 10 |};
     donorSafeBatteryFloorPercent := Some 25;
     receiverKmPerKwh := Some DEFAULT_EFFICIENCY_KM_PER_KWH;
     oneRescuePerTrip := Some true;
     alreadyRescuedOnTrip := Some false |}.

(** The number of stops that [planEvTrip] sets out to plan. *)
Definition stopsNeededFor (distance legRange : Q) : nat :=
  Z.to_nat (Math_ceil (distance / legRange) - 1).



(** The text of a directory record in which [inferEnergySource] looks
    for its keywords. *)
Definition metadataText (poi : OcmApiPoi) : string :=
  toLowerCase
    ((optChain (AddressInfo poi) address_Title ?? "") +:+ " "
     +:+ (optChain (OperatorInfo poi) operator_Title ?? "") +:+ " "
     +:+ (GeneralComments poi ?? "")).


(** The memo tables of the routing client are the same in two states of
    the clients. *)
Definition sameMemos {Net : Type} (c c' : @ClientState Net) : Prop :=
  geocodeCache c' = geocodeCache c /\ routeCache c' = routeCache c.

(** ** Further sample data *)

Module Cases.

(** Two charging stations close to [Sample.here]: with [Sample.flatMath]
    they are 7.96 km and 127.42 km away. *)
Definition nearStations : list OcmStation :=
  [ Sample.stationOf "202" 13 (801 # 10) 60 solar;
    Sample.stationOf "201" 13 (8005 # 100) 60 grid ].

(** The rescue request of [Sample.rescueInput] with these stations. *)
Definition rescueNearCharger : RescueSimulationInput :=
  {| receiverCurrentBatteryPercent := 4;
     receiverBatteryCapacityKwh := 60;
     receiverLocation := Sample.here;
     rescueCandidates := [Sample.donorAt 90];
     chargingStations := nearStations;
     donorBatteryCapacityKwh := None;
     transferKwhRange := None;
     donorSafeBatteryFloorPercent := None;
     receiverKmPerKwh := None;
     oneRescuePerTrip := None;
     alreadyRescuedOnTrip := None |}.

(** A directory that lists no station anywhere. *)
Definition emptyDirectory (p : NearbyStationsParams) (w : unit)
    : unit * outcome (list OcmStation) :=
  (w, Returned []).

(** The trip of [Sample.trip] with a community vehicle waiting at the
    start of the route. *)
Definition rescueTrip (battery : Q) : TripParams :=
  {| startLocation := "Chennai";
     params_destination := "Bangalore";
     evMaxRangeKm := 300;
     currentBatteryPercent := battery;
     enableCommunityRescue := None;
     communityVehicles :=
       Some [ {| vehicleId := "EV-2";
                 currentLocation := {| lat := 13; lng := 75 |};
                 routeDirection := "chennai-bangalore";
                 availableBatteryPercent := 90;
                 supportsReverseCharging := true |} ] |}.

(** Planning 500 km with no station listed. *)
Definition strandedPlan (battery : Q) :=
  @planEvTrip Sample.flatMath unit Sample.geocodeCity (Sample.fetchRoute 500)
    emptyDirectory (rescueTrip battery) Sample.initialState.

(** A network that counts the requests made.  The geocoder resolves
    every place to [Sample.here], the router answers with a route of two
    points that is 500 km long, and the directory is out of service. *)
Definition okResponse {Body : Type} (body : Body) : HttpResponse Body :=
  {| resp_ok := true; resp_status := 200; resp_statusText := "OK";
     resp_json := Returned body |}.

Definition getGeocode (key text : string) (n : nat)
    : nat * fetched OrsGeocodeResponse :=
  (S n,
   FetchResolved
     (okResponse
        {| geocode_features :=
             Some [ {| geocode_geometry :=
                         Some {| coordinates := Some [80; 13] |} |} ] |})).

Definition postDirections (key : string) (a b : Q * Q) (n : nat)
    : nat * fetched OrsDirectionsResponse :=
  (S n,
   FetchResolved
     (okResponse
        {| directions_features :=
             Some [ {| directions_geometry :=
                         Some {| coordinates := Some [(75, 13); (80, 13)] |};
                       properties :=
                         Some {| summary := None;
                                 segments :=
                                   Some [ {| segment_distance := Some 500000 |} ] |}
                    |} ] |})).

Definition getStations (latitude' longitude' radius limit : Q) (userAgent : bool)
    (n : nat) : nat * fetched OcmBody :=
  (S n,
   FetchResolved
     {| resp_ok := false; resp_status := 503;
        resp_statusText := "Service Unavailable";
        resp_json := Thrown NotAnError |}).

(** Two records of the directory, and a directory that lists them
    everywhere. *)
Definition plazaRecord : OcmApiPoi :=
  {| ID := Some 101%Z;
     AddressInfo :=
       Some {| address_Title := Some "Highway Plaza";
               Latitude := Some 13; Longitude := Some 76;
               Distance := Some (12 # 10);
               AddressLine1 := Some "NH 48"; Town := None;
               StateOrProvince := None; Postcode := None;
               Country := Some {| country_Title := Some "India" |} |};
     Connections :=
       Some [ {| PowerKW := Some 60;
                 ConnectionType := Some {| connectionType_Title := Some "CCS" |} |} ];
     OperatorInfo := None;
     GeneralComments := None |}.

Definition solarRecord : OcmApiPoi :=
  {| ID := Some 102%Z;
     AddressInfo :=
       Some {| address_Title := Some "Solar Park";
               Latitude := Some 13; Longitude := Some 77;
               Distance := Some (1 # 2);
               AddressLine1 := None; Town := Some "Vellore";
               StateOrProvince := None; Postcode := None;
               Country := None |};
     Connections :=
       Some [ {| PowerKW := Some 120; ConnectionType := None |} ];
     OperatorInfo := None;
     GeneralComments := None |}.

Definition listStations (latitude' longitude' radius limit : Q) (userAgent : bool)
    (n : nat) : nat * fetched OcmBody :=
  (S n, FetchResolved (okResponse (PoiArray [plazaRecord; solarRecord]))).


Definition offline : @PlannerState (@ClientState nat) :=
  {| world := {| net := 0%nat; geocodeCache := ∅; routeCache := ∅ |};
     chargerCache := ∅ |}.


(** The same with the directory in service, from any state. *)
Definition servedPlan (params : TripParams) (s : @PlannerState (@ClientState nat)) :=
  @planEvTripOnline nat (Some "key") listStations getGeocode postDirections
    Sample.flatMath params s.

End Cases.

(** * Properties *)

(** ** Numbers *)

Lemma Qleb_true (x y : Q) : (x <=? y) = true <-> x <= y.
Proof. unfold Qleb. apply Qle_bool_iff. Qed.

Lemma Qleb_false (x y : Q) : (x <=? y) = false <-> y < x.
Proof.
  rewrite <- not_true_iff_false, Qleb_true. split; intros Hxy.
  - apply Qnot_le_lt, Hxy.
  - apply Qlt_not_le, Hxy.
Qed.

Lemma Qltb_true (x y : Q) : (x <? y) = true <-> x < y.
Proof. unfold Qltb. rewrite negb_true_iff. apply (Qleb_false y x). Qed.

Lemma Qltb_false (x y : Q) : (x <? y) = false <-> y <= x.
Proof. unfold Qltb. rewrite negb_false_iff. apply (Qleb_true y x). Qed.

Lemma Qeqb_true (x y : Q) : (x =? y) = true <-> x == y.
Proof. unfold Qeqb. apply Qeq_bool_iff. Qed.

Lemma Qeqb_false (x y : Q) : (x =? y) = false <-> ~ x == y.
Proof. rewrite <- not_true_iff_false, Qeqb_true. tauto. Qed.

(** Case analysis on the comparisons of the source. *)
Ltac cases_Q :=
  repeat match goal with
  | |- context [?x <=? ?y] =>
    let E := fresh "E" in
    destruct (x <=? y) eqn:E;
    [apply Qleb_true in E | apply Qleb_false in E]
  | |- context [?x <? ?y] =>
    let E := fresh "E" in
    destruct (x <? y) eqn:E;
    [apply Qltb_true in E | apply Qltb_false in E]
  | |- context [?x =? ?y] =>
    let E := fresh "E" in
    destruct (x =? y) eqn:E;
    [apply Qeqb_true in E | apply Qeqb_false in E]
  end.

Lemma Math_max_l (a b : Q) : a <= Math_max a b.
Proof. unfold Math_max. cases_Q; lra. Qed.

Lemma Math_max_r (a b : Q) : b <= Math_max a b.
Proof. unfold Math_max. cases_Q; lra. Qed.

Lemma Math_min_l (a b : Q) : Math_min a b <= a.
Proof. unfold Math_min. cases_Q; lra. Qed.

Lemma Math_min_r (a b : Q) : Math_min a b <= b.
Proof. unfold Math_min. cases_Q; lra. Qed.

Lemma Math_max_cases (a b : Q) :
  (a <= b /\ Math_max a b = b) \/ (b < a /\ Math_max a b = a).
Proof. unfold Math_max. cases_Q; auto. Qed.

Lemma Math_min_cases (a b : Q) :
  (a <= b /\ Math_min a b = a) \/ (b < a /\ Math_min a b = b).
Proof. unfold Math_min. cases_Q; auto. Qed.

Lemma pow10_pos (d : nat) : 0 < pow10 d.
Proof.
  unfold pow10. change 0 with (inject_Z 0). rewrite <- Zlt_Qlt.
  apply Z.pow_pos_nonneg; lia.
Qed.

Lemma roundHalfUp_mono (x y : Q) : x <= y -> (roundHalfUp x <= roundHalfUp y)%Z.
Proof. intros Hxy. unfold roundHalfUp. apply Qfloor_resp_le. lra. Qed.

Lemma roundHalfUp_nonneg (x : Q) : 0 <= x -> (0 <= roundHalfUp x)%Z.
Proof.
  intros Hx. change 0%Z with (Qfloor 0). unfold roundHalfUp.
  apply Qfloor_resp_le. lra.
Qed.

Lemma roundHalfUp_Z (n : Z) : roundHalfUp (inject_Z n) = n.
Proof.
  unfold roundHalfUp.
  assert (Hlo : (n <= Qfloor (inject_Z n + (1 # 2)))%Z).
  { rewrite <- (Qfloor_Z n) at 1. apply Qfloor_resp_le. lra. }
  assert (Hhi : (Qfloor (inject_Z n + (1 # 2)) < n + 1)%Z).
  { rewrite Zlt_Qlt. eapply Qle_lt_trans; [apply Qfloor_le|].
    rewrite inject_Z_plus. change (inject_Z 1) with 1. lra. }
  lia.
Qed.

Lemma roundHalfUp_lower (x : Q) : x - (1 # 2) < inject_Z (roundHalfUp x).
Proof.
  unfold roundHalfUp.
  pose proof (Qlt_floor (x + (1 # 2))) as Hlt.
  rewrite inject_Z_plus in Hlt. change (inject_Z 1) with 1 in Hlt. lra.
Qed.

Lemma roundHalfUp_upper (x : Q) : inject_Z (roundHalfUp x) <= x + (1 # 2).
Proof. unfold roundHalfUp. apply Qfloor_le. Qed.

Global Instance roundHalfUp_proper : Proper (Qeq ==> eq) roundHalfUp.
Proof. intros x y Hxy. unfold roundHalfUp. now rewrite Hxy. Qed.

(** ** [toFixed] *)

Lemma toFixed_nonneg_eq (x : Q) (d : nat) :
  0 <= x -> toFixed x d = inject_Z (roundHalfUp (x * pow10 d)) / pow10 d.
Proof. intros Hx. unfold toFixed. cases_Q; [lra | reflexivity]. Qed.

Lemma toFixed_neg_eq (x : Q) (d : nat) :
  x < 0 -> toFixed x d = - (inject_Z (roundHalfUp (- x * pow10 d)) / pow10 d).
Proof. intros Hx. unfold toFixed. cases_Q; [reflexivity | lra]. Qed.

Lemma toFixed_nonneg (x : Q) (d : nat) : 0 <= x -> 0 <= toFixed x d.
Proof.
  intros Hx. rewrite toFixed_nonneg_eq by assumption.
  pose proof (pow10_pos d) as Hp.
  apply Qle_shift_div_l; [assumption|]. rewrite Qmult_0_l.
  change 0 with (inject_Z 0). rewrite <- Zle_Qle.
  apply roundHalfUp_nonneg. apply Qmult_le_0_compat; lra.
Qed.

Lemma toFixed_nonpos (x : Q) (d : nat) : x < 0 -> toFixed x d <= 0.
Proof.
  intros Hx. rewrite toFixed_neg_eq by assumption.
  pose proof (pow10_pos d) as Hp.
  assert (Hq : 0 <= inject_Z (roundHalfUp (- x * pow10 d)) / pow10 d).
  { apply Qle_shift_div_l; [assumption|]. rewrite Qmult_0_l.
    change 0 with (inject_Z 0). rewrite <- Zle_Qle.
    apply roundHalfUp_nonneg. apply Qmult_le_0_compat; lra. }
  lra.
Qed.

Lemma div_pow10_mono (m n : Z) (d : nat) :
  (m <= n)%Z -> inject_Z m / pow10 d <= inject_Z n / pow10 d.
Proof.
  intros Hmn. pose proof (pow10_pos d) as Hp.
  apply Qle_shift_div_l; [assumption|].
  unfold Qdiv. rewrite <- Qmult_assoc, (Qmult_comm (/ pow10 d)), Qmult_inv_r by lra.
  rewrite Qmult_1_r. now rewrite <- Zle_Qle.
Qed.

(** Rounding to [d] decimals is monotone. *)
Lemma toFixed_mono (x y : Q) (d : nat) : x <= y -> toFixed x d <= toFixed y d.
Proof.
  intros Hxy. pose proof (pow10_pos d) as Hp.
  destruct (Qlt_le_dec x 0) as [Hx|Hx]; destruct (Qlt_le_dec y 0) as [Hy|Hy].
  - rewrite !toFixed_neg_eq by assumption.
    apply Qopp_le_compat, div_pow10_mono, roundHalfUp_mono.
    apply Qmult_le_compat_r; lra.
  - pose proof (toFixed_nonpos x d Hx). pose proof (toFixed_nonneg y d Hy). lra.
  - lra.
  - rewrite !toFixed_nonneg_eq by assumption.
    apply div_pow10_mono, roundHalfUp_mono.
    apply Qmult_le_compat_r; lra.
Qed.

Global Instance toFixed_proper : Proper (Qeq ==> eq ==> Qeq) toFixed.
Proof.
  intros x y Hxy d d' <-.
  apply Qle_antisym; apply toFixed_mono; lra.
Qed.

(** A number with at most [d] decimals is printed as it is. *)
Lemma toFixed_isDecimal (q : Q) (d : nat) : isDecimal d q -> toFixed q d == q.
Proof.
  intros [n Hn]. pose proof (pow10_pos d) as Hp.
  assert (Hmul : forall m : Z, inject_Z m / pow10 d * pow10 d == inject_Z m).
  { intros m. field. lra. }
  destruct (Qlt_le_dec q 0) as [Hq|Hq].
  - rewrite toFixed_neg_eq by assumption.
    assert (Hx : - q * pow10 d == inject_Z (- n)).
    { rewrite Hn, inject_Z_opp. field. lra. }
    rewrite Hx, roundHalfUp_Z, Hn, inject_Z_opp. field. lra.
  - rewrite toFixed_nonneg_eq by assumption.
    assert (Hx : q * pow10 d == inject_Z n) by (rewrite Hn; apply Hmul).
    rewrite Hx, roundHalfUp_Z, Hn. reflexivity.
Qed.

Lemma isDecimal_Z (n : Z) (d : nat) : isDecimal d (inject_Z n).
Proof.
  exists (n * 10 ^ Z.of_nat d)%Z. pose proof (pow10_pos d) as Hp.
  rewrite inject_Z_mult. fold (pow10 d). field. lra.
Qed.

(** The printed value is within half a unit of the last decimal. *)
Lemma toFixed_near (x : Q) (d : nat) :
  Qabs (toFixed x d - x) <= (1 # 2) / pow10 d.
Proof.
  pose proof (pow10_pos d) as Hp.
  assert (Hup : forall a b : Q,
             a <= b * pow10 d + (1 # 2) -> a / pow10 d <= b + (1 # 2) / pow10 d).
  { intros a b Hab. apply Qle_shift_div_r; [assumption|].
    assert (Heq : (b + (1 # 2) / pow10 d) * pow10 d == b * pow10 d + (1 # 2))
      by (field; lra).
    rewrite Heq. assumption. }
  assert (Hdown : forall a b : Q,
             b * pow10 d - (1 # 2) <= a -> b - (1 # 2) / pow10 d <= a / pow10 d).
  { intros a b Hab. apply Qle_shift_div_l; [assumption|].
    assert (Heq : (b - (1 # 2) / pow10 d) * pow10 d == b * pow10 d - (1 # 2))
      by (field; lra).
    rewrite Heq. assumption. }
  apply Qabs_Qle_condition.
  destruct (Qlt_le_dec x 0) as [Hx|Hx].
  - rewrite toFixed_neg_eq by assumption.
    pose proof (roundHalfUp_lower (- x * pow10 d)) as Hlo.
    pose proof (roundHalfUp_upper (- x * pow10 d)) as Hhi.
    pose proof (Hup _ _ Hhi) as H1.
    pose proof (Hdown _ (- x) (Qlt_le_weak _ _ Hlo)) as H2.
    split; lra.
  - rewrite toFixed_nonneg_eq by assumption.
    pose proof (roundHalfUp_lower (x * pow10 d)) as Hlo.
    pose proof (roundHalfUp_upper (x * pow10 d)) as Hhi.
    pose proof (Hup _ _ Hhi) as H1.
    pose proof (Hdown _ x (Qlt_le_weak _ _ Hlo)) as H2.
    split; lra.
Qed.

(** ** Reverse charging: the transfer and the batteries after it *)

Section RescueFacts.
Context `{JSMath}.

Lemma rescueRejected_fields (why : string) :
  rescueFound (rescueRejected why) = false
  /\ transferredEnergyKwh (rescueRejected why) = 0.
Proof. split; reflexivity. Qed.

(** The two ways a simulation ends: rejected with nothing transferred, or
    accepted for the first candidate with a positive transfer. *)
Lemma simulateReverseCharging_cases (input : RescueSimulationInput) :
  (rescueFound (simulateReverseCharging input) = false
   /\ transferredEnergyKwh (simulateReverseCharging input) = 0)
  \/ (exists donor rest,
        rescueCandidates input = donor :: rest
        /\ 0 < transferKwh input donor
        /\ rescueFound (simulateReverseCharging input) = true
        /\ transferredEnergyKwh (simulateReverseCharging input)
           = toFixed (transferKwh input donor) 2
        /\ receiverBatteryAfterPercent (simulateReverseCharging input)
           = Some (toFixed
                     (Math_min 100
                        (receiverCurrentBatteryPercent input
                         + transferKwh input donor
                           / Math_max 1 (receiverBatteryCapacityKwh input) * 100)) 1)
        /\ donorBatteryAfterPercent (simulateReverseCharging input)
           = Some (toFixed
                     ((donorCurrentEnergyKwh input donor - transferKwh input donor)
                      / (donorBatteryCapacityKwh input ?? 70) * 100) 1)).
Proof.
  unfold simulateReverseCharging.
  destruct (truthy (oneRescuePerTrip input) && truthy (alreadyRescuedOnTrip input)).
  { left. apply rescueRejected_fields. }
  destruct (rescueCandidates input) as [|donor rest].
  { left. apply rescueRejected_fields. }
  destruct (transferKwh input donor <=? 0) eqn:Hpos.
  { left. apply rescueRejected_fields. }
  apply Qleb_false in Hpos.
  right. exists donor, rest.
  split; [reflexivity|]. split; [assumption|].
  repeat (split; [reflexivity|]). reflexivity.
Qed.

(** An accepted transfer lies in the window and within what the donor can
    give above its floor. *)
Lemma transferKwh_accepted (input : RescueSimulationInput)
    (donor : CommunityRescueVehicle) :
  0 < transferKwh input donor ->
  range_min (transferKwhRange input ?? defaultTransferRange) <= transferKwh input donor
  /\ transferKwh input donor <= range_max (transferKwhRange input ?? defaultTransferRange)
  /\ transferKwh input donor
     <= donorCurrentEnergyKwh input donor - donorMinimumEnergyKwh input.
Proof.
  unfold transferKwh.
  destruct (range_min (transferKwhRange input ?? defaultTransferRange)
            <=? transferCandidateKwh input donor) eqn:Hmin;
    intros Hpos; [apply Qleb_true in Hmin | lra].
  split; [assumption|].
  unfold transferCandidateKwh, donorTransferableKwh in *.
  split; [apply Math_min_l|].
  eapply Qle_trans; [apply Math_min_r|].
  destruct (Math_max_cases 0
              (donorCurrentEnergyKwh input donor - donorMinimumEnergyKwh input))
    as [[Hle ->]|[Hlt Heq]]; [lra|].
  (* nothing to give: the candidate is at most 0, so no transfer is positive *)
  exfalso.
  pose proof (Math_min_r (range_max (transferKwhRange input ?? defaultTransferRange))
                (Math_max 0 (donorCurrentEnergyKwh input donor
                             - donorMinimumEnergyKwh input))) as Hr.
  rewrite Heq in Hr at 2. lra.
Qed.

(** C1 (as amended).  When no rescue is found the transferred energy is
    exactly 0.  When a rescue is found, the transfer itself lies in the
    configured window, and the reported [transferredEnergyKwh], its value
    rounded to two decimals, lies between the rounded bounds: it is at least
    the minimum whenever the minimum has at most two decimals, and at most
    the maximum whenever the maximum has; with the default window it lies in
    5..10. *)
Theorem simulateReverseCharging_transfer_window (input : RescueSimulationInput) :
  let r := simulateReverseCharging input in
  let window := transferKwhRange input ?? defaultTransferRange in
  (rescueFound r = false -> transferredEnergyKwh r = 0)
  /\ (rescueFound r = true ->
      (exists donor,
          head (rescueCandidates input) = Some donor
          /\ transferredEnergyKwh r = toFixed (transferKwh input donor) 2
          /\ range_min window <= transferKwh input donor <= range_max window)
      /\ toFixed (range_min window) 2 <= transferredEnergyKwh r
         <= toFixed (range_max window) 2
      /\ (isDecimal 2 (range_min window) -> range_min window <= transferredEnergyKwh r)
      /\ (isDecimal 2 (range_max window) -> transferredEnergyKwh r <= range_max window)
      /\ (transferKwhRange input = None -> 5 <= transferredEnergyKwh r <= 10)).
Proof.
  intros r window. subst r.
  destruct (simulateReverseCharging_cases input)
    as [[Hfound Hzero] | (donor & rest & Hcands & Hpos & Hfound & Hkwh & _)].
  - split; [intros _; exact Hzero | rewrite Hfound; discriminate].
  - split; [rewrite Hfound; discriminate | intros _].
    destruct (transferKwh_accepted input donor Hpos) as (Hmin & Hmax & _).
    fold window in Hmin, Hmax.
    assert (Hlo : toFixed (range_min window) 2
                  <= transferredEnergyKwh (simulateReverseCharging input)).
    { rewrite Hkwh. apply toFixed_mono, Hmin. }
    assert (Hhi : transferredEnergyKwh (simulateReverseCharging input)
                  <= toFixed (range_max window) 2).
    { rewrite Hkwh. apply toFixed_mono, Hmax. }
    split.
    { exists donor. rewrite Hcands. auto. }
    split; [auto|].
    split; [intros Hdec; rewrite <- (toFixed_isDecimal _ _ Hdec); exact Hlo|].
    split; [intros Hdec; rewrite <- (toFixed_isDecimal _ _ Hdec); exact Hhi|].
    intros Hdefault. subst window. rewrite Hdefault in Hlo, Hhi. cbn in Hlo, Hhi.
    rewrite (toFixed_isDecimal 5 2 (isDecimal_Z 5 2)) in Hlo.
    rewrite (toFixed_isDecimal 10 2 (isDecimal_Z 10 2)) in Hhi.
    auto.
Qed.



End RescueFacts.

(** Without a charging station in the request the simulation does not
    call the runtime's functions at all. *)
Lemma simulateReverseCharging_without_stations (math math' : JSMath)
    (input : RescueSimulationInput) :
  chargingStations input = [] ->
  @simulateReverseCharging math input = @simulateReverseCharging math' input.
Proof.
  intros Hnone. unfold simulateReverseCharging, nearestStation.
  rewrite Hnone. reflexivity.
Qed.

(** C1, as stated, fails on windows whose bounds have more than two
    decimals.  With the window 5.0625..5.0625 and a donor at 90 % the rescue
    is found and 5.06 kWh is reported, below the minimum; with the window
    5..5.125 the report is 5.13 kWh, above the maximum. *)
Lemma simulateReverseCharging_report_leaves_window :
  let narrow := {| range_min := 50625 # 10000; range_max := 50625 # 10000 |} in
  let wide := {| range_min := 5; range_max := 5125 # 1000 |} in
  let low := @simulateReverseCharging Sample.flatMath
               (Sample.rescueInput 90 None (Some narrow) None 10 60) in
  let high := @simulateReverseCharging Sample.flatMath
                (Sample.rescueInput 90 None (Some wide) None 10 60) in
  (rescueFound low = true
   /\ transferredEnergyKwh low == 506 # 100
   /\ transferredEnergyKwh low < range_min narrow)
  /\ (rescueFound high = true
      /\ transferredEnergyKwh high == 513 # 100
      /\ range_max wide < transferredEnergyKwh high).
Proof. vm_compute. repeat split; intros Habs; discriminate Habs. Qed.





(** ** Charging cost *)

Lemma roundHalfUp_succ (x : Q) : roundHalfUp (x + 1) = (roundHalfUp x + 1)%Z.
Proof.
  pose proof (roundHalfUp_lower x) as Hlo.
  pose proof (roundHalfUp_upper x) as Hhi.
  pose proof (roundHalfUp_lower (x + 1)) as Hlo'.
  pose proof (roundHalfUp_upper (x + 1)) as Hhi'.
  assert (H1 : (roundHalfUp x < roundHalfUp (x + 1) + 0)%Z).
  { rewrite Zlt_Qlt, inject_Z_plus. change (inject_Z 0) with 0. lra. }
  assert (H2 : (roundHalfUp (x + 1) < roundHalfUp x + 2)%Z).
  { rewrite Zlt_Qlt, inject_Z_plus. change (inject_Z 2) with 2. lra. }
  lia.
Qed.

(** Two non-negative numbers a unit of the last decimal apart are printed
    differently. *)
Lemma toFixed_strict (x y : Q) (d : nat) :
  0 <= x -> x + 1 / pow10 d <= y -> toFixed x d < toFixed y d.
Proof.
  intros Hx Hxy. pose proof (pow10_pos d) as Hp.
  assert (Hinv : 0 < 1 / pow10 d).
  { apply Qlt_shift_div_l; [assumption | lra]. }
  rewrite !toFixed_nonneg_eq by lra.
  assert (Hstep : (roundHalfUp (x * pow10 d) + 1 <= roundHalfUp (y * pow10 d))%Z).
  { rewrite <- roundHalfUp_succ. apply roundHalfUp_mono.
    assert (Heq : (x + 1 / pow10 d) * pow10 d == x * pow10 d + 1) by (field; lra).
    rewrite <- Heq. apply Qmult_le_compat_r; lra. }
  apply Qlt_shift_div_l; [assumption|].
  assert (Heq : inject_Z (roundHalfUp (x * pow10 d)) / pow10 d * pow10 d
                == inject_Z (roundHalfUp (x * pow10 d))) by (field; lra).
  rewrite Heq, <- Zlt_Qlt. lia.
Qed.

Lemma chargedUnits_nonneg (e : jsnumber) : 0 <= chargedUnits e.
Proof. apply Math_max_l. Qed.

Lemma chargedUnits_not_finite (e : jsnumber) :
  Number_isFinite e = false -> chargedUnits e = chargedUnits (Finite 0).
Proof. destruct e; [discriminate | reflexivity ..]. Qed.

Lemma chargedUnits_finite (a : Q) : chargedUnits (Finite a) = Math_max 0 a.
Proof. reflexivity. Qed.

Lemma chargedUnits_mono (a b : Q) :
  a <= b -> chargedUnits (Finite a) <= chargedUnits (Finite b).
Proof.
  intros Hab. rewrite !chargedUnits_finite. unfold Math_max. cases_Q; lra.
Qed.

(** The price per kWh that [calculateChargingCost] charges is not
    negative. *)
Lemma calculateChargingCost_price_nonneg (e : jsnumber) (s : OcmStation) :
  0 <= effectivePricePerKwh (calculateChargingCost e s).
Proof.
  unfold calculateChargingCost, calculateSolarDiscountedCost. cbn.
  destruct (energySource s) as [[| |]|]; vm_compute; discriminate.
Qed.

Lemma calculateChargingCost_total (e : jsnumber) (s : OcmStation) :
  totalCost (calculateChargingCost e s)
  = toFixed (chargedUnits e * effectivePricePerKwh (calculateChargingCost e s)) 2.
Proof. reflexivity. Qed.

Lemma calculateChargingCost_price_indep (e1 e2 : jsnumber) (s : OcmStation) :
  effectivePricePerKwh (calculateChargingCost e1 s)
  = effectivePricePerKwh (calculateChargingCost e2 s).
Proof. reflexivity. Qed.

Lemma effectivePrice_solar (s : OcmStation) (e : jsnumber) (base : Q) :
  effectivePricePerKwh
    (calculateSolarDiscountedCost e (withEnergySource (Some solar) s) (baseTariff base))
  = toFixed (base * (1 - 35 / 100)) 2.
Proof. reflexivity. Qed.

Lemma effectivePrice_grid (s : OcmStation) (e : jsnumber) (base : Q) :
  effectivePricePerKwh
    (calculateSolarDiscountedCost e (withEnergySource (Some grid) s) (baseTariff base))
  = toFixed (base * (1 - 0 / 100)) 2.
Proof. reflexivity. Qed.

(** C6 (as amended).  With negative or non-finite energy counted as 0, the
    total cost of [calculateChargingCost] does not decrease when the energy
    so counted grows, in particular for finite [e1 <= e2]; a non-finite
    energy costs what 0 kWh costs.  At a base tariff [b >= 0] the price per
    kWh of a solar station is at most that of the same station on the grid,
    and strictly less once [b >= 1/35] (35 % of it is at least 0.01), in
    particular at the default tariff of 12. *)
Theorem calculateChargingCost_monotone_solar_cheaper :
  (forall (s : OcmStation) (e1 e2 : jsnumber),
      chargedUnits e1 <= chargedUnits e2 ->
      totalCost (calculateChargingCost e1 s) <= totalCost (calculateChargingCost e2 s))
  /\ (forall (s : OcmStation) (a b : Q),
         a <= b ->
         totalCost (calculateChargingCost (Finite a) s)
         <= totalCost (calculateChargingCost (Finite b) s))
  /\ (forall (s : OcmStation) (e : jsnumber),
         Number_isFinite e = false ->
         totalCost (calculateChargingCost e s)
         = totalCost (calculateChargingCost (Finite 0) s))
  /\ (forall (s : OcmStation) (e : jsnumber) (base : Q),
         let solarPrice :=
           effectivePricePerKwh
             (calculateSolarDiscountedCost e (withEnergySource (Some solar) s)
                (baseTariff base)) in
         let gridPrice :=
           effectivePricePerKwh
             (calculateSolarDiscountedCost e (withEnergySource (Some grid) s)
                (baseTariff base)) in
         (0 <= base -> solarPrice <= gridPrice)
         /\ (1 # 35 <= base -> solarPrice < gridPrice))
  /\ (forall (s : OcmStation) (e : jsnumber),
         effectivePricePerKwh (calculateChargingCost e (withEnergySource (Some solar) s))
         < effectivePricePerKwh (calculateChargingCost e (withEnergySource (Some grid) s))).
Proof.
  assert (Hmono : forall (s : OcmStation) (e1 e2 : jsnumber),
             chargedUnits e1 <= chargedUnits e2 ->
             totalCost (calculateChargingCost e1 s)
             <= totalCost (calculateChargingCost e2 s)).
  { intros s e1 e2 Hle. rewrite !calculateChargingCost_total.
    rewrite (calculateChargingCost_price_indep e2 e1).
    apply toFixed_mono, Qmult_le_compat_r;
      [assumption | apply calculateChargingCost_price_nonneg]. }
  split; [exact Hmono|].
  split; [intros s a b Hab; apply Hmono, chargedUnits_mono, Hab|].
  split.
  { intros s e Hinf. rewrite !calculateChargingCost_total.
    rewrite (chargedUnits_not_finite e Hinf). reflexivity. }
  split.
  { intros s e base solarPrice gridPrice. subst solarPrice gridPrice.
    rewrite effectivePrice_solar, effectivePrice_grid.
    change (35 / 100) with (35 # 100). change (0 / 100) with (0 # 100).
    split; intros Hbase.
    - apply toFixed_mono. lra.
    - apply toFixed_strict; [lra|].
      change (1 / pow10 2) with (1 # 100). lra. }
  intros s e. vm_compute. reflexivity.
Qed.

(** C6, as stated, fails for small base tariffs: at 0.01 per kWh the solar
    price, 0.0065 rounded to two decimals, is 0.01 as well, not strictly
    less than the grid price. *)
Lemma calculateSolarDiscountedCost_solar_not_cheaper :
  let s := Sample.stationOf "101" 13 76 60 grid in
  let solarPrice :=
    effectivePricePerKwh
      (calculateSolarDiscountedCost (Finite 10) (withEnergySource (Some solar) s)
         (baseTariff (1 # 100))) in
  let gridPrice :=
    effectivePricePerKwh
      (calculateSolarDiscountedCost (Finite 10) (withEnergySource (Some grid) s)
         (baseTariff (1 # 100))) in
  solarPrice == 1 # 100 /\ gridPrice == 1 # 100 /\ ~ solarPrice < gridPrice.
Proof. vm_compute. repeat split. intros Habs. discriminate Habs. Qed.

(** Read over the non-finite inputs too, [5 <= Infinity] while 5 kWh cost
    60 and an infinite energy, counted as 0, costs nothing. *)
Lemma calculateChargingCost_infinite_energy :
  let s := Sample.stationOf "101" 13 76 60 grid in
  js_le (Finite 5) PosInfinity
  /\ totalCost (calculateChargingCost (Finite 5) s) == 60
  /\ totalCost (calculateChargingCost PosInfinity s) == 0.
Proof. vm_compute. repeat split. Qed.

(** ** Route similarity *)

Lemma isEmpty_true (s : string) : isEmpty s = true <-> s = "".
Proof. destruct s; split; intros Hs; (reflexivity || discriminate). Qed.

Lemma Set_add_elem (acc : list string) (x y : string) :
  y ∈ Set_add acc x <-> y ∈ acc \/ y = x.
Proof.
  unfold Set_add. case_bool_decide as Hin.
  - split; [auto|]. intros [Hy| ->]; assumption.
  - rewrite elem_of_app, list_elem_of_singleton. reflexivity.
Qed.

Lemma Set_add_NoDup (acc : list string) (x : string) :
  NoDup acc -> NoDup (Set_add acc x).
Proof.
  intros Hnd. unfold Set_add. case_bool_decide as Hin; [assumption|].
  apply NoDup_app. split; [assumption|]. split.
  - intros y Hy Hyx. apply list_elem_of_singleton in Hyx. subst y. contradiction.
  - apply NoDup_singleton.
Qed.

Lemma foldl_Set_add (l acc : list string) :
  NoDup acc ->
  NoDup (foldl Set_add acc l)
  /\ (forall y, y ∈ foldl Set_add acc l <-> y ∈ acc \/ y ∈ l).
Proof.
  revert acc. induction l as [|x l IH]; intros acc Hnd; cbn.
  - split; [assumption|]. intros y. rewrite elem_of_nil. tauto.
  - destruct (IH (Set_add acc x) (Set_add_NoDup acc x Hnd)) as [Hnd' Hin].
    split; [assumption|]. intros y.
    rewrite Hin, Set_add_elem, elem_of_cons. tauto.
Qed.

(** [new Set(l)] has no repetition and holds the elements of [l]. *)
Lemma Set_of_NoDup (l : list string) : NoDup (Set_of l).
Proof. apply (foldl_Set_add l []), NoDup_nil_2. Qed.

Lemma Set_of_elem (l : list string) (y : string) : y ∈ Set_of l <-> y ∈ l.
Proof.
  unfold Set_of. destruct (foldl_Set_add l [] (NoDup_nil_2)) as [_ Hin].
  rewrite Hin, elem_of_nil. tauto.
Qed.

Lemma Set_of_to_set (l : list string) :
  list_to_set (Set_of l) = (list_to_set l : gset string).
Proof.
  apply set_eq. intros y. rewrite !elem_of_list_to_set. apply Set_of_elem.
Qed.

(** The size of the [Set] is the size of the token set. *)
Lemma Set_of_size (s : string) : length (Set_of (tokens s)) = size (tokenSet s).
Proof.
  unfold tokenSet. rewrite <- Set_of_to_set.
  symmetry. apply size_list_to_set, Set_of_NoDup.
Qed.

Lemma Set_has_true (l : list string) (x : string) :
  Set_has (Set_of l) x = true <-> x ∈ (list_to_set l : gset string).
Proof.
  unfold Set_has. rewrite bool_decide_eq_true, elem_of_list_to_set.
  apply Set_of_elem.
Qed.

(** The counting loop computes the size of the intersection. *)
Lemma overlap_size (a b : string) :
  length (List.filter (Set_has (Set_of (tokens b))) (Set_of (tokens a)))
  = size (tokenSet a ∩ tokenSet b).
Proof.
  set (common := List.filter (Set_has (Set_of (tokens b))) (Set_of (tokens a))).
  assert (Hnd : NoDup common).
  { unfold common. apply NoDup_ListNoDup, List.NoDup_filter, NoDup_ListNoDup, Set_of_NoDup. }
  rewrite <- (size_list_to_set (C := gset string) common Hnd).
  f_equal. apply set_eq. intros y.
  rewrite elem_of_list_to_set, elem_of_intersection.
  unfold common, tokenSet.
  rewrite list_elem_of_In, filter_In, <- list_elem_of_In.
  rewrite Set_of_elem, Set_has_true, !elem_of_list_to_set. reflexivity.
Qed.

Lemma tokenSet_empty (s : string) :
  (length (Set_of (tokens s)) =? 0)%nat = true <-> tokenSet s = ∅.
Proof.
  rewrite Set_of_size, Nat.eqb_eq. rewrite size_empty_iff.
  split; intros Hs; [apply leibniz_equiv, Hs | rewrite Hs; reflexivity].
Qed.

(** [includes] is containment as a contiguous substring. *)
Lemma startsWith_app (s p : string) :
  startsWith s p = true <-> exists post, s = p +:+ post.
Proof.
  revert s. induction p as [|c p IH]; intros s.
  - split; [intros _; exists s; reflexivity | intros _; reflexivity].
  - destruct s as [|c' s].
    + split; [discriminate | intros [post Hpost]; discriminate].
    + cbn [startsWith]. destruct (ascii_dec c c') as [<-|Hne].
      * rewrite IH. split; intros [post Hpost]; exists post.
        -- rewrite Hpost. reflexivity.
        -- injection Hpost as ->. reflexivity.
      * split; [discriminate|]. intros [post Hpost].
        injection Hpost as Hc _. congruence.
Qed.

Lemma includes_spec (s p : string) :
  includes s p = true <-> exists pre post, s = pre +:+ p +:+ post.
Proof.
  induction s as [|c s IH].
  - cbn [includes]. rewrite orb_false_r, startsWith_app. split.
    + intros [post Hpost]. exists "", post. exact Hpost.
    + intros ([|c pre] & post & Hs); [exists post; exact Hs | discriminate].
  - cbn [includes]. rewrite orb_true_iff, startsWith_app, IH. split.
    + intros [[post Hpost] | (pre & post & Hs)].
      * exists "", post. exact Hpost.
      * exists (String c pre), post. rewrite Hs. reflexivity.
    + intros ([|c' pre] & post & Hs).
      * left. exists post. exact Hs.
      * right. injection Hs as _ Hs. exists pre, post. exact Hs.
Qed.

Lemma allTokenChars_app (s t : string) :
  allTokenChars (s +:+ t) = allTokenChars s && allTokenChars t.
Proof.
  induction s as [|c s IH]; [reflexivity|].
  change (String c s +:+ t) with (String c (s +:+ t)). cbn [allTokenChars].
  rewrite IH, andb_assoc. reflexivity.
Qed.

(** Every token is a run of characters of [a-z0-9] that is not empty. *)
Lemma splitTokens_tokens (s cur : string) :
  allTokenChars cur = true ->
  Forall (fun t => t <> "" /\ allTokenChars t = true) (splitTokens s cur).
Proof.
  assert (Hflush : forall cur, allTokenChars cur = true ->
            Forall (fun t => t <> "" /\ allTokenChars t = true) (flushToken cur)).
  { intros [|c cur'] Hcur; cbn; constructor; [|constructor].
    split; [discriminate | exact Hcur]. }
  revert cur. induction s as [|c s IH]; intros cur Hcur; cbn [splitTokens].
  - apply Hflush, Hcur.
  - destruct (isTokenChar c) eqn:Hc.
    + apply IH. rewrite allTokenChars_app, Hcur. cbn. rewrite Hc. reflexivity.
    + apply Forall_app. split; [apply Hflush, Hcur | apply IH; reflexivity].
Qed.

Lemma tokens_tokens (s : string) :
  Forall (fun t => t <> "" /\ allTokenChars t = true) (tokens s).
Proof. apply splitTokens_tokens. reflexivity. Qed.

(** C9 (as amended).  With both directions trimmed and put in lower case:
    if either is empty the score is 0; otherwise identical strings score 1;
    otherwise containment in either direction scores 0.75; otherwise the
    score is 0 if either token set is empty and else
    |A ∩ B| / max(|A|, |B|). *)
Theorem routeSimilarityScore_spec (routeA routeB : string) :
  let a := normalizedRoute routeA in
  let b := normalizedRoute routeB in
  let A := tokenSet a in
  let B := tokenSet b in
  let score := routeSimilarityScore routeA routeB in
  (a = "" \/ b = "" -> score = 0)
  /\ (a <> "" -> b <> "" -> a = b -> score = 1)
  /\ (a <> "" -> b <> "" -> a <> b ->
      (exists pre post, a = pre +:+ b +:+ post)
      \/ (exists pre post, b = pre +:+ a +:+ post) ->
      score = 3 # 4)
  /\ (a <> "" -> b <> "" -> a <> b ->
      ~ (exists pre post, a = pre +:+ b +:+ post) ->
      ~ (exists pre post, b = pre +:+ a +:+ post) ->
      (A = ∅ \/ B = ∅ -> score = 0)
      /\ (A <> ∅ -> B <> ∅ ->
          score = inject_Z (Z.of_nat (size (A ∩ B)))
                  / inject_Z (Z.of_nat (Nat.max (size A) (size B))))).
Proof.
  intros a b A B score. subst score. unfold routeSimilarityScore.
  fold (normalizedRoute routeA) (normalizedRoute routeB). fold a b.
  pose proof (isEmpty_true a) as Ha. pose proof (isEmpty_true b) as Hb.
  split.
  { intros [Hempty|Hempty].
    - destruct Ha as [_ Ha]. rewrite (Ha Hempty). reflexivity.
    - destruct Hb as [_ Hb]. rewrite (Hb Hempty), orb_true_r. reflexivity. }
  assert (Hfull : a <> "" -> b <> "" -> isEmpty a || isEmpty b = false).
  { intros Hna Hnb. apply orb_false_iff.
    split; apply not_true_iff_false; tauto. }
  split.
  { intros Hna Hnb Heq. rewrite (Hfull Hna Hnb).
    rewrite (bool_decide_eq_true_2 _ Heq). reflexivity. }
  split.
  { intros Hna Hnb Hne Hsub. rewrite (Hfull Hna Hnb).
    rewrite (bool_decide_eq_false_2 _ Hne).
    assert (Hinc : includes a b || includes b a = true).
    { apply orb_true_iff. rewrite !includes_spec. exact Hsub. }
    rewrite Hinc. reflexivity. }
  intros Hna Hnb Hne Hab Hba. rewrite (Hfull Hna Hnb).
  rewrite (bool_decide_eq_false_2 _ Hne).
  assert (Hinc : includes a b || includes b a = false).
  { apply orb_false_iff. rewrite <- !not_true_iff_false, !includes_spec. auto. }
  rewrite Hinc.
  pose proof (tokenSet_empty a) as HA. pose proof (tokenSet_empty b) as HB.
  fold A in HA. fold B in HB.
  split.
  { intros [Hempty|Hempty].
    - destruct HA as [_ HA]. rewrite (HA Hempty). reflexivity.
    - destruct HB as [_ HB]. rewrite (HB Hempty), orb_true_r. reflexivity. }
  intros HnA HnB.
  assert (Hsizes : (length (Set_of (tokens a)) =? 0)%nat
                   || (length (Set_of (tokens b)) =? 0)%nat = false).
  { apply orb_false_iff. split; apply not_true_iff_false; tauto. }
  rewrite Hsizes, overlap_size, !Set_of_size. reflexivity.
Qed.

(** C9, as stated, fails when a direction is empty after trimming: two
    empty directions are identical yet score 0, not 1, and the empty
    direction is contained in every other yet scores 0, not 0.75. *)
Lemma routeSimilarityScore_empty_direction :
  (normalizedRoute "" = normalizedRoute "  "
   /\ routeSimilarityScore "" "  " = 0)
  /\ ((exists pre post, normalizedRoute "NH 48" = pre +:+ normalizedRoute " " +:+ post)
      /\ normalizedRoute "NH 48" <> normalizedRoute " "
      /\ routeSimilarityScore "NH 48" " " = 0).
Proof.
  split; [split; reflexivity|].
  split; [exists "", "nh 48"; reflexivity|].
  split; [discriminate | reflexivity].
Qed.

(** ** Sorting *)

Section ArraySortFacts.
Context {A : Type} (cmp : A -> A -> Q).

Lemma sort_insert_perm (x : A) (l : list A) :
  Permutation (sort_insert cmp x l) (x :: l).
Proof.
  induction l as [|y l IH]; cbn; [reflexivity|].
  destruct (cmp x y <=? 0); [reflexivity|].
  rewrite IH. apply perm_swap.
Qed.

(** The sorted array holds the elements of the array. *)
Lemma Array_sort_perm (l : list A) : Permutation (Array_sort cmp l) l.
Proof.
  induction l as [|x l IH]; cbn; [reflexivity|].
  fold (Array_sort cmp l). rewrite sort_insert_perm, IH. reflexivity.
Qed.

(** A comparator is consistent when "not greater" is total and
    transitive. *)
Hypothesis cmp_total : forall a b, cmp a b <= 0 \/ cmp b a <= 0.
Hypothesis cmp_trans : forall a b c, cmp a b <= 0 -> cmp b c <= 0 -> cmp a c <= 0.

Lemma sort_insert_sorted (x : A) (l : list A) :
  StronglySorted (fun a b => cmp a b <= 0) l ->
  StronglySorted (fun a b => cmp a b <= 0) (sort_insert cmp x l).
Proof.
  induction 1 as [|y l Hsorted IH Hall]; cbn.
  - constructor; constructor.
  - destruct (cmp x y <=? 0) eqn:Hxy.
    + apply Qleb_true in Hxy. constructor.
      * constructor; assumption.
      * constructor; [assumption|].
        eapply Forall_impl; [exact Hall|]. intros z Hyz. cbn in Hyz. eauto.
    + apply Qleb_false in Hxy. constructor; [exact IH|].
      rewrite sort_insert_perm. constructor; [|assumption].
      destruct (cmp_total y x) as [Hyx|Hyx]; [assumption | lra].
Qed.

(** With a consistent comparator the sorted array is in order. *)
Lemma Array_sort_sorted (l : list A) :
  StronglySorted (fun a b => cmp a b <= 0) (Array_sort cmp l).
Proof.
  induction l as [|x l IH]; cbn; [constructor|].
  apply sort_insert_sorted, IH.
Qed.

End ArraySortFacts.

(** ** Matching rescue vehicles *)

Lemma filter_map_commute {A B : Type} (f : A -> B) (p : B -> bool) (l : list A) :
  List.filter p (map f l) = map f (List.filter (fun a => p (f a)) l).
Proof.
  induction l as [|a l IH]; cbn; [reflexivity|].
  destruct (p (f a)); cbn; rewrite IH; reflexivity.
Qed.

Lemma filter_filter {A : Type} (p q : A -> bool) (l : list A) :
  List.filter q (List.filter p l) = List.filter (fun a => p a && q a) l.
Proof.
  induction l as [|a l IH]; cbn; [reflexivity|].
  destruct (p a); cbn; [destruct (q a)|]; rewrite IH; reflexivity.
Qed.

Lemma compareCandidates_le (a b : RescueCandidate) :
  compareCandidates a b <= 0 <->
  cand_distanceKm a < cand_distanceKm b
  \/ (cand_distanceKm a == cand_distanceKm b
      /\ availableBatteryPercent (cand_vehicle b)
         <= availableBatteryPercent (cand_vehicle a)).
Proof.
  unfold compareCandidates.
  destruct (cand_distanceKm a =? cand_distanceKm b) eqn:Heq; cbn.
  - apply Qeqb_true in Heq. split; [intros Hle; right; split; [assumption | lra]|].
    intros [Hlt | [_ Hle]]; lra.
  - apply Qeqb_false in Heq. split.
    + intros Hle. left. apply Qle_lteq in Hle.
      destruct Hle as [Hlt|Hzero]; [lra|]. exfalso. apply Heq. lra.
    + intros [Hlt | [Hsame _]]; [lra | contradiction].
Qed.

Lemma compareCandidates_total (a b : RescueCandidate) :
  compareCandidates a b <= 0 \/ compareCandidates b a <= 0.
Proof.
  rewrite !compareCandidates_le.
  destruct (Q_dec (cand_distanceKm a) (cand_distanceKm b)) as [[Hlt|Hgt]|Heq];
    [auto | auto |].
  destruct (Qlt_le_dec (availableBatteryPercent (cand_vehicle a))
              (availableBatteryPercent (cand_vehicle b))) as [Hb|Hb].
  - right. right. split; [symmetry; assumption | lra].
  - left. right. split; assumption.
Qed.

Lemma compareCandidates_trans (a b c : RescueCandidate) :
  compareCandidates a b <= 0 -> compareCandidates b c <= 0 ->
  compareCandidates a c <= 0.
Proof.
  rewrite !compareCandidates_le.
  intros [Hab | [Hab Hbat]] [Hbc | [Hbc Hbat']].
  - left. lra.
  - left. lra.
  - left. lra.
  - right. split; lra.
Qed.

Section MatchingFacts.
Context `{JSMath}.

Lemma findNearbyRescueVehicles_unfold (input : RescueMatchInput) :
  findNearbyRescueVehicles input
  = map cand_vehicle
      (Array_sort compareCandidates
         (map (toCandidate input) (List.filter (qualifies input) (vehicles input)))).
Proof.
  unfold findNearbyRescueVehicles.
  rewrite !filter_map_commute, !filter_filter.
  do 3 f_equal. apply List.filter_ext. intros v.
  unfold qualifies. cbn. rewrite !andb_assoc. reflexivity.
Qed.

Lemma qualifies_true (input : RescueMatchInput) (v : CommunityRescueVehicle) :
  qualifies input v = true <->
  supportsReverseCharging v = true
  /\ minimumDonorBatteryPercent input ?? 40 <= availableBatteryPercent v
  /\ haversineKm (match_receiverLocation input) (currentLocation v)
     <= maxDistanceKm input ?? 8
  /\ 35 # 100
     <= routeSimilarityScore (receiverRouteDirection input) (routeDirection v).
Proof.
  unfold qualifies. rewrite !andb_true_iff, !Qleb_true. tauto.
Qed.

(** Candidates in comparator order carry their vehicles in ranking
    order. *)
Lemma sorted_candidates_vehicles (input : RescueMatchInput)
    (l : list RescueCandidate) :
  Forall (fun c => c = toCandidate input (cand_vehicle c)) l ->
  StronglySorted (fun a b => compareCandidates a b <= 0) l ->
  StronglySorted (rankedBefore (match_receiverLocation input)) (map cand_vehicle l).
Proof.
  intros Hfrom Hsorted. revert Hfrom.
  induction Hsorted as [|c l Hsorted IH Hall]; intros Hfrom; cbn; constructor.
  - apply IH. inversion Hfrom; assumption.
  - inversion Hfrom as [|? ? Hc Hl]; subst.
    apply Forall_forall. intros w Hw.
    apply list_elem_of_In, in_map_iff in Hw. destruct Hw as (c' & <- & Hc').
    rewrite Forall_forall in Hall, Hl.
    apply list_elem_of_In in Hc'.
    pose proof (Hall c' Hc') as Hle. cbn in Hle.
    apply compareCandidates_le in Hle.
    rewrite Hc, (Hl c' Hc') in Hle. cbn in Hle. exact Hle.
Qed.

(** C5.  Every vehicle that [findNearbyRescueVehicles] returns supports
    reverse charging, has at least the minimum donor battery, is within the
    maximum distance of the receiver and has a route similarity of at least
    0.35; the list is in non-decreasing order of distance, equal distances
    in non-increasing order of battery percent; and it holds exactly the
    vehicles of the input that meet the four conditions. *)
Theorem findNearbyRescueVehicles_spec (input : RescueMatchInput) :
  Forall (fun v =>
            supportsReverseCharging v = true
            /\ minimumDonorBatteryPercent input ?? 40 <= availableBatteryPercent v
            /\ haversineKm (match_receiverLocation input) (currentLocation v)
               <= maxDistanceKm input ?? 8
            /\ 35 # 100
               <= routeSimilarityScore (receiverRouteDirection input)
                    (routeDirection v))
         (findNearbyRescueVehicles input)
  /\ StronglySorted (rankedBefore (match_receiverLocation input))
       (findNearbyRescueVehicles input)
  /\ Permutation (findNearbyRescueVehicles input)
       (List.filter (qualifies input) (vehicles input)).
Proof.
  rewrite findNearbyRescueVehicles_unfold.
  set (kept := List.filter (qualifies input) (vehicles input)).
  assert (Hperm : Permutation
                    (map cand_vehicle
                       (Array_sort compareCandidates (map (toCandidate input) kept)))
                    kept).
  { rewrite Array_sort_perm, map_map. cbn. rewrite map_id. reflexivity. }
  split; [|split; [|exact Hperm]].
  - rewrite Hperm. apply Forall_forall. intros v Hv.
    apply list_elem_of_In, filter_In in Hv. apply qualifies_true, Hv.
  - pose proof (Array_sort_sorted compareCandidates compareCandidates_total
                  compareCandidates_trans (map (toCandidate input) kept)) as Hsorted.
    pose proof (Array_sort_perm compareCandidates (map (toCandidate input) kept))
      as Hcands.
    assert (Hfrom : Forall (fun c => c = toCandidate input (cand_vehicle c))
                      (Array_sort compareCandidates (map (toCandidate input) kept))).
    { rewrite Hcands. apply Forall_forall. intros c Hc.
      apply list_elem_of_In, in_map_iff in Hc. destruct Hc as (v & <- & _).
      reflexivity. }
    exact (sorted_candidates_vehicles input _ Hfrom Hsorted).
Qed.

End MatchingFacts.

(** ** The point at a distance along the route *)


Lemma sameCoordinate_sym (a b : Coordinate) : sameCoordinate a b -> sameCoordinate b a.
Proof. intros [Hlat Hlng]. split; symmetry; assumption. Qed.





Section RouteFacts.
Context `{JSMath}.

(** A distance is not negative. *)
Lemma haversineKm_nonneg (a b : Coordinate) : 0 <= haversineKm a b.
Proof.
  unfold haversineKm. cbv zeta.
  apply Qmult_le_0_compat; [unfold EARTH_RADIUS_KM; lra|].
  apply Math_atan2_nonneg; apply Math_sqrt_nonneg.
Qed.









End RouteFacts.

(** ** Stop selection *)

Lemma foldl_Math_min (l : list Q) (x : Q) :
  (foldl Math_min x l = x \/ In (foldl Math_min x l) l)
  /\ foldl Math_min x l <= x
  /\ Forall (Qle (foldl Math_min x l)) l.
Proof.
  revert x. induction l as [|y l IH]; intros x; cbn.
  - split; [left; reflexivity|]. split; [lra | constructor].
  - destruct (IH (Math_min x y)) as (Hin & Hle & Hall).
    pose proof (Math_min_l x y) as Hl. pose proof (Math_min_r x y) as Hr.
    split.
    + destruct Hin as [Heq|Hin]; [|right; right; exact Hin].
      rewrite Heq. destruct (Math_min_cases x y) as [[_ ->]|[_ ->]]; auto.
    + split; [lra|]. constructor; [lra | exact Hall].
Qed.








(** The pool is the fast chargers when there is one, else all the
    candidates. *)
Lemma choosePool_fast (available : list StopCandidate) :
  (exists c, In c available /\ MIN_FAST_CHARGER_KW <= power c) ->
  choosePool available = fastCandidates available
  /\ fastCandidates available <> [].
Proof.
  intros (c & Hin & Hfast). unfold choosePool.
  assert (Hc : In c (fastCandidates available)).
  { apply filter_In. split; [assumption | apply Qleb_true, Hfast]. }
  destruct (fastCandidates available) as [|c' l]; [contradiction|].
  split; [reflexivity | discriminate].
Qed.


Lemma choosePool_nonempty (available : list StopCandidate) :
  available <> [] -> choosePool available <> [].
Proof.
  intros Hne. unfold choosePool.
  destruct (fastCandidates available); [assumption | discriminate].
Qed.

Lemma choosePool_subset (available : list StopCandidate) (c : StopCandidate) :
  In c (choosePool available) -> In c available.
Proof.
  unfold choosePool. destruct (fastCandidates available) as [|c' l] eqn:Hfast;
    [auto|].
  rewrite <- Hfast. intros Hc. apply filter_In in Hc. apply Hc.
Qed.

(** The ranking holds the pool with its flags, in order. *)
Lemma rankPool_perm (pool : list StopCandidate) :
  Permutation (rankPool pool) (map (flagCandidate (minDistanceInPool pool)) pool).
Proof. apply Array_sort_perm. Qed.




(** ** The planner's effects *)

Lemma detectSolarStation_detected (tags : gmap string EnergySource) (s : OcmStation) :
  stationDetected (detectSolarStation tags s).
Proof.
  unfold stationDetected, detectSolarStation. cbn.
  eexists. split; reflexivity.
Qed.

Lemma detectSolarStations_detected (tags : gmap string EnergySource)
    (stations : list OcmStation) :
  Forall stationDetected (detectSolarStations stations tags).
Proof.
  unfold detectSolarStations. apply Forall_forall. intros s Hs.
  apply list_elem_of_In, in_map_iff in Hs. destruct Hs as (s0 & <- & _).
  apply detectSolarStation_detected.
Qed.


Section PlannerFacts.
Context `{JSMath}.
Context {W : Type}.
Context (geocodeCity : string -> W -> W * outcome Coordinate).
Context (fetchRoute : Coordinate -> Coordinate -> W -> W * outcome RouteInfo).
Context (fetchNearbyChargingStations :
           NearbyStationsParams -> W -> W * outcome (list OcmStation)).

(** Inversion of a sequence of two steps that returned. *)
Lemma bind_returned {A B : Type} (m : M A) (k : A -> M B)
    (s s' : @PlannerState W) (b : B) :
  bind m k s = (s', Returned b) ->
  exists a s1, m s = (s1, Returned a) /\ k a s1 = (s', Returned b).
Proof.
  unfold bind. destruct (m s) as [s1 [a|e]]; [eauto | discriminate].
Qed.

(** A memoised answer is returned as it is; a fresh one is the directory's
    answer after [detectSolarStations], and is memoised. *)
Lemma fetchChargersNearPoint_returned (point : Coordinate)
    (s s' : @PlannerState W) (nearby : list OcmStation) :
  fetchChargersNearPoint fetchNearbyChargingStations point s = (s', Returned nearby) ->
  (chargerCache s !! chargerCacheKey point = Some nearby /\ s' = s)
  \/ (chargerCache s !! chargerCacheKey point = None
      /\ exists stations,
           nearby = detectSolarStations stations ∅
           /\ chargerCache s' = <[chargerCacheKey point := nearby]> (chargerCache s)).
Proof.
  unfold fetchChargersNearPoint, bind, cacheGet, cacheSet, callWorld, ret.
  destruct (chargerCache s !! chargerCacheKey point) as [cached|] eqn:Hcache.
  - intros Heq. injection Heq as <- <-. left. auto.
  - destruct (fetchNearbyChargingStations _ (world s)) as [w' [stations|e]];
      cbn; [|discriminate].
    intros Heq. injection Heq as <- <-. right.
    split; [reflexivity|]. exists stations. split; reflexivity.
Qed.

Lemma fetchChargersNearPoint_detected (point : Coordinate)
    (s s' : @PlannerState W) (nearby : list OcmStation) :
  cacheDetected s ->
  fetchChargersNearPoint fetchNearbyChargingStations point s = (s', Returned nearby) ->
  Forall stationDetected nearby /\ cacheDetected s'.
Proof.
  intros Hcache Hfetch.
  destruct (fetchChargersNearPoint_returned point s s' nearby Hfetch)
    as [[Hhit ->] | (Hmiss & stations & -> & Hstore)].
  - split; [exact (Hcache _ _ Hhit) | exact Hcache].
  - split; [apply detectSolarStations_detected|].
    intros key l. rewrite Hstore.
    destruct (decide (chargerCacheKey point = key)) as [<-|Hne].
    + rewrite lookup_insert_eq. intros Heq. injection Heq as <-.
      apply detectSolarStations_detected.
    + rewrite lookup_insert_ne by assumption. apply Hcache.
Qed.

Lemma chooseBestStop_unfold (point : Coordinate) (route : list Coordinate)
    (d e : Q) (ids : gset string) (s : @PlannerState W) :
  chooseBestStop fetchNearbyChargingStations point route d e ids s
  = match fetchChargersNearPoint fetchNearbyChargingStations point s with
    | (s', Returned nearby) => (s', Returned (selectStop nearby route d e ids))
    | (s', Thrown err) => (s', Thrown err)
    end.
Proof. reflexivity. Qed.

(** The memo table starts empty and every step of the planner keeps it
    filled with lists that went through [detectSolarStations]. *)
Lemma cacheDetected_empty (w : W) :
  cacheDetected {| world := w; chargerCache := ∅ |}.
Proof.
  intros key stations Hlookup. cbn in Hlookup.
  rewrite lookup_empty in Hlookup. discriminate Hlookup.
Qed.

Lemma preservesCache_ret {A : Type} (a : A) : preservesCache (@ret W A a).
Proof. intros s Hs. exact Hs. Qed.

Lemma preservesCache_throw {A : Type} (e : thrown) : preservesCache (@throw W A e).
Proof. intros s Hs. exact Hs. Qed.

Lemma preservesCache_bind {A B : Type} (m : M A) (k : A -> M B) :
  preservesCache m -> (forall a, preservesCache (k a)) ->
  preservesCache (@bind W A B m k).
Proof.
  intros Hm Hk s Hs. unfold bind. specialize (Hm s Hs).
  destruct (m s) as [s1 [a|e]]; cbn in Hm |- *.
  - apply Hk, Hm.
  - exact Hm.
Qed.

Lemma preservesCache_callWorld {A : Type} (f : W -> W * outcome A) :
  preservesCache (callWorld f).
Proof.
  intros s Hs. unfold callWorld. destruct (f (world s)) as [w' r]. exact Hs.
Qed.

Lemma preservesCache_fetchChargersNearPoint (point : Coordinate) :
  preservesCache (fetchChargersNearPoint fetchNearbyChargingStations point).
Proof.
  intros s Hs.
  destruct (fetchChargersNearPoint fetchNearbyChargingStations point s)
    as [s' [nearby|e]] eqn:Hfetch; cbn.
  - apply (fetchChargersNearPoint_detected point s s' nearby Hs Hfetch).
  - revert Hfetch.
    unfold fetchChargersNearPoint, bind, cacheGet, cacheSet, callWorld, ret.
    destruct (chargerCache s !! chargerCacheKey point); [discriminate|].
    destruct (fetchNearbyChargingStations _ (world s)) as [w' [stations|e']];
      cbn; [discriminate|].
    intros Heq. injection Heq as <- _. exact Hs.
Qed.

Lemma preservesCache_chooseBestStop (point : Coordinate) (route : list Coordinate)
    (d e : Q) (ids : gset string) :
  preservesCache (chooseBestStop fetchNearbyChargingStations point route d e ids).
Proof.
  apply preservesCache_bind; [apply preservesCache_fetchChargersNearPoint|].
  intros nearby. apply preservesCache_ret.
Qed.

Lemma preservesCache_planLegs (params : TripParams) (route : RouteInfo)
    (leg consumption : Q) (details : CommunityRescueDetails) (remaining : nat) :
  forall (i : Z) (stops : list PlannedChargingStop) (ids : gset string),
    preservesCache
      (planLegs fetchNearbyChargingStations params route leg consumption details
         remaining i stops ids).
Proof.
  induction remaining as [|remaining IH]; intros i stops ids; cbn [planLegs].
  - apply preservesCache_ret.
  - apply preservesCache_bind; [apply preservesCache_chooseBestStop|].
    intros [[stop|] ids']; [apply IH|].
    destruct (shouldTriggerRescue _ && rescueEnabled params);
      [|apply preservesCache_throw].
    apply preservesCache_bind.
    + apply preservesCache_bind; [apply preservesCache_fetchChargersNearPoint|].
      intros stations. apply preservesCache_ret.
    + intros sim. destruct (rescueFound sim);
        [apply preservesCache_ret | apply preservesCache_throw].
Qed.

Lemma preservesCache_planEvTrip (params : TripParams) :
  preservesCache
    (planEvTrip geocodeCity fetchRoute fetchNearbyChargingStations params).
Proof.
  assert (Hbody : preservesCache
            (planEvTripBody geocodeCity fetchRoute fetchNearbyChargingStations
               params)).
  { unfold planEvTripBody.
    apply preservesCache_bind; [apply preservesCache_callWorld|]. intros a.
    apply preservesCache_bind; [apply preservesCache_callWorld|]. intros b.
    apply preservesCache_bind; [apply preservesCache_callWorld|]. intros route.
    cbv zeta. destruct (route_distanceKm route <=? _); [apply preservesCache_ret|].
    destruct (toFixed _ 2 <=? 0); [apply preservesCache_throw|].
    apply preservesCache_bind; [apply preservesCache_planLegs|].
    intros [stops details]. apply preservesCache_ret. }
  intros s Hs. specialize (Hbody s Hs). unfold planEvTrip.
  destruct (planEvTripBody _ _ _ params s) as [s' [r|e]]; exact Hbody.
Qed.

End PlannerFacts.

(** ** Selection of the best stop *)

Section SelectionFacts.
Context `{JSMath}.

Lemma availableCandidates_In (nearby : list OcmStation) (route : list Coordinate)
    (ids : gset string) (c : StopCandidate) :
  In c (availableCandidates nearby route ids) ->
  In (station c) nearby
  /\ (id (station c) ∉ ids)
  /\ power c = maxPowerKwOf (station c)
  /\ cand_solar c = isSolarPowered (station c).
Proof.
  unfold availableCandidates. intros Hc.
  apply in_map_iff in Hc. destruct Hc as (s & <- & Hs).
  apply filter_In in Hs. destruct Hs as [Hin Hfree]. cbn.
  split; [assumption|]. split; [|split; reflexivity].
  apply negb_true_iff, bool_decide_eq_false in Hfree. exact Hfree.
Qed.

Lemma maxPowerKwOf_fast (s : OcmStation) :
  MIN_FAST_CHARGER_KW <= maxPowerKwOf s <-> MIN_FAST_CHARGER_KW <= maxPowerKw s.
Proof.
  unfold maxPowerKwOf, MIN_FAST_CHARGER_KW.
  destruct (maxPowerKw s =? 0) eqn:Hzero; [|reflexivity].
  apply Qeqb_true in Hzero. split; intros Hle; lra.
Qed.

Lemma rankPool_In (pool : list StopCandidate) (r : RankedCandidate) :
  In r (rankPool pool) <->
  exists c, In c pool /\ r = flagCandidate (minDistanceInPool pool) c.
Proof.
  rewrite <- !list_elem_of_In, (rankPool_perm pool), list_elem_of_In, in_map_iff.
  split; intros (c & H1 & H2); exists c; auto.
Qed.

(** What [selectStop] answers when there is a candidate. *)
Lemma selectStop_picks (nearby : list OcmStation) (route : list Coordinate)
    (d e : Q) (ids : gset string) :
  choosePool (availableCandidates nearby route ids) <> [] ->
  exists picked,
    head (rankPool (choosePool (availableCandidates nearby route ids))) = Some picked
    /\ selectStop nearby route d e ids
       = (Some (toPlannedStop picked d e),
          {[ id (station (candidate picked)) ]} ∪ ids).
Proof.
  intros Hpool. unfold selectStop.
  set (available := availableCandidates nearby route ids) in *.
  assert (Havailable : available <> []).
  { intros Hnil. apply Hpool. rewrite Hnil. reflexivity. }
  assert (Hnearby : nearby <> []).
  { intros ->. apply Havailable. reflexivity. }
  destruct nearby as [|s0 nearby0]; [congruence|].
  destruct available as [|c0 available0] eqn:Havail; [congruence|].
  rewrite <- Havail in *.
  assert (Hranked : rankPool (choosePool available) <> []).
  { intros Hnil. pose proof (rankPool_perm (choosePool available)) as Hperm.
    rewrite Hnil in Hperm. apply Permutation_nil in Hperm.
    apply map_eq_nil in Hperm. contradiction. }
  destruct (rankPool (choosePool available)) as [|picked ranked];
    [congruence|].
  exists picked. split; reflexivity.
Qed.

(** Whatever [selectStop] picks was not selected before, and is selected
    afterwards. *)
Lemma selectStop_fresh (nearby : list OcmStation) (route : list Coordinate)
    (d e : Q) (ids ids' : gset string) (stop : PlannedChargingStop) :
  selectStop nearby route d e ids = (Some stop, ids') ->
  (stop_id stop ∉ ids) /\ ids' = {[ stop_id stop ]} ∪ ids.
Proof.
  unfold selectStop. destruct nearby as [|s0 nearby0]; [discriminate|].
  set (available := availableCandidates (s0 :: nearby0) route ids).
  destruct available as [|c0 available0] eqn:Havail; [discriminate|].
  rewrite <- Havail.
  destruct (head (rankPool (choosePool available))) as [picked|] eqn:Hhead;
    [|discriminate].
  intros Heq. injection Heq as <- <-. cbn [stop_id toPlannedStop].
  split; [|reflexivity].
  assert (Hin : In picked (rankPool (choosePool available))).
  { destruct (rankPool (choosePool available)); [discriminate|].
    injection Hhead as ->. left. reflexivity. }
  apply rankPool_In in Hin. destruct Hin as (c & Hc & ->). cbn.
  apply choosePool_subset in Hc.
  apply availableCandidates_In in Hc. apply Hc.
Qed.

Lemma selectStop_none (nearby : list OcmStation) (route : list Coordinate)
    (d e : Q) (ids ids' : gset string) :
  selectStop nearby route d e ids = (None, ids') -> ids' = ids.
Proof.
  unfold selectStop. destruct nearby as [|s0 nearby0]; [congruence|].
  destruct (availableCandidates (s0 :: nearby0) route ids); [congruence|].
  destruct (head (rankPool (choosePool (s :: l)))); [discriminate | congruence].
Qed.

End SelectionFacts.

Section ChooseBestStop.
Context `{JSMath}.
Context {W : Type}.
Context (fetchNearbyChargingStations :
           NearbyStationsParams -> W -> W * outcome (list OcmStation)).


End ChooseBestStop.

(** ** The trip plan *)

Section PlanFacts.
Context `{JSMath}.
Context {W : Type}.
Context (geocodeCity : string -> W -> W * outcome Coordinate).
Context (fetchRoute : Coordinate -> Coordinate -> W -> W * outcome RouteInfo).
Context (fetchNearbyChargingStations :
           NearbyStationsParams -> W -> W * outcome (list OcmStation)).

Lemma chooseBestStop_returned (point : Coordinate) (route : list Coordinate)
    (d e : Q) (ids : gset string) (s s' : @PlannerState W)
    (chosen : option PlannedChargingStop * gset string) :
  chooseBestStop fetchNearbyChargingStations point route d e ids s
  = (s', Returned chosen) ->
  exists nearby, chosen = selectStop nearby route d e ids.
Proof.
  rewrite chooseBestStop_unfold.
  destruct (fetchChargersNearPoint fetchNearbyChargingStations point s)
    as [s1 [nearby|err]]; [|discriminate].
  intros Heq. injection Heq as _ <-. exists nearby. reflexivity.
Qed.

(** The segmentation loop keeps the station ids of the stops distinct:
    they are all in the set of selected ids, and each new stop is outside
    it. *)
Lemma planLegs_distinct (params : TripParams) (route : RouteInfo)
    (leg consumption : Q) (details : CommunityRescueDetails) (remaining : nat) :
  forall (i : Z) (stops : list PlannedChargingStop) (ids : gset string)
         (s s' : @PlannerState W) (out : list PlannedChargingStop)
         (details' : CommunityRescueDetails),
    planLegs fetchNearbyChargingStations params route leg consumption details
      remaining i stops ids s = (s', Returned (out, details')) ->
    NoDup (map stop_id stops) ->
    (forall x, x ∈ map stop_id stops -> x ∈ ids) ->
    NoDup (map stop_id out).
Proof.
  induction remaining as [|remaining IH];
    intros i stops ids s s' out details' Hplan Hnodup Hsub.
  - cbn in Hplan. injection Hplan as _ <- _. exact Hnodup.
  - cbn [planLegs] in Hplan.
    apply bind_returned in Hplan. destruct Hplan as (chosen & s1 & Hchoose & Hrest).
    apply chooseBestStop_returned in Hchoose. destruct Hchoose as (nearby & ->).
    destruct (selectStop nearby _ _ _ ids) as [[stop|] ids'] eqn:Hselect.
    + apply selectStop_fresh in Hselect. destruct Hselect as [Hfresh ->].
      apply (IH _ _ _ _ _ _ _ Hrest).
      * rewrite map_app. apply NoDup_app. split; [exact Hnodup|]. split.
        -- intros x Hx Hx'. cbn in Hx'. apply list_elem_of_singleton in Hx'.
           subst x. apply Hfresh, Hsub, Hx.
        -- apply NoDup_singleton.
      * intros x. rewrite map_app, elem_of_app. cbn.
        rewrite list_elem_of_singleton, elem_of_union, elem_of_singleton.
        intros [Hx | ->]; [right; apply Hsub, Hx | left; reflexivity].
    + destruct (shouldTriggerRescue _ && rescueEnabled params);
        [|discriminate].
      apply bind_returned in Hrest.
      destruct Hrest as (sim & s2 & _ & Hrest).
      destruct (rescueFound sim); [|discriminate].
      injection Hrest as _ <- _. exact Hnodup.
Qed.

(** C4.  Whenever [planEvTrip] returns a plan, the station ids of its
    charging stops are pairwise distinct. *)
Theorem planEvTrip_distinct_stops (params : TripParams)
    (s s' : @PlannerState W) (r : RoutePlanResult) :
  planEvTrip geocodeCity fetchRoute fetchNearbyChargingStations params s
  = (s', Returned r) ->
  NoDup (map stop_id (chargingStops r)).
Proof.
  unfold planEvTrip.
  destruct (planEvTripBody geocodeCity fetchRoute fetchNearbyChargingStations
              params s) as [s1 [r1|err]] eqn:Hbody; [|discriminate].
  intros Heq. injection Heq as _ <-.
  unfold planEvTripBody in Hbody.
  apply bind_returned in Hbody. destruct Hbody as (a & s2 & _ & Hbody).
  apply bind_returned in Hbody. destruct Hbody as (b & s3 & _ & Hbody).
  apply bind_returned in Hbody. destruct Hbody as (route & s4 & _ & Hbody).
  cbv zeta in Hbody.
  destruct (route_distanceKm route <=? _).
  { injection Hbody as _ <-. cbn. constructor. }
  destruct (toFixed _ 2 <=? 0); [discriminate|].
  apply bind_returned in Hbody.
  destruct Hbody as ([stops details] & s5 & Hlegs & Hbody).
  injection Hbody as _ <-. cbn [chargingStops].
  apply (planLegs_distinct _ _ _ _ _ _ _ _ _ _ _ _ _ Hlegs).
  - constructor.
  - intros x Hx. cbn in Hx. apply elem_of_nil in Hx. contradiction.
Qed.

(** For a battery level within 0..100 and a range that is not negative,
    the usable range is battery/100 x range rounded to two decimals, so a
    distance of at most two decimals (as the router reports it) that is
    within battery/100 x range is within the usable range. *)
Lemma calculateUsableRangeKm_formula (maxRange battery : Q) :
  0 <= battery <= 100 -> 0 <= maxRange ->
  calculateUsableRangeKm maxRange battery == toFixed (battery / 100 * maxRange) 2.
Proof.
  intros [Hlo Hhi] Hrange. unfold calculateUsableRangeKm. cbv zeta.
  apply toFixed_proper; [|reflexivity].
  assert (Hb : Math_min (Math_max battery 0) 100 == battery).
  { destruct (Math_max_cases battery 0) as [[Hle ->]|[Hlt ->]];
      unfold Math_min; cases_Q; lra. }
  assert (Hr : Math_max maxRange 0 == maxRange).
  { unfold Math_max. cases_Q; lra. }
  rewrite Hb, Hr. reflexivity.
Qed.

Lemma calculateUsableRangeKm_covers (maxRange battery distance : Q) :
  0 <= battery <= 100 -> 0 <= maxRange -> isDecimal 2 distance ->
  distance <= battery / 100 * maxRange ->
  distance <= calculateUsableRangeKm maxRange battery.
Proof.
  intros Hbattery Hrange Hdecimal Hle.
  rewrite (calculateUsableRangeKm_formula _ _ Hbattery Hrange).
  rewrite <- (toFixed_isDecimal _ _ Hdecimal). apply toFixed_mono, Hle.
Qed.

(** C3.  When both places resolve, the route is fetched, and its distance
    is at most the usable range computed from the vehicle's range and
    battery, [planEvTrip] returns a plan that requires no charging: no
    charging stop, zero stops required, and a community rescue that was not
    triggered. *)
Theorem planEvTrip_no_charging (params : TripParams) (s : @PlannerState W)
    (w1 w2 w3 : W) (a b : Coordinate) (route : RouteInfo) :
  geocodeCity (startLocation params) (world s) = (w1, Returned a) ->
  geocodeCity (params_destination params) w1 = (w2, Returned b) ->
  fetchRoute a b w2 = (w3, Returned route) ->
  route_distanceKm route
  <= calculateUsableRangeKm (evMaxRangeKm params) (currentBatteryPercent params) ->
  exists r,
    planEvTrip geocodeCity fetchRoute fetchNearbyChargingStations params s
    = ({| world := w3; chargerCache := chargerCache s |}, Returned r)
    /\ requiresCharging r = false
    /\ chargingStops r = []
    /\ chargingStopsRequired r = 0%nat
    /\ (exists rescue, communityRescue r = Some rescue /\ triggered rescue = false)
    /\ totalDistanceKm r = route_distanceKm route
    /\ usableRangeKm r
       = calculateUsableRangeKm (evMaxRangeKm params) (currentBatteryPercent params).
Proof.
  intros Hstart Hdestination Hroute Hreach.
  apply Qleb_true in Hreach.
  unfold planEvTrip, planEvTripBody, bind, callWorld, ret.
  rewrite Hstart. cbn [world chargerCache]. rewrite Hdestination.
  cbn [world chargerCache]. rewrite Hroute. cbn [world chargerCache].
  cbv zeta. rewrite Hreach.
  eexists. split; [reflexivity|]. cbn.
  repeat split. eexists. split; reflexivity.
Qed.

End PlanFacts.

(** ** The theorems on the sample data *)


(** C3 on the scenario of the specification: 80 % of 300 km is 240 km,
    the route is 150 km long, and the plan has no stop. *)
Lemma planEvTrip_no_charging_witness :
  calculateUsableRangeKm 300 80 == 240
  /\ exists r,
       Sample.plan 150 300 80 = (Sample.initialState, Returned r)
       /\ requiresCharging r = false
       /\ chargingStops r = [].
Proof.
  split; [vm_compute; reflexivity|].
  assert (Hreach : route_distanceKm (Sample.sampleRoute 150)
                   <= calculateUsableRangeKm (evMaxRangeKm (Sample.trip 300 80))
                        (currentBatteryPercent (Sample.trip 300 80)))
    by (vm_compute; discriminate).
  destruct (@planEvTrip_no_charging Sample.flatMath unit Sample.geocodeCity
              (Sample.fetchRoute 150) Sample.fetchNearbyChargingStations
              (Sample.trip 300 80) Sample.initialState tt tt tt
              Sample.here Sample.here (Sample.sampleRoute 150)
              eq_refl eq_refl eq_refl Hreach)
    as (r & Hplan & Hcharging & Hstops & _).
  exists r. split; [exact Hplan|]. split; assumption.
Defined.

(** C4 on a 500 km trip with 240 km of usable range: the plan returns with
    two stops, at distinct stations. *)
Lemma planEvTrip_distinct_stops_witness :
  exists s' r,
    Sample.plan 500 300 80 = (s', Returned r)
    /\ map stop_id (chargingStops r) = ["101"; "102"]
    /\ NoDup (map stop_id (chargingStops r)).
Proof.
  destruct (Sample.plan 500 300 80) as [s' [r|err]] eqn:Hplan.
  - exists s', r. split; [reflexivity|]. split.
    + pose proof Hplan as Hvalue. vm_compute in Hvalue.
      injection Hvalue as _ <-. reflexivity.
    + exact (@planEvTrip_distinct_stops Sample.flatMath unit Sample.geocodeCity
               (Sample.fetchRoute 500) Sample.fetchNearbyChargingStations
               (Sample.trip 300 80) Sample.initialState s' r Hplan).
  - vm_compute in Hplan. discriminate Hplan.
Defined.


(** ** Further properties: directions *)

Lemma lowerChar_idem (c : ascii) : lowerChar (lowerChar c) = lowerChar c.
Proof. destruct c as [[] [] [] [] [] [] [] []]; reflexivity. Qed.

Lemma isWhiteSpace_lowerChar (c : ascii) : isWhiteSpace (lowerChar c) = isWhiteSpace c.
Proof. destruct c as [[] [] [] [] [] [] [] []]; reflexivity. Qed.

Lemma toLowerCase_idem (s : string) : toLowerCase (toLowerCase s) = toLowerCase s.
Proof. induction s as [|c s IH]; simpl; [reflexivity|]. by rewrite lowerChar_idem, IH. Qed.

Lemma toLowerCase_app (s t : string) :
  toLowerCase (s +:+ t) = toLowerCase s +:+ toLowerCase t.
Proof. induction s as [|c s IH]; simpl; [reflexivity|]. by rewrite IH. Qed.

Lemma trimStart_toLowerCase (s : string) :
  trimStart (toLowerCase s) = toLowerCase (trimStart s).
Proof.
  induction s as [|c s IH]; simpl; [reflexivity|].
  rewrite isWhiteSpace_lowerChar. destruct (isWhiteSpace c); [exact IH|reflexivity].
Qed.

Lemma trimEnd_toLowerCase (s : string) :
  trimEnd (toLowerCase s) = toLowerCase (trimEnd s).
Proof.
  induction s as [|c s IH]; simpl; [reflexivity|].
  rewrite IH, isWhiteSpace_lowerChar.
  destruct (trimEnd s); simpl; [destruct (isWhiteSpace c)|]; reflexivity.
Qed.

Lemma trim_toLowerCase (s : string) : trim (toLowerCase s) = toLowerCase (trim s).
Proof. unfold trim. by rewrite trimStart_toLowerCase, trimEnd_toLowerCase. Qed.

Lemma trimStart_clean (s : string) : startsClean (trimStart s).
Proof.
  induction s as [|c s IH]; simpl; [exact I|].
  destruct (isWhiteSpace c) eqn:E; [exact IH|exact E].
Qed.

Lemma trimStart_of_clean (s : string) : startsClean s -> trimStart s = s.
Proof. destruct s as [|c s]; simpl; [reflexivity|]. by intros ->. Qed.

Lemma trimEnd_clean (s : string) : startsClean s -> startsClean (trimEnd s).
Proof.
  destruct s as [|c s]; simpl; [auto|]. intros E.
  destruct (trimEnd s); simpl; [rewrite E|]; exact E.
Qed.

Lemma trimEnd_idem (s : string) : trimEnd (trimEnd s) = trimEnd s.
Proof.
  induction s as [|c s IH]; simpl; [reflexivity|].
  destruct (trimEnd s) as [|c' t] eqn:E.
  - destruct (isWhiteSpace c) eqn:Ec; simpl; [reflexivity|]. by rewrite Ec.
  - change (trimEnd (String c (String c' t))) with
      (match trimEnd (String c' t) with
       | EmptyString => if isWhiteSpace c then EmptyString else String c EmptyString
       | u => String c u
       end).
    by rewrite IH.
Qed.

Lemma trim_idem (s : string) : trim (trim s) = trim s.
Proof.
  unfold trim.
  rewrite (trimStart_of_clean (trimEnd (trimStart s)))
    by apply trimEnd_clean, trimStart_clean.
  apply trimEnd_idem.
Qed.

Lemma normalizedRoute_toLowerCase (s : string) :
  normalizedRoute (toLowerCase s) = normalizedRoute s.
Proof. unfold normalizedRoute. by rewrite trim_toLowerCase, toLowerCase_idem. Qed.

Lemma normalizedRoute_trim (s : string) : normalizedRoute (trim s) = normalizedRoute s.
Proof. unfold normalizedRoute. by rewrite trim_idem. Qed.

Lemma routeSimilarityScore_normalized (a a' b b' : string) :
  normalizedRoute a = normalizedRoute a' -> normalizedRoute b = normalizedRoute b' ->
  routeSimilarityScore a b = routeSimilarityScore a' b'.
Proof.
  unfold routeSimilarityScore, normalizedRoute. by intros -> ->.
Qed.

(** X1.  [routeSimilarityScore] reads its two directions without regard to
    letter case or to white space around them: putting either direction in
    lower case, or trimming it, leaves the score as it is. *)
Theorem routeSimilarityScore_case_and_padding (routeA routeB : string) :
  routeSimilarityScore (toLowerCase routeA) routeB = routeSimilarityScore routeA routeB
  /\ routeSimilarityScore routeA (toLowerCase routeB) = routeSimilarityScore routeA routeB
  /\ routeSimilarityScore (trim routeA) routeB = routeSimilarityScore routeA routeB
  /\ routeSimilarityScore routeA (trim routeB) = routeSimilarityScore routeA routeB.
Proof.
  repeat split; apply routeSimilarityScore_normalized;
    auto using normalizedRoute_toLowerCase, normalizedRoute_trim.
Qed.

Lemma ratio_unit (n m : nat) :
  (n <= m)%nat -> (0 < m)%nat ->
  0 <= inject_Z (Z.of_nat n) / inject_Z (Z.of_nat m) <= 1.
Proof.
  intros Hnm Hm.
  assert (0 < inject_Z (Z.of_nat m)) as Hpos.
  { change 0 with (inject_Z 0). rewrite <- Zlt_Qlt. lia. }
  assert (0 <= inject_Z (Z.of_nat n)) as Hn.
  { change 0 with (inject_Z 0). rewrite <- Zle_Qle. lia. }
  assert (inject_Z (Z.of_nat n) <= inject_Z (Z.of_nat m)) as Hle.
  { rewrite <- Zle_Qle. lia. }
  split.
  - apply Qle_shift_div_l; [exact Hpos|]. lra.
  - apply Qle_shift_div_r; [exact Hpos|]. lra.
Qed.

(** X2.  [routeSimilarityScore] is symmetric in its two directions, and
    every score lies between 0 and 1. *)
Theorem routeSimilarityScore_symmetric_unit (routeA routeB : string) :
  routeSimilarityScore routeA routeB = routeSimilarityScore routeB routeA
  /\ 0 <= routeSimilarityScore routeA routeB <= 1.
Proof.
  unfold routeSimilarityScore.
  set (a := toLowerCase (trim routeA)). set (b := toLowerCase (trim routeB)).
  destruct (isEmpty a), (isEmpty b); simpl; try (split; [reflexivity|lra]).
  destruct (bool_decide (a = b)) eqn:Eab.
  - apply bool_decide_eq_true in Eab.
    rewrite (bool_decide_eq_true_2 (b = a)) by done. split; [reflexivity|lra].
  - apply bool_decide_eq_false in Eab.
    rewrite (bool_decide_eq_false_2 (b = a)) by congruence.
    rewrite (orb_comm (includes b a)).
    destruct (includes a b || includes b a); [split; [reflexivity|lra]|].
    rewrite (orb_comm (length (Set_of (tokens b)) =? 0)%nat).
    destruct ((length (Set_of (tokens a)) =? 0)%nat) eqn:Ea;
      [split; [reflexivity|simpl; lra]|].
    destruct ((length (Set_of (tokens b)) =? 0)%nat) eqn:Eb;
      [split; [reflexivity|simpl; lra]|].
    simpl. apply Nat.eqb_neq in Ea, Eb. split.
    + rewrite !overlap_size, (comm_L (∩) (tokenSet b)), Nat.max_comm. reflexivity.
    + apply ratio_unit; [|lia].
      etrans; [apply List.filter_length_le|]. lia.
Qed.

(** ** Further properties: reverse charging *)

Section SortHead.
Context {A : Type} (cmp : A -> A -> Q).
Hypothesis cmp_total : forall a b, cmp a b <= 0 \/ cmp b a <= 0.
Hypothesis cmp_trans : forall a b c, cmp a b <= 0 -> cmp b c <= 0 -> cmp a c <= 0.

Lemma Array_sort_head (l : list A) (x : A) :
  head (Array_sort cmp l) = Some x ->
  In x l /\ forall y, In y l -> cmp x y <= 0.
Proof.
  intros Hhead.
  pose proof (Array_sort_sorted cmp cmp_total cmp_trans l) as Hsorted.
  pose proof (Array_sort_perm cmp l) as Hperm.
  destruct (Array_sort cmp l) as [|x' rest]; [discriminate|].
  injection Hhead as ->. split.
  - apply (Permutation_in _ Hperm). left. reflexivity.
  - intros y Hy. apply (Permutation_in _ (Permutation_sym Hperm)) in Hy.
    destruct Hy as [<-|Hy].
    + destruct (cmp_total x x); assumption.
    + apply StronglySorted_inv in Hsorted as [_ Hall].
      rewrite List.Forall_forall in Hall. apply Hall, Hy.
Qed.

Lemma Array_sort_head_None (l : list A) :
  head (Array_sort cmp l) = None -> l = [].
Proof.
  intros Hhead. pose proof (Array_sort_perm cmp l) as Hperm.
  destruct (Array_sort cmp l); [|discriminate].
  apply Permutation_nil in Hperm. exact Hperm.
Qed.
End SortHead.

Section RescueMore.
Context `{JSMath}.

Lemma nearestStation_Some (input : RescueSimulationInput) (station : OcmStation) (d : Q) :
  nearestStation input = Some (station, d) ->
  In station (chargingStations input)
  /\ d = stationDistanceKm input station
  /\ forall other, In other (chargingStations input) ->
                   stationDistanceKm input station <= stationDistanceKm input other.
Proof.
  unfold nearestStation. intros Hhead.
  apply Array_sort_head in Hhead as [Hin Hmin].
  - apply in_map_iff in Hin as (s0 & Heq & Hin). injection Heq as -> <-.
    split; [exact Hin|]. split; [reflexivity|].
    intros other Hother.
    specialize (Hmin (other, stationDistanceKm input other)).
    simpl in Hmin. unfold stationDistanceKm in *.
    assert (haversineKm (receiverLocation input)
              {| lat := latitude station; lng := longitude station |}
            - haversineKm (receiverLocation input)
                {| lat := latitude other; lng := longitude other |} <= 0) as Hle.
    { apply Hmin. apply in_map_iff. exists other. split; [reflexivity|exact Hother]. }
    lra.
  - intros a b. destruct (Qlt_le_dec (snd a) (snd b)); [left|right]; lra.
  - intros a b c. lra.
Qed.

Lemma nearestStation_None (input : RescueSimulationInput) :
  nearestStation input = None -> chargingStations input = [].
Proof.
  unfold nearestStation. intros Hhead. apply Array_sort_head_None in Hhead.
  destruct (chargingStations input); [reflexivity|discriminate].
Qed.

Lemma simulateReverseCharging_accepted (input : RescueSimulationInput)
    (donor : CommunityRescueVehicle) (rest : list CommunityRescueVehicle) :
  truthy (oneRescuePerTrip input) && truthy (alreadyRescuedOnTrip input) = false ->
  rescueCandidates input = donor :: rest ->
  0 < transferKwh input donor ->
  rescueFound (simulateReverseCharging input) = true
  /\ donorVehicleId (simulateReverseCharging input) = Some (vehicleId donor)
  /\ transferredEnergyKwh (simulateReverseCharging input)
     = toFixed (transferKwh input donor) 2
  /\ emergencyRangeGainedKm (simulateReverseCharging input)
     = toFixed (transferKwh input donor * (receiverKmPerKwh input ?? (45 # 10))) 1.
Proof.
  intros Hlimit Hcandidates Hpositive. unfold simulateReverseCharging.
  rewrite Hlimit, Hcandidates.
  destruct (transferKwh input donor <=? 0) eqn:Et; [apply Qleb_true in Et; lra|].
  simpl. repeat split.
Qed.


(** X4.  After an accepted rescue [simulateReverseCharging] reports a
    charger as reachable exactly when some charging station of the input
    lies within the emergency range gained; the charger it then names is a
    station of the input that no other station is nearer than; when none is
    in range it names no charger. *)
Theorem simulateReverseCharging_nearest_charger (input : RescueSimulationInput) :
  rescueFound (simulateReverseCharging input) = true ->
  let r := simulateReverseCharging input in
  (nearestChargerReachable r = true <->
   exists station,
     In station (chargingStations input)
     /\ stationDistanceKm input station <= emergencyRangeGainedKm r)
  /\ (nearestChargerReachable r = true ->
      exists station,
        In station (chargingStations input)
        /\ nearestReachableChargerId r = Some (id station)
        /\ nearestReachableChargerName r = Some (name station)
        /\ stationDistanceKm input station <= emergencyRangeGainedKm r
        /\ forall other, In other (chargingStations input) ->
                         stationDistanceKm input station
                         <= stationDistanceKm input other)
  /\ (nearestChargerReachable r = false ->
      nearestReachableChargerId r = None /\ nearestReachableChargerName r = None).
Proof.
  unfold simulateReverseCharging.
  destruct (truthy (oneRescuePerTrip input) && truthy (alreadyRescuedOnTrip input));
    [discriminate|].
  destruct (rescueCandidates input) as [|donor rest]; [discriminate|].
  destruct (transferKwh input donor <=? 0); [discriminate|].
  intros _. cbv zeta. simpl.
  set (range := toFixed (transferKwh input donor * (receiverKmPerKwh input ?? (45 # 10))) 1).
  destruct (nearestStation input) as [[station d]|] eqn:Enear.
  - apply nearestStation_Some in Enear as (Hin & -> & Hmin).
    destruct (stationDistanceKm input station <=? range) eqn:Ereach.
    + apply Qleb_true in Ereach. split; [|split].
      * split; [intros _|reflexivity]. exists station. split; assumption.
      * intros _. exists station. simpl. repeat split; assumption.
      * discriminate.
    + apply Qleb_false in Ereach. split; [|split].
      * split; [discriminate|]. intros (other & Hother & Hle).
        specialize (Hmin other Hother). lra.
      * discriminate.
      * intros _. split; reflexivity.
  - apply nearestStation_None in Enear. split; [|split].
    + split; [discriminate|]. intros (other & Hother & _).
      rewrite Enear in Hother. destruct Hother.
    + discriminate.
    + intros _. split; reflexivity.
Qed.
End RescueMore.

Lemma simulateReverseCharging_nearest_charger_witness :
  exists station,
    In station Cases.nearStations
    /\ nearestReachableChargerId
         (@simulateReverseCharging Sample.flatMath Cases.rescueNearCharger)
       = Some (id station)
    /\ id station = "201".
Proof.
  assert (rescueFound (@simulateReverseCharging Sample.flatMath Cases.rescueNearCharger)
          = true) as Hfound by (vm_compute; reflexivity).
  assert (nearestReachableChargerId
            (@simulateReverseCharging Sample.flatMath Cases.rescueNearCharger)
          = Some "201") as Hnearest by (vm_compute; reflexivity).
  destruct (@simulateReverseCharging_nearest_charger Sample.flatMath
              Cases.rescueNearCharger Hfound) as (_ & Hnamed & _).
  destruct Hnamed as (station & Hin & Hid & _); [vm_compute; reflexivity|].
  exists station. split; [exact Hin|]. split; [exact Hid|].
  rewrite Hnearest in Hid. injection Hid as <-. reflexivity.
Defined.

(** ** Further properties: energy source and cost *)



Lemma toFixed_0 (d : nat) : toFixed 0 d == 0.
Proof. apply toFixed_isDecimal. exists 0%Z. unfold Qdiv. ring. Qed.

Lemma toFixed_zero (x : Q) (d : nat) : x == 0 -> toFixed x d == 0.
Proof.
  intros Hx. transitivity (toFixed 0 d); [|apply toFixed_0].
  apply toFixed_proper; [exact Hx|reflexivity].
Qed.

(** X6.  For every cost option whose base price is not negative and whose
    discount for the station's source lies between 0 and 100,
    [calculateSolarDiscountedCost] gives an effective price between 0 and
    the base price rounded to 2 decimals and a total that is not negative;
    the total does not decrease when the energy counted grows, and it is 0
    when the energy is negative or not finite. *)
Theorem calculateSolarDiscountedCost_bounds (energy : jsnumber) (station : OcmStation)
    (options : option CostOptions) :
  0 <= cost_basePricePerKwh (calculateSolarDiscountedCost energy station options) ->
  0 <= discountAppliedPercent (calculateSolarDiscountedCost energy station options)
    <= 100 ->
  let c := calculateSolarDiscountedCost energy station options in
  0 <= effectivePricePerKwh c <= toFixed (cost_basePricePerKwh c) 2
  /\ 0 <= totalCost c
  /\ (forall energy',
         chargedUnits energy <= chargedUnits energy' ->
         totalCost c <= totalCost (calculateSolarDiscountedCost energy' station options))
  /\ (chargedUnits energy == 0 -> totalCost c == 0).
Proof.
  unfold calculateSolarDiscountedCost. simpl.
  set (base := optionField options basePricePerKwh 12).
  set (discount := match energySource station ?? grid with
                   | solar => optionField options solarDiscountPercent 35
                   | grid => 0
                   | hybrid => optionField options hybridDiscountPercent 20
                   end).
  intros Hbase [Hlow Hhigh].
  assert (0 <= base * (1 - discount / 100) <= base) as [Hprice Hprice'].
  { change (discount / 100) with (discount * (1 # 100)). clearbody base discount.
    split; nra. }
  assert (0 <= toFixed (base * (1 - discount / 100)) 2) as Heff
    by (apply toFixed_nonneg, Hprice).
  pose proof (chargedUnits_nonneg energy) as Hunits.
  split; [split; [exact Heff|apply toFixed_mono, Hprice']|].
  split; [apply toFixed_nonneg; nra|].
  split.
  - intros energy' Hle. apply toFixed_mono. nra.
  - intros Hzero. apply toFixed_zero. rewrite Hzero. ring.
Qed.

Lemma calculateSolarDiscountedCost_bounds_witness :
  0 <= totalCost (calculateSolarDiscountedCost (Finite 10)
                    (Sample.stationOf "102" 13 77 120 solar) (baseTariff 12)).
Proof.
  apply (calculateSolarDiscountedCost_bounds (Finite 10)
           (Sample.stationOf "102" 13 77 120 solar) (baseTariff 12)).
  - vm_compute. discriminate.
  - split; vm_compute; discriminate.
Defined.

(** ** Further properties: usable range *)


Lemma clamp_percent_cases (b : Q) :
  (b <= 0 /\ Math_min (Math_max b 0) 100 = 0)
  \/ (0 < b <= 100 /\ Math_min (Math_max b 0) 100 = b)
  \/ (100 < b /\ Math_min (Math_max b 0) 100 = 100).
Proof.
  destruct (Math_max_cases b 0) as [[H0 ->]|[H0 ->]].
  - left. split; [exact H0|]. reflexivity.
  - destruct (Math_min_cases b 100) as [[H1 ->]|[H1 ->]].
    + right. left. split; [split; assumption|reflexivity].
    + right. right. split; [assumption|reflexivity].
Qed.


(** X7.  [calculateUsableRangeKm] clamps the battery to 0..100 and the
    range to 0 and up: the result lies between 0 and the range rounded to 2
    decimals, is 0 for an empty battery or a range that is not positive, is
    the rounded range itself from 100 % on, and does not decrease when the
    battery or the range grows. *)
Theorem calculateUsableRangeKm_bounds (maxRange battery : Q) :
  0 <= calculateUsableRangeKm maxRange battery
    <= toFixed (Math_max maxRange 0) 2
  /\ (battery <= 0 \/ maxRange <= 0 ->
      calculateUsableRangeKm maxRange battery == 0)
  /\ (100 <= battery ->
      calculateUsableRangeKm maxRange battery
      == toFixed (Math_max maxRange 0) 2)
  /\ (forall maxRange' battery',
         maxRange <= maxRange' -> battery <= battery' ->
         calculateUsableRangeKm maxRange battery
         <= calculateUsableRangeKm maxRange' battery').
Proof.
  unfold calculateUsableRangeKm.
  assert (forall b, 0 <= Math_min (Math_max b 0) 100 <= 100) as Hbattery.
  { intros b. destruct (clamp_percent_cases b) as [[? ->]|[[? ->]|[? ->]]]; lra. }
  assert (forall r, 0 <= Math_max r 0) as Hrange by (intros r; apply Math_max_r).
  assert (forall b b', b <= b' ->
            Math_min (Math_max b 0) 100 <= Math_min (Math_max b' 0) 100) as Hmono.
  { intros b b' Hle.
    destruct (clamp_percent_cases b) as [[? ->]|[[? ->]|[? ->]]];
      destruct (clamp_percent_cases b') as [[? ->]|[[? ->]|[? ->]]]; lra. }
  assert (forall r r', r <= r' -> Math_max r 0 <= Math_max r' 0) as Hmono'.
  { intros r r' Hle.
    destruct (Math_max_cases r 0) as [[? ->]|[? ->]];
      destruct (Math_max_cases r' 0) as [[? ->]|[? ->]]; lra. }
  split; [|split; [|split]].
  - pose proof (Hbattery battery) as [H0 H100]. pose proof (Hrange maxRange) as Hr.
    set (b := Math_min (Math_max battery 0) 100) in *.
    set (r := Math_max maxRange 0) in *. clearbody b r.
    split.
    + apply toFixed_nonneg. change (b / 100) with (b * (1 # 100)). nra.
    + apply toFixed_mono. change (b / 100) with (b * (1 # 100)). nra.
  - intros Hzero. apply toFixed_zero.
    destruct Hzero as [Hb|Hr].
    + assert (Math_min (Math_max battery 0) 100 == 0) as ->
        by (destruct (clamp_percent_cases battery) as [[? ->]|[[? ->]|[? ->]]]; lra).
      field.
    + assert (Math_max maxRange 0 == 0) as ->
        by (destruct (Math_max_cases maxRange 0) as [[? ->]|[? ->]]; lra).
      ring.
  - intros Hfull. apply toFixed_proper; [|reflexivity].
    assert (Math_min (Math_max battery 0) 100 == 100) as ->
      by (destruct (clamp_percent_cases battery) as [[? ->]|[[? ->]|[? ->]]]; lra).
    field.
  - intros maxRange' battery' Hr Hb. apply toFixed_mono.
    pose proof (Hbattery battery) as [H0 _]. pose proof (Hrange maxRange) as Hr0.
    specialize (Hmono _ _ Hb). specialize (Hmono' _ _ Hr).
    set (b := Math_min (Math_max battery 0) 100) in *.
    set (b' := Math_min (Math_max battery' 0) 100) in *.
    set (r := Math_max maxRange 0) in *. set (r' := Math_max maxRange' 0) in *.
    clearbody b b' r r'.
    change (b / 100) with (b * (1 # 100)). change (b' / 100) with (b' * (1 # 100)).
    nra.
Qed.

(** ** Further properties: the plan *)



Lemma filter_all_false {A : Type} (p : A -> bool) (l : list A) :
  (forall x, In x l -> p x = false) -> List.filter p l = [].
Proof.
  induction l as [|x l IH]; intros Hall; simpl; [reflexivity|].
  rewrite (Hall x) by (left; reflexivity).
  apply IH. intros y Hy. apply Hall. right. exact Hy.
Qed.

Section PlanMore.
Context `{JSMath}.
Context {W : Type}.
Context (geocodeCity : string -> W -> W * outcome Coordinate).
Context (fetchRoute : Coordinate -> Coordinate -> W -> W * outcome RouteInfo).
Context (fetchNearbyChargingStations :
           NearbyStationsParams -> W -> W * outcome (list OcmStation)).







Lemma findNearbyRescueVehicles_In (input : RescueMatchInput)
    (v : CommunityRescueVehicle) :
  In v (findNearbyRescueVehicles input) <->
  In v (vehicles input) /\ qualifies input v = true.
Proof.
  rewrite findNearbyRescueVehicles_unfold.
  rewrite in_map_iff. split.
  - intros (c & <- & Hc).
    apply (Permutation_in _ (Array_sort_perm compareCandidates _)) in Hc.
    apply in_map_iff in Hc. destruct Hc as (v' & <- & Hv').
    apply List.filter_In in Hv'. exact Hv'.
  - intros Hv. exists (toCandidate input v). split; [reflexivity|].
    apply (Permutation_in _ (Permutation_sym (Array_sort_perm compareCandidates _))).
    apply in_map, List.filter_In, Hv.
Qed.

(** The rescue that the planner simulates: the first matched vehicle
    gives 10 kWh, which is worth 45 km. *)
Lemma plannerRescue_first_match (params : TripParams) (routePoint : Coordinate)
    (localStations : list OcmStation) :
  match matchedRescueVehicles params routePoint with
  | [] =>
    rescueFound (simulateReverseCharging
                   (plannerRescueInput params routePoint localStations)) = false
  | donor :: _ =>
    rescueFound (simulateReverseCharging
                   (plannerRescueInput params routePoint localStations)) = true
    /\ donorVehicleId (simulateReverseCharging
                         (plannerRescueInput params routePoint localStations))
       = Some (vehicleId donor)
    /\ transferredEnergyKwh (simulateReverseCharging
                               (plannerRescueInput params routePoint localStations))
       == 10
    /\ emergencyRangeGainedKm (simulateReverseCharging
                                 (plannerRescueInput params routePoint localStations))
       == 45
  end.
Proof.
  destruct (matchedRescueVehicles params routePoint) as [|donor rest] eqn:Ematched.
  - unfold simulateReverseCharging, plannerRescueInput.
    cbn [rescueCandidates oneRescuePerTrip alreadyRescuedOnTrip truthy nullish andb].
    rewrite Ematched. reflexivity.
  - assert (40 <= availableBatteryPercent donor) as Hcharged.
    { assert (In donor (matchedRescueVehicles params routePoint)) as Hin
        by (rewrite Ematched; left; reflexivity).
      apply findNearbyRescueVehicles_In in Hin. destruct Hin as [_ Hq].
      apply qualifies_true in Hq. destruct Hq as (_ & Hq & _). exact Hq. }
    assert (transferKwh (plannerRescueInput params routePoint localStations) donor = 10)
      as Htransfer.
    { unfold transferKwh, transferCandidateKwh, donorTransferableKwh,
        donorCurrentEnergyKwh, donorMinimumEnergyKwh, plannerRescueInput.
      cbn [transferKwhRange donorBatteryCapacityKwh donorSafeBatteryFloorPercent
           nullish range_min range_max].
      set (spare := availableBatteryPercent donor / 100 * 70 - 25 / 100 * 70).
      assert (21 # 2 <= spare) as Hspare.
      { unfold spare.
        change (availableBatteryPercent donor / 100)
          with (availableBatteryPercent donor * (1 # 100)).
        change (25 / 100) with (25 * (1 # 100)). lra. }
      clearbody spare.
      destruct (Math_max_cases 0 spare) as [[_ ->]|[? _]]; [|lra].
      destruct (Math_min_cases 10 spare) as [[_ ->]|[? _]]; [|lra].
      reflexivity. }
    destruct (simulateReverseCharging_accepted
                (plannerRescueInput params routePoint localStations) donor rest)
      as (Hfound & Hdonor & Hkwh & Hkm);
      [reflexivity|exact Ematched|rewrite Htransfer; reflexivity|].
    rewrite Hkwh, Hkm, Htransfer.
    split; [exact Hfound|]. split; [exact Hdonor|].
    split; vm_compute; reflexivity.
Qed.


(** X11.  When the route is found but the usable range is 0 (an empty
    battery, or a range that is not positive), [planEvTrip] fails with
    [ROUTE_NOT_FOUND] and the message about the battery, without asking the
    station directory: the world is the one the router left and the charger
    memo is untouched. *)
Theorem planEvTrip_battery_too_low (params : TripParams) (s : @PlannerState W)
    (w1 w2 w3 : W) (a b : Coordinate) (route : RouteInfo) :
  geocodeCity (startLocation params) (world s) = (w1, Returned a) ->
  geocodeCity (params_destination params) w1 = (w2, Returned b) ->
  fetchRoute a b w2 = (w3, Returned route) ->
  0 < route_distanceKm route ->
  calculateUsableRangeKm (evMaxRangeKm params) (currentBatteryPercent params) == 0 ->
  planEvTrip geocodeCity fetchRoute fetchNearbyChargingStations params s
  = ({| world := w3; chargerCache := chargerCache s |},
     Thrown (TripPlannerError ROUTE_NOT_FOUND
               "Battery percentage is too low to generate a safe charging plan.")).
Proof.
  intros Hstart Hdestination Hroute Hpositive Hempty.
  unfold planEvTrip, planEvTripBody, bind, callWorld, ret, throw.
  rewrite Hstart. cbn [world chargerCache]. rewrite Hdestination.
  cbn [world chargerCache]. rewrite Hroute. cbn [world chargerCache].
  cbv zeta.
  assert ((route_distanceKm route
           <=? calculateUsableRangeKm (evMaxRangeKm params)
                 (currentBatteryPercent params)) = false) as ->
    by (apply Qleb_false; lra).
  assert ((toFixed (calculateUsableRangeKm (evMaxRangeKm params)
                      (currentBatteryPercent params) * RANGE_BUFFER_FACTOR) 2
           <=? 0) = true) as ->.
  { apply Qleb_true.
    assert (toFixed (calculateUsableRangeKm (evMaxRangeKm params)
                       (currentBatteryPercent params) * RANGE_BUFFER_FACTOR) 2 == 0)
      as Hzero by (apply toFixed_zero; rewrite Hempty; ring).
    lra. }
  reflexivity.
Qed.

(** X12.  When the route needs charging and the directory, asked for the
    first time about the first leg boundary, lists no station, then with a
    battery above 5 % or with rescue disabled [planEvTrip] fails with
    [NO_CHARGERS_FOUND], naming segment 1; the empty answer stays in the
    charger memo. *)
Theorem planEvTrip_no_chargers (params : TripParams) (s : @PlannerState W)
    (w1 w2 w3 w4 : W) (a b : Coordinate) (route : RouteInfo) :
  geocodeCity (startLocation params) (world s) = (w1, Returned a) ->
  geocodeCity (params_destination params) w1 = (w2, Returned b) ->
  fetchRoute a b w2 = (w3, Returned route) ->
  let usable :=
    calculateUsableRangeKm (evMaxRangeKm params) (currentBatteryPercent params) in
  let legRange := toFixed (usable * RANGE_BUFFER_FACTOR) 2 in
  let routePoint := pointAtDistanceAlongRoute (geometry route) (legRange * 1) in
  usable < route_distanceKm route ->
  0 < legRange ->
  (1 <= stopsNeededFor (route_distanceKm route) legRange)%nat ->
  chargerCache s !! chargerCacheKey routePoint = None ->
  fetchNearbyChargingStations
    {| nearby_latitude := lat routePoint;
       nearby_longitude := lng routePoint;
       nearby_distanceKm := Some CHARGER_SEARCH_RADIUS_KM;
       maxResults := Some CHARGER_SEARCH_LIMIT |} w3 = (w4, Returned []) ->
  5 < currentBatteryPercent params \/ enableCommunityRescue params = Some false ->
  planEvTrip geocodeCity fetchRoute fetchNearbyChargingStations params s
  = ({| world := w4;
        chargerCache := <[chargerCacheKey routePoint := []]> (chargerCache s) |},
     Thrown (TripPlannerError NO_CHARGERS_FOUND
               "No charging station found near segment 1. Try a different start/destination or higher battery level.")).
Proof.
  intros Hstart Hdestination Hroute usable legRange routePoint
    Hfar Hleg Hneeded Hmiss Hdirectory Hnorescue.
  unfold planEvTrip, planEvTripBody.
  unfold bind at 1. unfold callWorld at 1. rewrite Hstart. cbn [world chargerCache].
  unfold bind at 1. unfold callWorld at 1. cbn [world chargerCache].
  rewrite Hdestination.
  unfold bind at 1. unfold callWorld at 1. cbn [world chargerCache].
  rewrite Hroute. cbv zeta. fold usable. fold legRange.
  assert ((route_distanceKm route <=? usable) = false) as ->
    by (apply Qleb_false; exact Hfar).
  assert ((legRange <=? 0) = false) as -> by (apply Qleb_false; exact Hleg).
  fold (stopsNeededFor (route_distanceKm route) legRange).
  destruct (stopsNeededFor (route_distanceKm route) legRange) as [|remaining];
    [lia|].
  unfold bind at 1. cbn [planLegs]. unfold bind at 1.
  rewrite chooseBestStop_unfold.
  change (inject_Z 1) with 1. fold routePoint.
  unfold fetchChargersNearPoint, bind, cacheGet, cacheSet, callWorld, ret.
  cbn [world chargerCache]. rewrite Hmiss. cbn [world chargerCache].
  rewrite Hdirectory.
  cbn [detectSolarStations map selectStop world chargerCache].
  cbn [detectOutOfChargeScenario shouldTriggerRescue batteryPercent
       criticalThresholdPercent nullish nearbyStationsCount].
  assert ((currentBatteryPercent params <=? 5) && (0 <=? 0) && rescueEnabled params
          = false) as ->.
  { destruct Hnorescue as [Hbattery|Hoff].
    - apply Qleb_false in Hbattery. rewrite Hbattery. reflexivity.
    - unfold rescueEnabled. rewrite Hoff. apply andb_false_r. }
  reflexivity.
Qed.

(** X13.  The choice of a stop among the stations found near a point:
    none is chosen exactly when every station is already a stop of the
    plan, and then the set of selected ids stays as it is.  Otherwise the
    stop is a station of the list that was not selected before, it carries
    that station's name, address, coordinates and power, its id joins the
    selected ids, and it is a fast charger (50 kW or more) whenever a fast
    charger is among the stations not yet selected. *)
Theorem selectStop_result (nearby : list OcmStation) (route : list Coordinate)
    (d e : Q) (ids : gset string) :
  ((forall s, In s nearby -> id s ∈ ids) ->
   selectStop nearby route d e ids = (None, ids))
  /\ ((exists s, In s nearby /\ id s ∉ ids) ->
      exists stop st,
        selectStop nearby route d e ids = (Some stop, {[ stop_id stop ]} ∪ ids)
        /\ In st nearby
        /\ (id st ∉ ids)
        /\ stop_id stop = id st
        /\ stop_name stop = name st
        /\ stop_address stop = address st
        /\ stop_latitude stop = latitude st
        /\ stop_longitude stop = longitude st
        /\ powerKw stop = maxPowerKwOf st
        /\ distanceFromRouteKm stop
           = minDistanceToRouteKm {| lat := latitude st; lng := longitude st |} route
        /\ distanceFromStartKm stop = toFixed d 1
        /\ (isFastCharger stop = true <-> MIN_FAST_CHARGER_KW <= maxPowerKw st)
        /\ ((exists s', In s' nearby /\ (id s' ∉ ids)
                        /\ MIN_FAST_CHARGER_KW <= maxPowerKw s') ->
            isFastCharger stop = true)).
Proof.
  assert (forall s, In s nearby -> id s ∉ ids ->
            In {| station := s;
                  power := maxPowerKwOf s;
                  cand_solar := isSolarPowered s;
                  cand_distanceFromRouteKm :=
                    minDistanceToRouteKm {| lat := latitude s; lng := longitude s |}
                      route |}
               (availableCandidates nearby route ids)) as Havailable.
  { intros s Hs Hfresh. unfold availableCandidates.
    apply (in_map (fun s => {| station := s; power := maxPowerKwOf s;
                               cand_solar := isSolarPowered s;
                               cand_distanceFromRouteKm :=
                                 minDistanceToRouteKm
                                   {| lat := latitude s; lng := longitude s |}
                                   route |})).
    apply List.filter_In. split; [exact Hs|].
    rewrite bool_decide_eq_false_2 by exact Hfresh. reflexivity. }
  split.
  - intros Hall. unfold selectStop. destruct nearby as [|s0 rest]; [reflexivity|].
    assert (availableCandidates (s0 :: rest) route ids = []) as ->; [|reflexivity].
    unfold availableCandidates.
    assert (List.filter (fun s => negb (bool_decide (id s ∈ ids))) (s0 :: rest) = [])
      as ->; [|reflexivity].
    apply filter_all_false. intros s Hs.
    rewrite bool_decide_eq_true_2 by (apply Hall, Hs). reflexivity.
  - intros (s & Hs & Hfresh).
    assert (choosePool (availableCandidates nearby route ids) <> []) as Hpool.
    { apply choosePool_nonempty. intros Hnil.
      specialize (Havailable s Hs Hfresh). rewrite Hnil in Havailable.
      destruct Havailable. }
    destruct (selectStop_picks nearby route d e ids Hpool)
      as (picked & Hhead & Hselect).
    assert (In picked (rankPool (choosePool (availableCandidates nearby route ids))))
      as Hranked.
    { destruct (rankPool _) as [|p rest]; [discriminate|].
      injection Hhead as ->. left. reflexivity. }
    apply rankPool_In in Hranked. destruct Hranked as (c & Hc & ->).
    pose proof (choosePool_subset _ _ Hc) as Hc'.
    pose proof Hc' as Hsource.
    unfold availableCandidates in Hsource. apply in_map_iff in Hsource.
    destruct Hsource as (st & <- & Hst).
    apply List.filter_In in Hst. destruct Hst as [Hst Hunselected].
    apply negb_true_iff, bool_decide_eq_false in Hunselected.
    eexists _, st. split; [exact Hselect|].
    cbn. split; [exact Hst|]. split; [exact Hunselected|].
    repeat (split; [reflexivity|]).
    split.
    + rewrite <- maxPowerKwOf_fast. apply Qleb_true.
    + intros (s' & Hs' & Hfresh' & Hfast).
      destruct (choosePool_fast (availableCandidates nearby route ids)) as [Hfastpool _].
      { eexists. split; [apply (Havailable s' Hs' Hfresh')|].
        cbn. apply maxPowerKwOf_fast, Hfast. }
      rewrite Hfastpool in Hc. unfold fastCandidates in Hc.
      apply List.filter_In in Hc. destruct Hc as [_ Hc]. exact Hc.
Qed.

(** X14.  [fetchChargersNearPoint] asks the directory at most once per
    memo key.  When it returns, the list is in the memo under the key of
    the point, and asking again for any point with that key returns the
    same list and leaves the state, the world included, as it is; a list
    found in the memo is returned without a request.  When it fails, the
    memo is as before, so the next call asks again. *)
Theorem fetchChargersNearPoint_memo (point : Coordinate) (s : @PlannerState W) :
  match fetchChargersNearPoint fetchNearbyChargingStations point s with
  | (s1, Returned stations) =>
    chargerCache s1 !! chargerCacheKey point = Some stations
    /\ (forall point',
           chargerCacheKey point' = chargerCacheKey point ->
           fetchChargersNearPoint fetchNearbyChargingStations point' s1
           = (s1, Returned stations))
    /\ (forall cached,
           chargerCache s !! chargerCacheKey point = Some cached ->
           stations = cached /\ s1 = s)
    /\ (forall key, key <> chargerCacheKey point ->
                    chargerCache s1 !! key = chargerCache s !! key)
  | (s1, Thrown e) =>
    chargerCache s !! chargerCacheKey point = None
    /\ chargerCache s1 = chargerCache s
  end.
Proof.
  unfold fetchChargersNearPoint, bind, cacheGet, cacheSet, callWorld, ret.
  destruct (chargerCache s !! chargerCacheKey point) as [cached|] eqn:Hcache.
  - split; [exact Hcache|]. split; [|split].
    + intros point' ->. rewrite Hcache. reflexivity.
    + intros cached' Heq. injection Heq as <-. split; reflexivity.
    + reflexivity.
  - destruct (fetchNearbyChargingStations _ (world s)) as [w' [stations|e]]; cbn.
    + split; [apply lookup_insert_eq|]. split; [|split].
      * intros point' ->. rewrite lookup_insert_eq. reflexivity.
      * discriminate.
      * intros key Hkey. apply lookup_insert_ne. congruence.
    + split; reflexivity.
Qed.

End PlanMore.




Lemma planEvTrip_battery_too_low_witness :
  exists s',
    Sample.plan 150 300 0
    = (s', Thrown (TripPlannerError ROUTE_NOT_FOUND
                     "Battery percentage is too low to generate a safe charging plan.")).
Proof.
  eexists.
  apply (@planEvTrip_battery_too_low Sample.flatMath unit Sample.geocodeCity
           (Sample.fetchRoute 150) Sample.fetchNearbyChargingStations
           (Sample.trip 300 0) Sample.initialState tt tt tt Sample.here Sample.here
           (Sample.sampleRoute 150)).
  - reflexivity.
  - reflexivity.
  - reflexivity.
  - vm_compute. reflexivity.
  - vm_compute. reflexivity.
Defined.

Lemma planEvTrip_no_chargers_witness :
  exists s',
    Cases.strandedPlan 80
    = (s', Thrown (TripPlannerError NO_CHARGERS_FOUND
                     "No charging station found near segment 1. Try a different start/destination or higher battery level.")).
Proof.
  eexists.
  apply (@planEvTrip_no_chargers Sample.flatMath unit Sample.geocodeCity
           (Sample.fetchRoute 500) Cases.emptyDirectory
           (Cases.rescueTrip 80) Sample.initialState tt tt tt tt
           Sample.here Sample.here (Sample.sampleRoute 500)).
  - reflexivity.
  - reflexivity.
  - reflexivity.
  - vm_compute. reflexivity.
  - vm_compute. reflexivity.
  - vm_compute. lia.
  - apply lookup_empty.
  - reflexivity.
  - left. vm_compute. reflexivity.
Defined.

(** ** Further properties: distance to the route *)

Lemma sampleEvery_In {A : Type} (step : nat) (l : list A) :
  forall skip x, In x (sampleEvery step skip l) -> In x l.
Proof.
  induction l as [|y l IH]; intros skip x Hx; simpl in Hx; [exact Hx|].
  destruct skip as [|k].
  - destruct Hx as [->|Hx]; [left; reflexivity|right; apply (IH _ _ Hx)].
  - right. apply (IH _ _ Hx).
Qed.

Lemma sampleEvery_lookup {A : Type} (step : nat) (l : list A) :
  (1 <= step)%nat ->
  forall skip i x, l !! (skip + i * step)%nat = Some x ->
                   In x (sampleEvery step skip l).
Proof.
  intros Hstep. induction l as [|y l IH]; intros skip i x Hx; [discriminate|].
  simpl. destruct skip as [|k].
  - destruct i as [|i].
    + simpl in Hx. injection Hx as ->. left. reflexivity.
    + right. apply (IH (step - 1)%nat i).
      replace (0 + S i * step)%nat with (S (step - 1 + i * step)) in Hx by lia.
      exact Hx.
  - apply (IH k i). exact Hx.
Qed.

Lemma foldl_min_map {A : Type} (f : A -> Q) (l : list A) (x : Q) :
  foldl (fun m p => Math_min m (f p)) x l = foldl Math_min x (map f l).
Proof.
  revert x. induction l as [|p l IH]; intros x; simpl; [reflexivity|]. apply IH.
Qed.

Section DistanceToRoute.
Context `{JSMath}.

(** X15.  [minDistanceToRouteKm] is 0 for an empty route.  Otherwise it
    is the distance from the point to one of the route's points, rounded
    to 2 decimals: it is not negative, and it is at most the rounded
    distance to every point that is sampled, which are the points at the
    multiples of max(1, floor(length / 120)), the first point among
    them; for a route of fewer than 240 points these are all points. *)
Theorem minDistanceToRouteKm_spec (point : Coordinate) (route : list Coordinate) :
  (route = [] -> minDistanceToRouteKm point route = 0)
  /\ (route <> [] ->
      0 <= minDistanceToRouteKm point route
      /\ (exists p, In p route
                    /\ minDistanceToRouteKm point route
                       = toFixed (haversineKm point p) 2)
      /\ (forall i p,
             route !! (i * Nat.max 1 (length route / 120))%nat = Some p ->
             minDistanceToRouteKm point route <= toFixed (haversineKm point p) 2)
      /\ ((length route < 240)%nat ->
          forall p, In p route ->
                    minDistanceToRouteKm point route
                    <= toFixed (haversineKm point p) 2)).
Proof.
  split; [intros ->; reflexivity|].
  intros Hroute.
  assert (forall i p,
             route !! (i * Nat.max 1 (length route / 120))%nat = Some p ->
             minDistanceToRouteKm point route <= toFixed (haversineKm point p) 2)
    as Hsampled.
  { intros i p Hp.
    assert (In p (sampleEvery (Nat.max 1 (length route / 120)) 0 route)) as Hin
      by (apply (sampleEvery_lookup _ route (Nat.le_max_l 1 _) 0%nat i); exact Hp).
    unfold minDistanceToRouteKm.
    destruct (sampleEvery _ 0 route) as [|p0 samples]; [destruct Hin|].
    apply toFixed_mono. rewrite foldl_min_map.
    destruct (foldl_Math_min (map (haversineKm point) samples) (haversineKm point p0))
      as (_ & Hfirst & Hall).
    destruct Hin as [->|Hin]; [exact Hfirst|].
    rewrite List.Forall_forall in Hall. apply Hall, in_map, Hin. }
  unfold minDistanceToRouteKm in *.
  destruct (sampleEvery (Nat.max 1 (length route / 120)) 0 route)
    as [|p0 samples] eqn:Esamples.
  { destruct route as [|first rest]; [congruence|discriminate]. }
  rewrite foldl_min_map in *.
  destruct (foldl_Math_min (map (haversineKm point) samples) (haversineKm point p0))
    as ([Hmin|Hmin] & _ & _).
  - assert (In p0 route) as Hp0.
    { apply (sampleEvery_In (Nat.max 1 (length route / 120)) route 0%nat).
      rewrite Esamples. left. reflexivity. }
    split; [rewrite Hmin; apply toFixed_nonneg, haversineKm_nonneg|].
    split; [exists p0; split; [exact Hp0|rewrite Hmin; reflexivity]|].
    split; [exact Hsampled|].
    intros Hshort p Hp. apply list_elem_of_In, list_elem_of_lookup in Hp.
    destruct Hp as (i & Hp). apply (Hsampled i).
    replace (Nat.max 1 (length route / 120)) with 1%nat.
    + rewrite Nat.mul_1_r. exact Hp.
    + assert (length route / 120 <= 1)%nat
        by (apply Nat.lt_succ_r, Nat.Div0.div_lt_upper_bound; lia).
      lia.
  - apply in_map_iff in Hmin. destruct Hmin as (p & Hp & Hin).
    assert (In p route) as Hproute.
    { apply (sampleEvery_In (Nat.max 1 (length route / 120)) route 0%nat).
      rewrite Esamples. right. exact Hin. }
    split; [rewrite <- Hp; apply toFixed_nonneg, haversineKm_nonneg|].
    split; [exists p; split; [exact Hproute|rewrite <- Hp; reflexivity]|].
    split; [exact Hsampled|].
    intros Hshort q Hq. apply list_elem_of_In, list_elem_of_lookup in Hq.
    destruct Hq as (i & Hq). apply (Hsampled i).
    replace (Nat.max 1 (length route / 120)) with 1%nat.
    + rewrite Nat.mul_1_r. exact Hq.
    + assert (length route / 120 <= 1)%nat
        by (apply Nat.lt_succ_r, Nat.Div0.div_lt_upper_bound; lia).
      lia.
Qed.
End DistanceToRoute.

(** ** Further properties: the station directory client *)

Lemma Math_floor_bounds (x : Q) : Math_floor x <= x /\ x < Math_floor x + 1.
Proof.
  unfold Math_floor. split; [apply Qfloor_le|].
  pose proof (Qlt_floor x) as Hlt. rewrite inject_Z_plus in Hlt. exact Hlt.
Qed.

Lemma Math_floor_mono (x y : Q) : x <= y -> Math_floor x <= Math_floor y.
Proof.
  intros Hle. unfold Math_floor. rewrite <- Zle_Qle. apply Qfloor_resp_le, Hle.
Qed.

Lemma Math_floor_Z (n : Z) : Math_floor (inject_Z n) = inject_Z n.
Proof. unfold Math_floor. rewrite Qfloor_Z. reflexivity. Qed.

(** [Math.min(Math.max(1, Math.floor(x)), hi)] for a whole [hi] from 1 on. *)
Lemma clamp_floor (x : Q) (hi : Z) :
  (1 <= hi)%Z ->
  1 <= Math_min (Math_max 1 (Math_floor x)) (inject_Z hi) <= inject_Z hi
  /\ (exists n : Z, Math_min (Math_max 1 (Math_floor x)) (inject_Z hi) = inject_Z n)
  /\ (1 <= x -> x < inject_Z hi + 1 ->
      Math_min (Math_max 1 (Math_floor x)) (inject_Z hi) = Math_floor x)
  /\ (x < 1 -> Math_min (Math_max 1 (Math_floor x)) (inject_Z hi) = 1)
  /\ (inject_Z hi + 1 <= x ->
      Math_min (Math_max 1 (Math_floor x)) (inject_Z hi) = inject_Z hi).
Proof.
  intros Hhi.
  assert (1 <= inject_Z hi) as Hhi' by (change 1 with (inject_Z 1); rewrite <- Zle_Qle; lia).
  pose proof (Math_floor_bounds x) as [Hlow Hhigh].
  assert (1 <= x -> 1 <= Math_floor x) as Hone.
  { intros Hx. change 1 with (Math_floor 1) at 1. apply Math_floor_mono, Hx. }
  assert (x < inject_Z hi + 1 -> Math_floor x <= inject_Z hi) as Hbelow.
  { intros Hx. unfold Math_floor in *. rewrite <- Zle_Qle.
    assert (inject_Z (Qfloor x) < inject_Z (hi + 1)) as Hlt
      by (rewrite inject_Z_plus; change (inject_Z 1) with 1; lra).
    rewrite <- Zlt_Qlt in Hlt. lia. }
  assert (inject_Z hi + 1 <= x -> inject_Z hi < Math_floor x) as Habove.
  { intros Hx.
    assert (inject_Z (hi + 1) <= Math_floor x) as Hle.
    { rewrite <- (Math_floor_Z (hi + 1)). apply Math_floor_mono.
      rewrite inject_Z_plus. exact Hx. }
    rewrite inject_Z_plus in Hle. change (inject_Z 1) with 1 in Hle. lra. }
  destruct (Math_max_cases 1 (Math_floor x)) as [[Hm ->]|[Hm ->]].
  - destruct (Math_min_cases (Math_floor x) (inject_Z hi)) as [[Hn ->]|[Hn ->]].
    + split; [lra|]. split; [exists (Qfloor x); reflexivity|].
      split; [reflexivity|]. split; [intros Hx; lra|]. intros Hx.
      specialize (Habove Hx). lra.
    + split; [lra|]. split; [exists hi; reflexivity|].
      split; [intros Hx1 Hx2; specialize (Hbelow Hx2); lra|].
      split; [intros Hx; lra|]. reflexivity.
  - destruct (Math_min_cases 1 (inject_Z hi)) as [[Hn ->]|[Hn ->]]; [|lra].
    split; [lra|]. split; [exists 1%Z; reflexivity|].
    split; [intros Hx; specialize (Hone Hx); lra|].
    split; [reflexivity|]. intros Hx. specialize (Habove Hx). lra.
Qed.

(** X16.  [clampDistanceKm] gives a whole number of kilometres between 1
    and 500 and [clampMaxResults] a whole number between 1 and 100: the
    floor of a finite value within the bounds, the nearer bound outside
    them, and the defaults 8 and 40 for a value that is missing or not
    finite.  The radius and the limit the planner asks for pass as they
    are. *)
Theorem clampDistanceKm_clampMaxResults (value : option jsnumber) :
  (1 <= clampDistanceKm value <= 500
   /\ exists n : Z, clampDistanceKm value = inject_Z n)
  /\ (1 <= clampMaxResults value <= 100
      /\ exists n : Z, clampMaxResults value = inject_Z n)
  /\ (forall x, value = Some (Finite x) ->
        (1 <= x -> x < 501 -> clampDistanceKm value = Math_floor x)
        /\ (x < 1 -> clampDistanceKm value = 1)
        /\ (501 <= x -> clampDistanceKm value = 500)
        /\ (1 <= x -> x < 101 -> clampMaxResults value = Math_floor x)
        /\ (x < 1 -> clampMaxResults value = 1)
        /\ (101 <= x -> clampMaxResults value = 100))
  /\ (match value with Some x => Number_isFinite x | None => false end = false ->
      clampDistanceKm value = 8 /\ clampMaxResults value = 40)
  /\ clampDistanceKm (Some (Finite CHARGER_SEARCH_RADIUS_KM)) == CHARGER_SEARCH_RADIUS_KM
  /\ clampMaxResults (Some (Finite CHARGER_SEARCH_LIMIT)) == CHARGER_SEARCH_LIMIT.
Proof.
  split; [|split; [|split; [|split; [|split]]]].
  - destruct value as [[x| | |]|]; cbn;
      try (split; [split; discriminate|exists 8%Z; reflexivity]).
    destruct (clamp_floor x 500 ltac:(lia)) as (Hrange & Hwhole & _).
    split; [exact Hrange|exact Hwhole].
  - destruct value as [[x| | |]|]; cbn;
      try (split; [split; discriminate|exists 40%Z; reflexivity]).
    destruct (clamp_floor x 100 ltac:(lia)) as (Hrange & Hwhole & _).
    split; [exact Hrange|exact Hwhole].
  - intros x ->. cbn.
    destruct (clamp_floor x 500 ltac:(lia)) as (_ & _ & Hin & Hlow & Hhigh).
    destruct (clamp_floor x 100 ltac:(lia)) as (_ & _ & Hin' & Hlow' & Hhigh').
    repeat split; assumption.
  - destruct value as [[x| | |]|]; cbn; try discriminate; intros _; split; reflexivity.
  - vm_compute. reflexivity.
  - vm_compute. reflexivity.
Qed.


Lemma append_nonempty (s t : string) : s <> "" -> s +:+ t <> "".
Proof. destruct s; [congruence|discriminate]. Qed.

Lemma presentStrings_In (l : list (option string)) (s : string) :
  In s (presentStrings l) <-> In (Some s) l /\ s <> "".
Proof.
  unfold presentStrings. induction l as [|o l IH]; simpl.
  - split; [intros []|intros [[] _]].
  - destruct o as [[|c t]|]; simpl; rewrite IH.
    + split; [intros [Hin Hne]; split; [right; exact Hin|exact Hne]|].
      intros [[Heq|Hin] Hne]; [congruence|split; assumption].
    + split.
      * intros [<-|[Hin Hne]]; [split; [left; reflexivity|discriminate]|].
        split; [right; exact Hin|exact Hne].
      * intros [[Heq|Hin] Hne]; [left; congruence|right; split; assumption].
    + split; [intros [Hin Hne]; split; [right; exact Hin|exact Hne]|].
      intros [[Heq|Hin] Hne]; [discriminate|split; assumption].
Qed.

Lemma joinWith_nonempty (sep : string) (l : list string) :
  l <> [] -> Forall (fun s => s <> "") l -> joinWith sep l <> "".
Proof.
  destruct l as [|s l]; [congruence|]. intros _ Hall.
  inversion Hall as [|? ? Hs _]; subst.
  destruct l as [|t l]; [exact Hs|].
  change (joinWith sep (s :: t :: l)) with (s +:+ sep +:+ joinWith sep (t :: l)).
  apply append_nonempty, Hs.
Qed.

Lemma append_assoc' (a b c : string) : (a +:+ b) +:+ c = a +:+ b +:+ c.
Proof.
  induction a as [|x a IH]; [reflexivity|].
  change (String x ((a +:+ b) +:+ c) = String x (a +:+ b +:+ c)). by rewrite IH.
Qed.

Lemma append_empty_r (s : string) : s +:+ "" = s.
Proof.
  induction s as [|x s IH]; [reflexivity|].
  change (String x (s +:+ "") = String x s). by rewrite IH.
Qed.

Lemma joinWith_includes (sep : string) (l : list string) (s : string) :
  In s l -> includes (joinWith sep l) s = true.
Proof.
  intros Hin. apply includes_spec. induction l as [|t l IH]; [destruct Hin|].
  destruct l as [|u l].
  - destruct Hin as [->|[]]. exists "", "". change (s = s +:+ "").
    symmetry. apply append_empty_r.
  - change (joinWith sep (t :: u :: l)) with (t +:+ sep +:+ joinWith sep (u :: l)).
    destruct Hin as [->|Hin].
    + exists "", (sep +:+ joinWith sep (u :: l)). reflexivity.
    + destruct (IH Hin) as (pre & post & ->).
      exists (t +:+ sep +:+ pre), post. rewrite !append_assoc'. reflexivity.
Qed.


(** X17.  [buildAddress] never gives an empty text: without any address
    field that is present and not empty it gives "Address unavailable",
    otherwise the fields present, in the order line, town, state, postcode,
    country, joined by a comma and a space, so that each of them occurs in
    the address. *)
Theorem buildAddress_spec (info : OcmApiAddressInfo) :
  let fields :=
    [ AddressLine1 info; Town info; StateOrProvince info; Postcode info;
      optChain (Country info) country_Title ] in
  buildAddress info <> ""
  /\ ((forall s, In (Some s) fields -> s = "") ->
      buildAddress info = "Address unavailable")
  /\ (forall s, In (Some s) fields -> s <> "" ->
                buildAddress info = joinWith ", " (presentStrings fields)
                /\ includes (buildAddress info) s = true)
  /\ (forall s, presentStrings fields = [s] -> buildAddress info = s).
Proof.
  cbv zeta. unfold buildAddress.
  set (fields := [ AddressLine1 info; Town info; StateOrProvince info; Postcode info;
                   optChain (Country info) country_Title ]).
  assert (Forall (fun s => s <> "") (presentStrings fields)) as Hall.
  { rewrite List.Forall_forall. intros s Hs. apply presentStrings_In in Hs. tauto. }
  split; [|split; [|split]].
  - destruct (presentStrings fields) as [|s l] eqn:Efields; [discriminate|].
    apply joinWith_nonempty; [discriminate|exact Hall].
  - intros Hnone. destruct (presentStrings fields) as [|s l] eqn:Efields; [reflexivity|].
    assert (In s (presentStrings fields)) as Hs by (rewrite Efields; left; reflexivity).
    apply presentStrings_In in Hs. destruct Hs as [Hs Hne].
    specialize (Hnone s Hs). contradiction.
  - intros s Hs Hne.
    assert (In s (presentStrings fields)) as Hin
      by (apply presentStrings_In; split; assumption).
    destruct (presentStrings fields) as [|t l] eqn:Efields; [destruct Hin|].
    split; [reflexivity|]. apply joinWith_includes, Hin.
  - intros s ->. reflexivity.
Qed.


Lemma detectSolarStation_fixed (s : OcmStation) :
  stationDetected s -> detectSolarStation ∅ s = s.
Proof.
  intros (source & Hsource & Hsolar). unfold detectSolarStation.
  rewrite lookup_empty, Hsource. cbn [nullish].
  destruct s. cbn in *. subst. reflexivity.
Qed.

Lemma normalizeStation_detected (poi : OcmApiPoi) (station : OcmStation) :
  normalizeStation poi = Some station -> stationDetected station.
Proof.
  unfold normalizeStation.
  destruct (AddressInfo poi) as [info|]; [|discriminate].
  destruct (Latitude info), (Longitude info), (ID poi); try discriminate.
  intros Heq. injection Heq as <-.
  exists (inferEnergySource poi). split; [reflexivity|].
  cbn [isSolarPowered]. destruct (inferEnergySource poi); reflexivity.
Qed.


Lemma StronglySorted_weaken {A : Type} (R R' : A -> A -> Prop) (l : list A) :
  (forall a b, R a b -> R' a b) -> StronglySorted R l -> StronglySorted R' l.
Proof.
  intros Himpl Hsorted.
  induction Hsorted as [|x l Hsorted IH Hall]; constructor; [exact IH|].
  eapply Forall_impl; [exact Hall|]. intros y. apply Himpl.
Qed.

(** X19.  The list that [fetchNearbyChargingStations] makes of the
    directory's records holds the stations of the records that
    [normalizeStation] keeps, ordered by distance, nearest first.  The
    planner's [detectSolarStations] leaves such a list as it is: the energy
    source that the directory client inferred stands. *)
Theorem normalizeStations_spec (data : list OcmApiPoi) :
  StronglySorted (fun a b => distanceKm a <= distanceKm b) (normalizeStations data)
  /\ Permutation (normalizeStations data) (omap normalizeStation data)
  /\ (forall station,
         In station (normalizeStations data) <->
         exists poi, In poi data /\ normalizeStation poi = Some station)
  /\ (length (normalizeStations data) <= length data)%nat
  /\ detectSolarStations (normalizeStations data) ∅ = normalizeStations data.
Proof.
  assert (Permutation (normalizeStations data) (omap normalizeStation data)) as Hperm
    by apply Array_sort_perm.
  assert (forall station,
             In station (normalizeStations data) <->
             exists poi, In poi data /\ normalizeStation poi = Some station) as Hin.
  { intros station. rewrite <- list_elem_of_In, Hperm, list_elem_of_omap.
    split; intros (poi & Hpoi & Hstation); exists poi;
      (split; [apply list_elem_of_In, Hpoi|exact Hstation]). }
  split; [|split; [exact Hperm|split; [exact Hin|split]]].
  - unfold normalizeStations.
    apply (StronglySorted_weaken
             (fun a b : OcmStation => distanceKm a - distanceKm b <= 0)).
    + intros a b Hle. lra.
    + apply Array_sort_sorted.
      * intros a b.
        destruct (Qlt_le_dec (distanceKm a) (distanceKm b)); [left|right]; lra.
      * intros a b c. lra.
  - rewrite (Permutation_length Hperm). clear.
    induction data as [|poi data IH]; [reflexivity|].
    cbn. destruct (normalizeStation poi); cbn; lia.
  - unfold detectSolarStations.
    rewrite <- (map_id (normalizeStations data)) at 2.
    apply map_ext_in. intros station Hstation.
    apply Hin in Hstation. destruct Hstation as (poi & _ & Hstation).
    apply detectSolarStation_fixed.
    apply (normalizeStation_detected poi). exact Hstation.
Qed.

Lemma includes_app_l (a b k : string) :
  includes a k = true -> includes (a +:+ b) k = true.
Proof.
  rewrite !includes_spec. intros (pre & post & ->).
  exists pre, (post +:+ b). rewrite !append_assoc'. reflexivity.
Qed.

Lemma includes_app_r (a b k : string) :
  includes b k = true -> includes (a +:+ b) k = true.
Proof.
  rewrite !includes_spec. intros (pre & post & ->).
  exists (a +:+ pre), post. rewrite !append_assoc'. reflexivity.
Qed.

(** X20.  [inferEnergySource] classifies a directory record by the
    keywords that occur in its title, operator name and comments, read in
    lower case: hybrid when a hybrid keyword occurs, else solar when a
    solar keyword occurs, else grid.  So a record is grid exactly when no
    keyword occurs, and a keyword in any one of the three fields, in any
    letter case, is enough to make it solar or hybrid. *)
Theorem inferEnergySource_keywords (poi : OcmApiPoi) :
  (inferEnergySource poi = hybrid <->
   exists k, In k OCM_HYBRID_KEYWORDS /\ includes (metadataText poi) k = true)
  /\ (inferEnergySource poi = solar <->
      (forall k, In k OCM_HYBRID_KEYWORDS -> includes (metadataText poi) k = false)
      /\ exists k, In k OCM_SOLAR_KEYWORDS /\ includes (metadataText poi) k = true)
  /\ (inferEnergySource poi = grid <->
      forall k, In k (OCM_HYBRID_KEYWORDS ++ OCM_SOLAR_KEYWORDS) ->
                includes (metadataText poi) k = false)
  /\ (forall k field,
         In k (OCM_HYBRID_KEYWORDS ++ OCM_SOLAR_KEYWORDS) ->
         In (Some field)
            [ optChain (AddressInfo poi) address_Title;
              optChain (OperatorInfo poi) operator_Title;
              GeneralComments poi ] ->
         includes (toLowerCase field) k = true ->
         inferEnergySource poi <> grid
         /\ (In k OCM_HYBRID_KEYWORDS -> inferEnergySource poi = hybrid)).
Proof.
  assert (forall l : list string,
            existsb (fun keyword => includes (metadataText poi) keyword) l = false
            <-> forall k, In k l -> includes (metadataText poi) k = false) as Hnone.
  { intros l. induction l as [|k l IH]; simpl.
    - split; [intros _ k []|reflexivity].
    - rewrite orb_false_iff, IH. split.
      + intros [Hk Hl] k' [<-|Hk']; [exact Hk|apply Hl, Hk'].
      + intros Hall. split; [apply Hall; left; reflexivity|].
        intros k' Hk'. apply Hall. right. exact Hk'. }
  assert (inferEnergySource poi
          = if existsb (fun keyword => includes (metadataText poi) keyword)
                 OCM_HYBRID_KEYWORDS
            then hybrid
            else if existsb (fun keyword => includes (metadataText poi) keyword)
                      OCM_SOLAR_KEYWORDS
                 then solar else grid) as Hinfer.
  { unfold inferEnergySource, MANUAL_ENERGY_TAGS.
    destruct (ID poi) as [number|]; cbn [optChain]; [rewrite lookup_empty|];
      reflexivity. }
  assert (inferEnergySource poi = hybrid <->
          exists k, In k OCM_HYBRID_KEYWORDS /\ includes (metadataText poi) k = true)
    as Hhybrid.
  { rewrite Hinfer.
    destruct (existsb _ OCM_HYBRID_KEYWORDS) eqn:Eh.
    - split; [intros _|reflexivity]. apply existsb_exists in Eh. exact Eh.
    - split.
      + destruct (existsb _ OCM_SOLAR_KEYWORDS); discriminate.
      + intros (k & Hk & Hin). rewrite Hnone in Eh. rewrite (Eh k Hk) in Hin.
        discriminate. }
  assert (inferEnergySource poi = grid <->
          forall k, In k (OCM_HYBRID_KEYWORDS ++ OCM_SOLAR_KEYWORDS) ->
                    includes (metadataText poi) k = false) as Hgrid.
  { rewrite Hinfer.
    destruct (existsb _ OCM_HYBRID_KEYWORDS) eqn:Eh.
    - split; [discriminate|]. intros Hall. apply existsb_exists in Eh.
      destruct Eh as (k & Hk & Hin).
      rewrite (Hall k) in Hin by (apply in_or_app; left; exact Hk). discriminate.
    - destruct (existsb _ OCM_SOLAR_KEYWORDS) eqn:Es.
      + split; [discriminate|]. intros Hall. apply existsb_exists in Es.
        destruct Es as (k & Hk & Hin).
        rewrite (Hall k) in Hin by (apply in_or_app; right; exact Hk). discriminate.
      + split; [intros _|reflexivity]. rewrite Hnone in Eh, Es.
        intros k Hk. apply in_app_or in Hk. destruct Hk; auto. }
  split; [exact Hhybrid|]. split; [|split; [exact Hgrid|]].
  - rewrite Hinfer.
    destruct (existsb _ OCM_HYBRID_KEYWORDS) eqn:Eh.
    + split; [discriminate|]. intros [Hall _]. apply Hnone in Hall. congruence.
    + rewrite Hnone in Eh. destruct (existsb _ OCM_SOLAR_KEYWORDS) eqn:Es.
      * split; [intros _|reflexivity]. split; [exact Eh|].
        apply existsb_exists in Es. exact Es.
      * split; [discriminate|]. intros [_ (k & Hk & Hin)].
        rewrite Hnone in Es. rewrite (Es k Hk) in Hin. discriminate.
  - intros k field Hk Hfield Hoccurs.
    assert (includes (metadataText poi) k = true) as Hfound.
    { unfold metadataText. rewrite !toLowerCase_app.
      destruct Hfield as [Hf|[Hf|[Hf|[]]]]; rewrite Hf; cbn [nullish].
      - apply includes_app_l, Hoccurs.
      - apply includes_app_r, includes_app_r, includes_app_l, Hoccurs.
      - do 4 apply includes_app_r. exact Hoccurs. }
    split.
    + intros Hgrid'. rewrite Hgrid in Hgrid'. rewrite (Hgrid' k Hk) in Hfound.
      discriminate.
    + intros Hk'. apply Hhybrid. exists k. split; assumption.
Qed.

(** ** Further properties: the clients on the network *)


Section ClientFacts.
Context {Net : Type}.
Context (ORS_API_KEY : option string).
Context (getStations :
           Q -> Q -> Q -> Q -> bool -> Net -> Net * fetched OcmBody).
Context (getGeocode :
           string -> string -> Net -> Net * fetched OrsGeocodeResponse).
Context (postDirections :
           string -> Q * Q -> Q * Q -> Net -> Net * fetched OrsDirectionsResponse).



(** X22.  [geocodeCity] keeps one memo entry per place name, trimmed and
    in lower case.  When it returns, the coordinate is in the memo under
    that key, and asking again for any name with the same key returns it
    without touching the network or the state; a coordinate that was in the
    memo is returned as it is, and one that was fetched has the router's
    [longitude, latitude] pair the right way round.  When it fails the
    memos are as before; a blank name fails with [INVALID_LOCATION] and a
    missing key with [MISSING_ORS_KEY], both without a request, and an
    answer that is not ok fails with [NETWORK_ERROR] and the status
    line. *)
Theorem geocodeCity_memo (cityName : string) (s : @ClientState Net) :
  let key := toLowerCase (trim cityName) in
  match geocodeCityImpl ORS_API_KEY getGeocode cityName s with
  | (s1, Returned coordinate) =>
    key <> ""
    /\ geocodeCache s1 !! key = Some coordinate
    /\ routeCache s1 = routeCache s
    /\ (forall cityName',
           toLowerCase (trim cityName') = key ->
           geocodeCityImpl ORS_API_KEY getGeocode cityName' s1
           = (s1, Returned coordinate))
    /\ (forall cached,
           geocodeCache s !! key = Some cached -> coordinate = cached /\ s1 = s)
    /\ (geocodeCache s !! key = None ->
        exists apiKey response payload longitude' latitude' rest,
          usableKey ORS_API_KEY = Some apiKey
          /\ getGeocode apiKey (trim cityName) (net s)
             = (net s1, FetchResolved response)
          /\ resp_ok response = true
          /\ resp_json response = Returned payload
          /\ firstCoordinates payload = Some (longitude' :: latitude' :: rest)
          /\ coordinate = {| lat := latitude'; lng := longitude' |})
  | (s1, Thrown e) =>
    geocodeCache s1 = geocodeCache s
    /\ routeCache s1 = routeCache s
    /\ (key <> "" -> geocodeCache s !! key = None)
    /\ (key = "" ->
        s1 = s
        /\ e = TripPlannerError INVALID_LOCATION
                 "Please enter both start and destination locations.")
    /\ (key <> "" -> usableKey ORS_API_KEY = None -> s1 = s /\ e = missingKey)
    /\ (forall apiKey n' response,
           key <> "" ->
           usableKey ORS_API_KEY = Some apiKey ->
           getGeocode apiKey (trim cityName) (net s) = (n', FetchResolved response) ->
           resp_ok response = false ->
           e = TripPlannerError NETWORK_ERROR
                 ("Routing provider request failed ("
                  +:+ pretty (resp_status response) +:+ " "
                  +:+ resp_statusText response +:+ ")."))
  end.
Proof.
  cbv zeta. unfold geocodeCityImpl.
  destruct (isEmpty (toLowerCase (trim cityName))) eqn:Eblank.
  { apply isEmpty_true in Eblank.
    split; [reflexivity|]. split; [reflexivity|]. split; [congruence|].
    split; [intros _; split; reflexivity|]. split; [congruence|].
    intros; congruence. }
  assert (toLowerCase (trim cityName) <> "") as Hkey.
  { intros Hempty. rewrite Hempty in Eblank. discriminate. }
  destruct (geocodeCache s !! toLowerCase (trim cityName)) as [cached|] eqn:Ecache.
  { split; [exact Hkey|]. split; [exact Ecache|]. split; [reflexivity|].
    split.
    - intros cityName' ->. rewrite Eblank, Ecache. reflexivity.
    - split; [|discriminate]. intros cached' Heq. injection Heq as <-.
      split; reflexivity. }
  destruct (usableKey ORS_API_KEY) as [apiKey|] eqn:Eapi.
  2: { split; [reflexivity|]. split; [reflexivity|]. split; [reflexivity|].
       split; [congruence|]. split; [intros _ _; split; reflexivity|].
       intros; congruence. }
  destruct (getGeocode apiKey (trim cityName) (net s)) as [n' [e|response]] eqn:Efetch.
  { cbn. split; [reflexivity|]. split; [reflexivity|]. split; [reflexivity|].
    split; [congruence|]. split; [intros _ Hnone; discriminate Hnone|].
    intros apiKey' n'' response _ Hsame Hresolved. injection Hsame as <-.
    rewrite Efetch in Hresolved. discriminate. }
  destruct (resp_ok response) eqn:Eok; cbn.
  2: { split; [reflexivity|]. split; [reflexivity|]. split; [reflexivity|].
       split; [congruence|]. split; [intros _ Hnone; discriminate Hnone|].
       intros apiKey' n'' response' _ Hsame Hresolved _. injection Hsame as <-.
       rewrite Efetch in Hresolved. injection Hresolved as _ <-. reflexivity. }
  destruct (resp_json response) as [payload|e] eqn:Ejson; cbn.
  2: { split; [reflexivity|]. split; [reflexivity|]. split; [reflexivity|].
       split; [congruence|]. split; [intros _ Hnone; discriminate Hnone|].
       intros apiKey' n'' response' _ Hsame Hresolved Hbad. injection Hsame as <-.
       rewrite Efetch in Hresolved. injection Hresolved as _ <-. congruence. }
  destruct (firstCoordinates payload) as [[|longitude' [|latitude' rest]]|] eqn:Efirst;
    cbn.
  1, 2, 4: split; [reflexivity|]; split; [reflexivity|]; split; [reflexivity|];
    split; [congruence|]; split; [intros _ Hnone; discriminate Hnone|];
    intros apiKey' n'' response' _ Hsame Hresolved Hbad; injection Hsame as <-;
    rewrite Efetch in Hresolved; injection Hresolved as _ <-; congruence.
  split; [exact Hkey|]. split; [apply lookup_insert_eq|]. split; [reflexivity|].
  split.
  { intros cityName' ->. rewrite Eblank. cbn [geocodeCache].
    rewrite lookup_insert_eq. reflexivity. }
  split; [discriminate|]. intros _.
  exists apiKey, response, payload, longitude', latitude', rest.
  repeat split; assumption.
Qed.



(** X24.  [fetchRoute] keeps one memo entry per pair of end points, each
    coordinate written with 5 decimals.  When it returns, the route is in
    the memo under that key, and asking again for any end points with the
    same key returns it without touching the network or the state.  When it
    fails the memos are as before; without an API key it fails with
    [MISSING_ORS_KEY] unless the route is in the memo. *)
Theorem fetchRoute_memo (startPoint destinationPoint : Coordinate)
    (s : @ClientState Net) :
  let key := routeCacheKey startPoint destinationPoint in
  match fetchRouteImpl ORS_API_KEY postDirections startPoint destinationPoint s with
  | (s1, Returned route) =>
    routeCache s1 !! key = Some route
    /\ geocodeCache s1 = geocodeCache s
    /\ (forall startPoint' destinationPoint',
           routeCacheKey startPoint' destinationPoint' = key ->
           fetchRouteImpl ORS_API_KEY postDirections startPoint' destinationPoint' s1
           = (s1, Returned route))
    /\ (forall cached, routeCache s !! key = Some cached -> route = cached /\ s1 = s)
    /\ (routeCache s !! key = None ->
        getRouteDistance ORS_API_KEY postDirections
          (lat startPoint, lng startPoint) (lat destinationPoint, lng destinationPoint)
          (net s) = (net s1, Returned route))
  | (s1, Thrown e) =>
    routeCache s !! key = None
    /\ routeCache s1 = routeCache s
    /\ geocodeCache s1 = geocodeCache s
    /\ (usableKey ORS_API_KEY = None -> s1 = s /\ e = missingKey)
  end.
Proof.
  cbv zeta. unfold fetchRouteImpl.
  destruct (routeCache s !! routeCacheKey startPoint destinationPoint)
    as [cached|] eqn:Ecache.
  { split; [exact Ecache|]. split; [reflexivity|]. split.
    - intros startPoint' destinationPoint' ->. rewrite Ecache. reflexivity.
    - split; [|discriminate]. intros cached' Heq. injection Heq as <-.
      split; reflexivity. }
  destruct (usableKey ORS_API_KEY) as [apiKey|] eqn:Eapi.
  2: { repeat split; reflexivity. }
  destruct (getRouteDistance ORS_API_KEY postDirections _ _ (net s))
    as [n' [route|e]] eqn:Eroute.
  - split; [apply lookup_insert_eq|]. split; [reflexivity|]. split.
    + intros startPoint' destinationPoint' ->. cbn [routeCache].
      rewrite lookup_insert_eq. reflexivity.
    + split; [discriminate|]. intros _. reflexivity.
  - cbn. split; [reflexivity|]. split; [reflexivity|]. split; [reflexivity|].
    discriminate.
Qed.

Context `{JSMath}.

Lemma PlannerState_eta {W : Type} (s : @PlannerState W) :
  {| world := world s; chargerCache := chargerCache s |} = s.
Proof. destruct s. reflexivity. Qed.

(** X25.  [planEvTrip] over the real clients fails before any request,
    leaving the state as it is, when the start is blank
    ([INVALID_LOCATION]), and when the start is not in the geocoding memo
    and there is no API key ([MISSING_ORS_KEY]); with the start in the memo
    a blank destination fails the same way as a blank start. *)
Theorem planEvTripOnline_before_any_request (params : TripParams)
    (s : @PlannerState (@ClientState Net)) :
  (toLowerCase (trim (startLocation params)) = "" ->
   planEvTripOnline ORS_API_KEY getStations getGeocode postDirections params s
   = (s, Thrown (TripPlannerError INVALID_LOCATION
                   "Please enter both start and destination locations.")))
  /\ (toLowerCase (trim (startLocation params)) <> "" ->
      geocodeCache (world s) !! toLowerCase (trim (startLocation params)) = None ->
      usableKey ORS_API_KEY = None ->
      planEvTripOnline ORS_API_KEY getStations getGeocode postDirections params s
      = (s, Thrown missingKey))
  /\ (forall cached,
         toLowerCase (trim (startLocation params)) <> "" ->
         geocodeCache (world s) !! toLowerCase (trim (startLocation params))
         = Some cached ->
         toLowerCase (trim (params_destination params)) = "" ->
         planEvTripOnline ORS_API_KEY getStations getGeocode postDirections params s
         = (s, Thrown (TripPlannerError INVALID_LOCATION
                         "Please enter both start and destination locations."))).
Proof.
  unfold planEvTripOnline, planEvTrip, planEvTripBody.
  split; [|split].
  - intros Hblank. unfold bind at 1. unfold callWorld at 1.
    unfold geocodeCityImpl at 1. rewrite Hblank. cbn.
    rewrite PlannerState_eta. reflexivity.
  - intros Hname Hmiss Hkey. unfold bind at 1. unfold callWorld at 1.
    unfold geocodeCityImpl at 1.
    destruct (isEmpty (toLowerCase (trim (startLocation params)))) eqn:Eblank;
      [apply isEmpty_true in Eblank; contradiction|].
    rewrite Hmiss, Hkey. cbn. rewrite PlannerState_eta. reflexivity.
  - intros cached Hname Hhit Hblank. unfold bind at 1. unfold callWorld at 1.
    unfold geocodeCityImpl at 1.
    destruct (isEmpty (toLowerCase (trim (startLocation params)))) eqn:Eblank;
      [apply isEmpty_true in Eblank; contradiction|].
    rewrite Hhit. cbn [world chargerCache].
    unfold bind at 1. unfold callWorld at 1. cbn [world chargerCache].
    unfold geocodeCityImpl at 1. rewrite Hblank. cbn.
    rewrite PlannerState_eta. reflexivity.
Qed.

End ClientFacts.


(** ** Further properties: the simulated community vehicles *)

Section SimulatedFleet.
Context `{JSMath}.

(** X27.  Without community vehicles in the parameters the planner
    matches donors among its three simulated vehicles, and only EV-COMM-101
    and EV-COMM-202 can be matched, each only if the direction of the
    trip, "start-destination", scores at least 0.35 against the route text
    of that vehicle; EV-COMM-303 does not support reverse charging.  When
    the direction scores less against both texts no vehicle is matched and
    the simulated rescue is refused. *)
Theorem simulatedFleet_match (params : TripParams) (routePoint : Coordinate) :
  communityVehicles params = None ->
  (forall v,
      In v (matchedRescueVehicles params routePoint) ->
      (vehicleId v = "EV-COMM-101"
       /\ 35 # 100
          <= routeSimilarityScore
               (startLocation params +:+ "-" +:+ params_destination params)
               "same corridor outbound")
      \/ (vehicleId v = "EV-COMM-202"
          /\ 35 # 100
             <= routeSimilarityScore
                  (startLocation params +:+ "-" +:+ params_destination params)
                  "nearby local route"))
  /\ (routeSimilarityScore
        (startLocation params +:+ "-" +:+ params_destination params)
        "same corridor outbound" < 35 # 100 ->
      routeSimilarityScore
        (startLocation params +:+ "-" +:+ params_destination params)
        "nearby local route" < 35 # 100 ->
      matchedRescueVehicles params routePoint = []
      /\ forall localStations,
           rescueFound (simulateReverseCharging
                          (plannerRescueInput params routePoint localStations))
           = false).
Proof.
  intros Hnone.
  assert (forall v,
            In v (matchedRescueVehicles params routePoint) ->
            (vehicleId v = "EV-COMM-101"
             /\ 35 # 100
                <= routeSimilarityScore
                     (startLocation params +:+ "-" +:+ params_destination params)
                     "same corridor outbound")
            \/ (vehicleId v = "EV-COMM-202"
                /\ 35 # 100
                   <= routeSimilarityScore
                        (startLocation params +:+ "-" +:+ params_destination params)
                        "nearby local route")) as Hmatched.
  { intros v Hv. unfold matchedRescueVehicles in Hv.
    apply findNearbyRescueVehicles_In in Hv. destruct Hv as [Hin Hq].
    apply qualifies_true in Hq. destruct Hq as (Hsupports & _ & _ & Hscore).
    cbn [vehicles receiverRouteDirection] in Hin, Hscore.
    rewrite Hnone in Hin. cbn [nullish createSimulatedCommunityVehicles] in Hin.
    destruct Hin as [<-|[<-|[<-|[]]]].
    - left. split; [reflexivity|exact Hscore].
    - right. split; [reflexivity|exact Hscore].
    - discriminate Hsupports. }
  split; [exact Hmatched|].
  intros Hfirst Hsecond.
  assert (matchedRescueVehicles params routePoint = []) as Hempty.
  { destruct (matchedRescueVehicles params routePoint) as [|v rest]; [reflexivity|].
    destruct (Hmatched v) as [[_ Hscore]|[_ Hscore]]; [left; reflexivity| |]; lra. }
  split; [exact Hempty|]. intros localStations.
  pose proof (plannerRescue_first_match params routePoint localStations) as Hsim.
  rewrite Hempty in Hsim. exact Hsim.
Qed.
End SimulatedFleet.

Lemma simulatedFleet_match_witness :
  @matchedRescueVehicles Sample.flatMath (Sample.trip 300 5) Sample.here = [].
Proof.
  apply (@simulatedFleet_match Sample.flatMath (Sample.trip 300 5) Sample.here).
  - reflexivity.
  - vm_compute. reflexivity.
  - vm_compute. reflexivity.
Defined.

(** ** Further properties: the chargers of a rescue *)

Section RescueStations.
Context `{JSMath}.
Context {W : Type}.
Context (geocodeCity : string -> W -> W * outcome Coordinate).
Context (fetchRoute : Coordinate -> Coordinate -> W -> W * outcome RouteInfo).
Context (fetchNearbyChargingStations :
           NearbyStationsParams -> W -> W * outcome (list OcmStation)).





End RescueStations.


(** ** Further properties: planning the same trip again *)

Section Replay.
Context `{JSMath}.
Context {W : Type}.
Context (fetchNearbyChargingStations :
           NearbyStationsParams -> W -> W * outcome (list OcmStation)).
Context (kept : W -> W -> Prop).
Hypothesis kept_refl : forall w, kept w w.
Hypothesis kept_trans : forall w1 w2 w3, kept w1 w2 -> kept w2 w3 -> kept w1 w3.
Hypothesis kept_directory :
  forall p w, kept w (fst (fetchNearbyChargingStations p w)).

Lemma fetchChargersNearPoint_hit (point : Coordinate) (t : @PlannerState W)
    (nearby : list OcmStation) :
  chargerCache t !! chargerCacheKey point = Some nearby ->
  fetchChargersNearPoint fetchNearbyChargingStations point t = (t, Returned nearby).
Proof.
  intros Hhit. unfold fetchChargersNearPoint, bind, cacheGet, ret.
  rewrite Hhit. reflexivity.
Qed.

Lemma fetchChargersNearPoint_grows (point : Coordinate) (s s1 : @PlannerState W)
    (nearby : list OcmStation) :
  fetchChargersNearPoint fetchNearbyChargingStations point s = (s1, Returned nearby) ->
  chargerCache s1 !! chargerCacheKey point = Some nearby
  /\ chargerCache s ⊆ chargerCache s1
  /\ kept (world s) (world s1).
Proof.
  unfold fetchChargersNearPoint, bind, cacheGet, cacheSet, callWorld, ret.
  destruct (chargerCache s !! chargerCacheKey point) as [cached|] eqn:Hcache.
  - intros Heq. injection Heq as <- <-. split; [exact Hcache|].
    split; [reflexivity|apply kept_refl].
  - pose proof (kept_directory
                  {| nearby_latitude := lat point;
                     nearby_longitude := lng point;
                     nearby_distanceKm := Some CHARGER_SEARCH_RADIUS_KM;
                     maxResults := Some CHARGER_SEARCH_LIMIT |} (world s)) as Hkept.
    destruct (fetchNearbyChargingStations _ (world s)) as [w' [stations|e]];
      cbn; [|discriminate].
    intros Heq. injection Heq as <- <-. cbn.
    split; [apply lookup_insert_eq|].
    split; [apply insert_subseteq, Hcache|exact Hkept].
Qed.

(** A run of the segmentation loop that returns only adds to the charger
    memo, and from any state that holds the memo it ends with, the same run
    returns the same result without a request. *)
Lemma planLegs_replay (params : TripParams) (route : RouteInfo)
    (leg consumption : Q) (details : CommunityRescueDetails) (remaining : nat) :
  forall (i : Z) (stops : list PlannedChargingStop) (ids : gset string)
         (s s' : @PlannerState W)
         (result : list PlannedChargingStop * CommunityRescueDetails),
    planLegs fetchNearbyChargingStations params route leg consumption details
      remaining i stops ids s = (s', Returned result) ->
    chargerCache s ⊆ chargerCache s'
    /\ kept (world s) (world s')
    /\ forall t,
         chargerCache s' ⊆ chargerCache t ->
         planLegs fetchNearbyChargingStations params route leg consumption details
           remaining i stops ids t = (t, Returned result).
Proof.
  induction remaining as [|remaining IH];
    intros i stops ids s s' result Hplan.
  - cbn in Hplan. injection Hplan as <- <-.
    split; [reflexivity|]. split; [apply kept_refl|]. intros t _. reflexivity.
  - cbn [planLegs] in Hplan.
    apply bind_returned in Hplan. destruct Hplan as (chosen & s1 & Hchoose & Hrest).
    rewrite chooseBestStop_unfold in Hchoose.
    destruct (fetchChargersNearPoint fetchNearbyChargingStations _ s)
      as [s1' [nearby|err]] eqn:Hfetch; [|discriminate].
    injection Hchoose as -> <-.
    apply fetchChargersNearPoint_grows in Hfetch.
    destruct Hfetch as (Hstored & Hgrows & Hkept).
    destruct (selectStop nearby _ _ _ ids) as [[stop|] ids'] eqn:Hselect.
    + apply IH in Hrest. destruct Hrest as (Hgrows' & Hkept' & Hreplay).
      split; [etrans; eassumption|]. split; [eapply kept_trans; eassumption|].
      intros t Ht. cbn [planLegs]. unfold bind at 1.
      rewrite chooseBestStop_unfold.
      rewrite (fetchChargersNearPoint_hit _ t nearby)
        by (eapply lookup_weaken; [exact Hstored|etrans; eassumption]).
      rewrite Hselect. apply Hreplay, Ht.
    + cbn [detectOutOfChargeScenario shouldTriggerRescue batteryPercent
           criticalThresholdPercent nullish nearbyStationsCount] in Hrest.
      change (0 <=? 0) with true in Hrest.
      destruct (currentBatteryPercent params <=? 5) eqn:Ebattery; [|discriminate].
      destruct (rescueEnabled params) eqn:Eenabled; [|discriminate].
      cbn [andb] in Hrest. unfold simulateRescueAt in Hrest.
      apply bind_returned in Hrest. destruct Hrest as (sim & s2 & Hsim & Hrest).
      apply bind_returned in Hsim.
      destruct Hsim as (localStations & s3 & Hagain & Hsim).
      rewrite (fetchChargersNearPoint_hit _ s1 nearby Hstored) in Hagain.
      injection Hagain as <- <-. injection Hsim as <- <-.
      destruct (rescueFound _) eqn:Efound; [|discriminate].
      injection Hrest as <- <-.
      split; [exact Hgrows|]. split; [exact Hkept|].
      intros t Ht. cbn [planLegs]. unfold bind at 1.
      rewrite chooseBestStop_unfold.
      rewrite (fetchChargersNearPoint_hit _ t nearby)
        by (eapply lookup_weaken; [exact Hstored|exact Ht]).
      rewrite Hselect.
      cbn [detectOutOfChargeScenario shouldTriggerRescue batteryPercent
           criticalThresholdPercent nullish nearbyStationsCount].
      change (0 <=? 0) with true. rewrite Ebattery, Eenabled. cbn [andb].
      unfold bind at 1. unfold simulateRescueAt. unfold bind at 1.
      rewrite (fetchChargersNearPoint_hit _ t nearby)
        by (eapply lookup_weaken; [exact Hstored|exact Ht]).
      unfold ret at 1. rewrite Efound. reflexivity.
Qed.
End Replay.

Section OnlineReplay.
Context {Net : Type}.
Context (ORS_API_KEY : option string).
Context (getStations :
           Q -> Q -> Q -> Q -> bool -> Net -> Net * fetched OcmBody).
Context (getGeocode :
           string -> string -> Net -> Net * fetched OrsGeocodeResponse).
Context (postDirections :
           string -> Q * Q -> Q * Q -> Net -> Net * fetched OrsDirectionsResponse).
Context `{JSMath}.

Lemma geocodeCityImpl_returned (cityName : string) (c c' : @ClientState Net)
    (coordinate : Coordinate) :
  geocodeCityImpl ORS_API_KEY getGeocode cityName c = (c', Returned coordinate) ->
  toLowerCase (trim cityName) <> ""
  /\ geocodeCache c' !! toLowerCase (trim cityName) = Some coordinate
  /\ geocodeCache c ⊆ geocodeCache c'
  /\ routeCache c' = routeCache c.
Proof.
  unfold geocodeCityImpl.
  destruct (isEmpty (toLowerCase (trim cityName))) eqn:Eblank; [discriminate|].
  assert (toLowerCase (trim cityName) <> "") as Hkey.
  { intros Hempty. rewrite Hempty in Eblank. discriminate. }
  destruct (geocodeCache c !! toLowerCase (trim cityName)) as [cached|] eqn:Ecache.
  { intros Heq. injection Heq as <- <-.
    split; [exact Hkey|]. split; [exact Ecache|]. split; reflexivity. }
  destruct (usableKey ORS_API_KEY) as [apiKey|]; [|discriminate].
  destruct (getGeocode apiKey (trim cityName) (net c)) as [n' [e|response]];
    [discriminate|].
  destruct (resp_ok response); [|discriminate]. cbn.
  destruct (resp_json response) as [payload|e]; [|discriminate].
  destruct (firstCoordinates payload) as [[|longitude' [|latitude' rest]]|];
    try discriminate.
  intros Heq. injection Heq as <- <-. cbn.
  split; [exact Hkey|]. split; [apply lookup_insert_eq|].
  split; [apply insert_subseteq, Ecache|reflexivity].
Qed.

Lemma geocodeCityImpl_hit (cityName : string) (c : @ClientState Net)
    (coordinate : Coordinate) :
  toLowerCase (trim cityName) <> "" ->
  geocodeCache c !! toLowerCase (trim cityName) = Some coordinate ->
  geocodeCityImpl ORS_API_KEY getGeocode cityName c = (c, Returned coordinate).
Proof.
  intros Hkey Hhit. unfold geocodeCityImpl.
  destruct (isEmpty (toLowerCase (trim cityName))) eqn:Eblank;
    [apply isEmpty_true in Eblank; contradiction|].
  rewrite Hhit. reflexivity.
Qed.

Lemma fetchRouteImpl_returned (a b : Coordinate) (c c' : @ClientState Net)
    (route : RouteInfo) :
  fetchRouteImpl ORS_API_KEY postDirections a b c = (c', Returned route) ->
  routeCache c' !! routeCacheKey a b = Some route
  /\ geocodeCache c' = geocodeCache c.
Proof.
  unfold fetchRouteImpl.
  destruct (routeCache c !! routeCacheKey a b) as [cached|] eqn:Ecache.
  { intros Heq. injection Heq as <- <-. split; [exact Ecache|reflexivity]. }
  destruct (usableKey ORS_API_KEY) as [apiKey|]; [|discriminate].
  destruct (getRouteDistance ORS_API_KEY postDirections _ _ (net c))
    as [n' [route'|e]]; [|discriminate].
  intros Heq. injection Heq as <- <-. cbn.
  split; [apply lookup_insert_eq|reflexivity].
Qed.

Lemma fetchRouteImpl_hit (a b : Coordinate) (c : @ClientState Net) (route : RouteInfo) :
  routeCache c !! routeCacheKey a b = Some route ->
  fetchRouteImpl ORS_API_KEY postDirections a b c = (c, Returned route).
Proof. intros Hhit. unfold fetchRouteImpl. rewrite Hhit. reflexivity. Qed.

Lemma sameMemos_directory (p : NearbyStationsParams) (c : @ClientState Net) :
  sameMemos c (fst (fetchNearbyChargingStationsImpl getStations p c)).
Proof.
  unfold fetchNearbyChargingStationsImpl.
  destruct (fetchNearbyChargingStationsOn getStations p (net c)) as [n' r].
  split; reflexivity.
Qed.

(** X29.  Planning the same trip again is answered from the memos: when
    [planEvTrip] over the real clients returns a plan, planning with the
    same parameters in the state it left returns the same plan, makes no
    request and leaves the state as it is. *)
Theorem planEvTripOnline_replay (params : TripParams)
    (s s1 : @PlannerState (@ClientState Net)) (r : RoutePlanResult) :
  planEvTripOnline ORS_API_KEY getStations getGeocode postDirections params s
  = (s1, Returned r) ->
  planEvTripOnline ORS_API_KEY getStations getGeocode postDirections params s1
  = (s1, Returned r).
Proof.
  unfold planEvTripOnline, planEvTrip.
  destruct (planEvTripBody _ _ _ params s) as [s1' [r1|err]] eqn:Hbody;
    [|discriminate].
  intros Heq. injection Heq as -> ->.
  assert (planEvTripBody (geocodeCityImpl ORS_API_KEY getGeocode)
            (fetchRouteImpl ORS_API_KEY postDirections)
            (fetchNearbyChargingStationsImpl getStations) params s1
          = (s1, Returned r)) as Hagain; [|rewrite Hagain; reflexivity].
  unfold planEvTripBody in Hbody.
  apply bind_returned in Hbody. destruct Hbody as (a & s2 & Hstart & Hbody).
  apply bind_returned in Hbody. destruct Hbody as (b & s3 & Hdestination & Hbody).
  apply bind_returned in Hbody. destruct Hbody as (route & s4 & Hroute & Hbody).
  unfold callWorld in Hstart, Hdestination, Hroute.
  destruct (geocodeCityImpl _ _ (startLocation params) (world s))
    as [c1 [a'|e]] eqn:Egeo1; [|discriminate].
  injection Hstart as <- <-.
  cbn [world chargerCache] in Hdestination.
  destruct (geocodeCityImpl _ _ (params_destination params) c1)
    as [c2 [b'|e]] eqn:Egeo2; [|discriminate].
  injection Hdestination as <- <-.
  cbn [world chargerCache] in Hroute.
  destruct (fetchRouteImpl _ _ a' b' c2) as [c3 [route'|e]] eqn:Eroute;
    [|discriminate].
  injection Hroute as <- <-.
  apply geocodeCityImpl_returned in Egeo1.
  destruct Egeo1 as (Hkey1 & Hmemo1 & _ & _).
  apply geocodeCityImpl_returned in Egeo2.
  destruct Egeo2 as (Hkey2 & Hmemo2 & Hgrows2 & _).
  apply fetchRouteImpl_returned in Eroute. destruct Eroute as (Hmemo3 & Hsame3).
  cbv zeta in Hbody.
  assert (forall t : @PlannerState (@ClientState Net),
            sameMemos c3 (world t) ->
            callWorld (geocodeCityImpl ORS_API_KEY getGeocode (startLocation params)) t
            = (t, Returned a')) as Hgeo1.
  { intros t [Hg _]. unfold callWorld.
    rewrite (geocodeCityImpl_hit _ _ a' Hkey1).
    - rewrite PlannerState_eta. reflexivity.
    - rewrite Hg, Hsame3. eapply lookup_weaken; [exact Hmemo1|exact Hgrows2]. }
  assert (forall t : @PlannerState (@ClientState Net),
            sameMemos c3 (world t) ->
            callWorld (geocodeCityImpl ORS_API_KEY getGeocode
                         (params_destination params)) t
            = (t, Returned b')) as Hgeo2.
  { intros t [Hg _]. unfold callWorld.
    rewrite (geocodeCityImpl_hit _ _ b' Hkey2).
    - rewrite PlannerState_eta. reflexivity.
    - rewrite Hg, Hsame3. exact Hmemo2. }
  assert (forall t : @PlannerState (@ClientState Net),
            sameMemos c3 (world t) ->
            callWorld (fetchRouteImpl ORS_API_KEY postDirections a' b') t
            = (t, Returned route')) as Hroute.
  { intros t [_ Hr]. unfold callWorld.
    rewrite (fetchRouteImpl_hit _ _ _ route').
    - rewrite PlannerState_eta. reflexivity.
    - rewrite Hr. exact Hmemo3. }
  assert (forall c : @ClientState Net, sameMemos c c) as Hrefl
    by (intros c; split; reflexivity).
  assert (forall c c' c'' : @ClientState Net,
            sameMemos c c' -> sameMemos c' c'' -> sameMemos c c'') as Htrans.
  { intros c c' c'' [Hg Hr] [Hg' Hr']. split; congruence. }
  unfold planEvTripBody.
  destruct (route_distanceKm route' <=? _) eqn:Ereach.
  - injection Hbody as <- <-.
    unfold bind at 1. rewrite Hgeo1 by apply Hrefl.
    unfold bind at 1. rewrite Hgeo2 by apply Hrefl.
    unfold bind at 1. rewrite Hroute by apply Hrefl.
    cbv zeta. rewrite Ereach. reflexivity.
  - destruct (toFixed _ 2 <=? 0) eqn:Eleg; [discriminate|].
    apply bind_returned in Hbody.
    destruct Hbody as (planned & s5 & Hlegs & Hret).
    assert (s5 = s1) as ->.
    { destruct planned as [stops details]. injection Hret as ->. reflexivity. }
    apply (planLegs_replay (fetchNearbyChargingStationsImpl getStations)
             sameMemos Hrefl Htrans sameMemos_directory) in Hlegs.
    destruct Hlegs as (_ & Hkept & Hreplay). cbn [world] in Hkept.
    unfold bind at 1. rewrite Hgeo1 by exact Hkept.
    unfold bind at 1. rewrite Hgeo2 by exact Hkept.
    unfold bind at 1. rewrite Hroute by exact Hkept.
    cbv zeta. rewrite Ereach.
    unfold bind at 1. rewrite (Hreplay s1) by reflexivity.
    exact Hret.
Qed.
End OnlineReplay.

Lemma planEvTripOnline_replay_witness :
  exists s1 r,
    Cases.servedPlan (Sample.trip 300 80) Cases.offline = (s1, Returned r)
    /\ map stop_id (chargingStops r) = ["101"; "102"]
    /\ net (world s1) = 5%nat
    /\ Cases.servedPlan (Sample.trip 300 80) s1 = (s1, Returned r).
Proof.
  destruct (Cases.servedPlan (Sample.trip 300 80) Cases.offline)
    as [s1 [r|err]] eqn:Hplan.
  - exists s1, r. split; [reflexivity|].
    pose proof Hplan as Hvalue. vm_compute in Hvalue.
    injection Hvalue as Hstate Hresult.
    split; [rewrite <- Hresult; reflexivity|].
    split; [rewrite <- Hstate; reflexivity|].
    apply (@planEvTripOnline_replay nat (Some "key") Cases.listStations
             Cases.getGeocode Cases.postDirections Sample.flatMath
             (Sample.trip 300 80) Cases.offline s1 r Hplan).
  - vm_compute in Hplan. discriminate Hplan.
Defined.

(** ** Further properties: a station classified by its text *)



